(** * Note Storage & Security Engine of the notes application

    A shallow embedding of the storage, encryption, version-history and
    auto-save code of the application:

    - [src/types/index.ts]            the [Note] and [NoteVersion] records
    - [src/services/database.ts]      [DatabaseService], in its two
                                      variants: the one with a cache in
                                      front of the table, and the one
                                      [noteService.ts] imports, without
    - [src/services/encryption.ts]    [EncryptionService]
    - [src/services/noteService.ts]   [NoteService]
    - [src/hooks/useAutoSave.ts]      the auto-save hook

    Conventions of the embedding.

    - A [Date] is its [getTime()] value, an integer number of milliseconds
      ([Z]); [new Date()] and [Date.now()] are the [now] argument of the
      operation that reads the clock, [uuidv4()] is its [uuid] argument.
    - A [number] is an integer ([Z]); where the code adds to a number that
      has no bound of its own (the version counter) the sum is the rounded
      sum of doubles, [Number_add], and the delay of a timeout is the
      32-bit delay [setTimeout] arms it with, [timeout_delay].
    - A string stands for a JS string, one character per code unit; which
      strings have a lone surrogate is told by crypto-js's interface
      ([isWellFormed]).
    - A JS [Map<string, _>] and the Dexie table keyed by [id] are
      [gmap string _].
    - An [async] method runs to completion before the next one starts (the
      engine is single-threaded and every call site awaits).
    - A rejected promise or a thrown exception is the [Err] result; the state
      reached when the exception is thrown is kept.
    - The libraries the code calls (crypto-js, the DOM, Dexie's I/O) are
      interfaces: type classes for crypto-js and the DOM, a scripted outcome
      per call for the store. *)

From stdpp Require Import gmap strings list fin_maps sorting.
From Stdlib Require Import ZArith Ascii.

Local Open Scope string_scope.
Local Open Scope Z_scope.

(** ** Data model ([src/types/index.ts]) *)

Module NoteVersion.
Record t := mk {
  id : string;
  noteId : string;
  content : string;
  title : string;
  timestamp : Z;
  versionNumber : Z;
}.
End NoteVersion.

(** The value [JSON.parse] gives back for the [encryptedData] string that
    [NoteService.encryptNote] writes with [JSON.stringify]: an object with
    the three string fields [content], [title] and [salt]. *)
Module EncryptedData.
Record t := mk {
  content : string;
  title : string;
  salt : string;
}.
End EncryptedData.

(** [AIMetadata] is stored verbatim and never inspected by the engine. *)
Inductive AIMetadata := AIMetadata_blob (payload : string).

Module Note.
Record t := mk {
  id : string;
  title : string;
  content : string;
  plainTextContent : option string;
  isPinned : bool;
  isEncrypted : bool;
  hasBeenEncrypted : bool;
  encryptedData : option EncryptedData.t;
  tags : list string;
  createdAt : Z;
  updatedAt : Z;
  lastAccessedAt : option Z;
  version : option Z;
  versions : option (list NoteVersion.t);
  aiMetadata : option AIMetadata;
}.
End Note.

(** [Partial<Note>]: every key may be absent. *)
Module Partial.
Record t := mk {
  id : option string;
  title : option string;
  content : option string;
  plainTextContent : option string;
  isPinned : option bool;
  isEncrypted : option bool;
  hasBeenEncrypted : option bool;
  encryptedData : option EncryptedData.t;
  tags : option (list string);
  createdAt : option Z;
  updatedAt : option Z;
  lastAccessedAt : option Z;
  version : option Z;
  versions : option (list NoteVersion.t);
  aiMetadata : option AIMetadata;
}.

Definition empty : t :=
  mk None None None None None None None None None None None None None None None.

(** A whole [Note] passed where a [Partial<Note>] is expected. *)
Definition of_note (n : Note.t) : t :=
  mk (Some (Note.id n)) (Some (Note.title n)) (Some (Note.content n))
     (Note.plainTextContent n) (Some (Note.isPinned n))
     (Some (Note.isEncrypted n)) (Some (Note.hasBeenEncrypted n))
     (Note.encryptedData n) (Some (Note.tags n)) (Some (Note.createdAt n))
     (Some (Note.updatedAt n)) (Note.lastAccessedAt n) (Note.version n)
     (Note.versions n) (Note.aiMetadata n).
End Partial.

(** [{ ...a, ...b }] on one key: the key of [b] wins when present. *)
Definition spread {A} (a : A) (b : option A) : A := default a b.
Definition spread_opt {A} (a b : option A) : option A :=
  match b with Some x => Some x | None => a end.

(** JS truthiness of a string: the empty string is falsy. *)
Definition truthy (s : string) : bool := negb (bool_decide (s = "")).

(** JS numbers are IEEE doubles.  The numbers of the model are integers:
    [Number_round z] is the double nearest to the integer [z], a tie going
    to the even mantissa, which is [z] itself up to 2^53 in absolute value;
    the sum of two numbers is the rounded sum. *)
Definition round_magnitude (m : Z) : Z :=
  let e := Z.log2 m in
  if e <? 53 then m
  else
    let k := e - 52 in
    let q := Z.shiftr m k in
    let r := Z.land m (Z.ones k) in
    let half := Z.shiftl 1 (k - 1) in
    let q := if (half <? r) || ((r =? half) && Z.odd q) then q + 1 else q in
    Z.shiftl q k.

Definition Number_round (z : Z) : Z := Z.sgn z * round_magnitude (Z.abs z).

Definition Number_add (a b : Z) : Z := Number_round (a + b).

Definition MAX_SAFE_INTEGER : Z := 2 ^ 53 - 1.

(** ** Results and the state-and-exception monad *)

Inductive error :=
  | DexieError                (* a rejected store call *)
  | URIError                  (* thrown by [encodeURIComponent] *)
  | Error (message : string). (* [new Error(message)] *)

Inductive result (A : Type) :=
  | Ok (a : A)
  | Err (e : error).
Arguments Ok {A} a.
Arguments Err {A} e.

Definition M (S A : Type) : Type := S -> result A * S.

Definition ret {S A} (a : A) : M S A := fun s => (Ok a, s).
Definition throw {S A} (e : error) : M S A := fun s => (Err e, s).
Definition bind {S A B} (m : M S A) (f : A -> M S B) : M S B :=
  fun s => match m s with
           | (Ok a, s') => f a s'
           | (Err e, s') => (Err e, s')
           end.
Definition try_catch {S A} (m : M S A) (h : error -> M S A) : M S A :=
  fun s => match m s with
           | (Ok a, s') => (Ok a, s')
           | (Err e, s') => h e s'
           end.

Notation "'let*' x ':=' m 'in' k" := (bind m (fun x => k))
  (at level 10, x name, m at level 100, k at level 200).

(** ** The Dexie table [db.notes]

    A table keyed by [Note.id].  Every call either resolves or rejects;
    [outcomes] scripts the calls to come ([true] resolves, [false] rejects,
    an exhausted script resolves), so that a theorem quantified over the
    table is quantified over every behaviour of the store. *)

Record Table := mkTable {
  rows : gmap string Note.t;
  outcomes : list bool;
}.

Definition io (t : Table) : bool * Table :=
  match outcomes t with
  | [] => (true, t)
  | b :: rest => (b, mkTable (rows t) rest)
  end.

Definition Table_toArray : M Table (list Note.t) := fun t =>
  let '(ok, t) := io t in
  if ok then (Ok ((map_to_list (rows t)).*2), t) else (Err DexieError, t).

Definition Table_get (key : string) : M Table (option Note.t) := fun t =>
  let '(ok, t) := io t in
  if ok then (Ok (rows t !! key), t) else (Err DexieError, t).

Definition Table_put (n : Note.t) : M Table unit := fun t =>
  let '(ok, t) := io t in
  if ok then (Ok tt, mkTable (<[Note.id n := n]> (rows t)) (outcomes t))
  else (Err DexieError, t).

Definition Table_delete (key : string) : M Table unit := fun t =>
  let '(ok, t) := io t in
  if ok then (Ok tt, mkTable (delete key (rows t)) (outcomes t))
  else (Err DexieError, t).

Definition Table_bulkPut (ns : list Note.t) : M Table unit := fun t =>
  let '(ok, t) := io t in
  if ok
  then (Ok tt,
        mkTable (foldl (fun m n => <[Note.id n := n]> m) (rows t) ns)
          (outcomes t))
  else (Err DexieError, t).

Definition Table_bulkDelete (keys : list string) : M Table unit := fun t =>
  let '(ok, t) := io t in
  if ok
  then (Ok tt, mkTable (foldl (fun m k => delete k m) (rows t) keys)
                 (outcomes t))
  else (Err DexieError, t).

(** [db.notes.filter(p).toArray()]. *)
Definition Table_filter (p : Note.t -> bool) : M Table (list Note.t) :=
  fun t =>
  let '(ok, t) := io t in
  if ok then (Ok (List.filter p ((map_to_list (rows t)).*2)), t)
  else (Err DexieError, t).

(** ** [DatabaseService] (the cached variant of [services/database.ts]) *)

Module Database.
Record DatabaseService := mkDB {
  db_notes : Table;
  notesCache : gmap string Note.t;
  allNotesCache : option (list Note.t);
  cacheTimestamp : Z;
}.

Definition CACHE_TTL : Z := 5 * 60 * 1000.

(** Run a table call inside the service. *)
Definition on_table {A} (m : M Table A) : M DatabaseService A := fun s =>
  let '(r, t) := m (db_notes s) in
  (r, mkDB t (notesCache s) (allNotesCache s) (cacheTimestamp s)).

(** The comparator of [getAllNotes]: pinned first, then newest update. *)
Definition compareNotes (a b : Note.t) : Z :=
  if Note.isPinned a && negb (Note.isPinned b) then -1
  else if negb (Note.isPinned a) && Note.isPinned b then 1
  else Note.updatedAt b - Note.updatedAt a.

(** [Array.prototype.sort] is stable: an element moves past another only
    when the comparator says it is strictly greater. *)
Fixpoint sort_insert (cmp : Note.t -> Note.t -> Z) (x : Note.t)
    (l : list Note.t) : list Note.t :=
  match l with
  | [] => [x]
  | y :: l' => if 0 <? cmp x y then y :: sort_insert cmp x l' else x :: l
  end.

Definition Array_sort (cmp : Note.t -> Note.t -> Z) (l : list Note.t)
    : list Note.t :=
  foldr (sort_insert cmp) [] l.

Definition invalidateAllNotesCache (s : DatabaseService) : DatabaseService :=
  mkDB (db_notes s) (notesCache s) None 0.

Definition getAllNotes (now : Z) : M DatabaseService (list Note.t) := fun s =>
  match allNotesCache s, now - cacheTimestamp s <? CACHE_TTL with
  | Some cached, true => (Ok cached, s)
  | _, _ =>
      try_catch
        (let* notes := on_table Table_toArray in
         let sortedNotes := Array_sort compareNotes notes in
         fun s => (Ok sortedNotes,
                   mkDB (db_notes s) (notesCache s) (Some sortedNotes) now))
        (fun _ => ret []) s
  end.

Definition getNote (id : string) : M DatabaseService (option Note.t) := fun s =>
  match notesCache s !! id with
  | Some cached => (Ok (Some cached), s)
  | None =>
      try_catch
        (let* note := on_table (Table_get id) in
         match note with
         | Some n => fun s =>
             (Ok (Some n),
              mkDB (db_notes s) (<[id := n]> (notesCache s))
                   (allNotesCache s) (cacheTimestamp s))
         | None => ret None
         end)
        (fun _ => ret None) s
  end.

Definition saveNote (note : Note.t) : M DatabaseService unit :=
  try_catch
    (let* _ := on_table (Table_put note) in
     fun s =>
       (Ok tt,
        invalidateAllNotesCache
          (mkDB (db_notes s) (<[Note.id note := note]> (notesCache s))
                (allNotesCache s) (cacheTimestamp s))))
    (fun e => throw e).

Definition deleteNote (id : string) : M DatabaseService unit :=
  try_catch
    (let* _ := on_table (Table_delete id) in
     fun s =>
       (Ok tt,
        invalidateAllNotesCache
          (mkDB (db_notes s) (delete id (notesCache s))
                (allNotesCache s) (cacheTimestamp s))))
    (fun e => throw e).

Definition clearCache (s : DatabaseService) : DatabaseService :=
  invalidateAllNotesCache
    (mkDB (db_notes s) ∅ (allNotesCache s) (cacheTimestamp s)).

Definition batchSaveNotes (notes : list Note.t) : M DatabaseService unit :=
  try_catch
    (let* _ := on_table (Table_bulkPut notes) in
     fun s =>
       (Ok tt,
        invalidateAllNotesCache
          (mkDB (db_notes s)
                (foldl (fun c note => <[Note.id note := note]> c)
                   (notesCache s) notes)
                (allNotesCache s) (cacheTimestamp s))))
    (fun e => throw e).

Definition batchDeleteNotes (ids : list string) : M DatabaseService unit :=
  try_catch
    (let* _ := on_table (Table_bulkDelete ids) in
     fun s =>
       (Ok tt,
        invalidateAllNotesCache
          (mkDB (db_notes s)
                (foldl (fun c id => delete id c) (notesCache s) ids)
                (allNotesCache s) (cacheTimestamp s))))
    (fun e => throw e).

(** Observers used to state properties: whether the next store call
    resolves, what a [getNote] whose store call resolves shows for an id
    (the point cache, else the table), and a store that never rejects from
    here on. *)
Definition next_call_resolves (s : DatabaseService) : Prop :=
  (io (db_notes s)).1 = true.
Definition next_call_rejects (s : DatabaseService) : Prop :=
  (io (db_notes s)).1 = false.

Definition visible (s : DatabaseService) (id : string) : option Note.t :=
  match notesCache s !! id with
  | Some n => Some n
  | None => rows (db_notes s) !! id
  end.

Definition healthy (s : DatabaseService) : Prop := outcomes (db_notes s) = [].
End Database.

(** ** [DatabaseService] of [services/database.ts]

    The service [noteService.ts] imports: every call goes to the table,
    nothing is cached. *)

Module DirectDatabase.
Record DatabaseService := mkDB {
  db_notes : Table;
}.

Definition on_table {A} (m : M Table A) : M DatabaseService A := fun s =>
  let '(r, t) := m (db_notes s) in
  (r, mkDB t).

Definition getAllNotes : M DatabaseService (list Note.t) :=
  try_catch
    (let* notes := on_table Table_toArray in
     ret (Database.Array_sort Database.compareNotes notes))
    (fun _ => ret []).

Definition getNote (id : string) : M DatabaseService (option Note.t) :=
  try_catch
    (let* note := on_table (Table_get id) in
     ret note)
    (fun _ => ret None).

Definition saveNote (note : Note.t) : M DatabaseService unit :=
  try_catch (on_table (Table_put note)) (fun e => throw e).

Definition deleteNote (id : string) : M DatabaseService unit :=
  try_catch (on_table (Table_delete id)) (fun e => throw e).

Definition bulkDelete (ids : list string) : M DatabaseService unit :=
  try_catch (on_table (Table_bulkDelete ids)) (fun e => throw e).

(** A store that never rejects from here on. *)
Definition healthy (s : DatabaseService) : Prop := outcomes (db_notes s) = [].
End DirectDatabase.

(** ** crypto-js, as far as [EncryptionService] uses it

    A string of the model stands for a JS string, one character per code
    unit.  [isWellFormed s] says that [s] has no lone surrogate
    ([String.prototype.isWellFormed]): crypto-js turns every string it is
    given into bytes with [CryptoJS.enc.Utf8.parse], that is with
    [encodeURIComponent], which throws [URIError] on the other strings.

    [PBKDF2 password salt keySize iterations] is the key
    [CryptoJS.PBKDF2(password, salt, { keySize, iterations })] returns, by
    its bytes; [Hex_stringify] is the [toString()] of such a word array.
    [AES_encrypt message passphrase seed] is
    [CryptoJS.AES.encrypt(message, passphrase).toString()], [seed] being the
    random bytes the call draws; [AES_decrypt] is [CryptoJS.AES.decrypt] and
    [Utf8_stringify] is [wordArray.toString(CryptoJS.enc.Utf8)]; [None] is a
    thrown exception (crypto-js throws "Malformed UTF-8 data").

    Two laws are assumed of the library: a string of ASCII characters is
    well formed, and decrypting under the passphrase that encrypted gives
    the message back, for a message and a passphrase that crypto-js
    accepts. *)

Definition is_ascii (c : ascii) : bool := (N_of_ascii c <? 128)%N.

Definition Hex_digit (n : N) : ascii :=
  nth (N.to_nat n) (String.list_ascii_of_string "0123456789abcdef") "0"%char.

Definition Hex_stringify (bytes : list ascii) : string :=
  String.string_of_list_ascii
    (flat_map (fun b => [Hex_digit (N_of_ascii b / 16);
                         Hex_digit (N_of_ascii b mod 16)]) bytes).

Class CryptoJS := {
  WordArray : Type;
  isWellFormed : string -> bool;
  PBKDF2 : string -> string -> Z -> Z -> list ascii;
  AES_encrypt : string -> string -> string -> string;
  AES_decrypt : string -> string -> option WordArray;
  Utf8_stringify : WordArray -> option string;
  isWellFormed_ascii : forall s,
    forallb is_ascii (String.list_ascii_of_string s) = true ->
    isWellFormed s = true;
  AES_decrypt_encrypt : forall message passphrase seed,
    isWellFormed message = true ->
    isWellFormed passphrase = true ->
    AES_decrypt (AES_encrypt message passphrase seed) passphrase ≫=
      Utf8_stringify = Some message;
}.

(** ** The DOM, as far as [extractPlainText] uses it: the [textContent] and
    [innerText] of a detached [div] whose [innerHTML] is the argument.  An
    empty [div] has no text. *)

Class DOM := {
  textContent : string -> string;
  innerText : string -> string;
  textContent_empty : textContent "" = "";
  innerText_empty : innerText "" = "";
}.

(** What the three random draws of one [encryptNote] call returned. *)
Record Entropy := mkEntropy {
  random_bytes : list ascii;   (* [WordArray.random(128 / 8)] *)
  seed_content : string;
  seed_title : string;
}.

(** ** [EncryptionService] ([services/encryption.ts]) *)

Module Encryption.
Section Service.
Context `{CryptoJS}.

Record EncryptionService := mk {
  sessionPasswords : gmap string string;
}.

Record Encrypted := mkEncrypted {
  encryptedContent : string;
  encryptedTitle : string;
  salt : string;
}.

Record Decrypted := mkDecrypted {
  content : string;
  title : string;
}.

(** [CryptoJS.enc.Utf8.parse] of a string argument. *)
Definition Utf8_parse {S} (s : string) : M S unit :=
  if isWellFormed s then ret tt else throw URIError.

(** The key string [deriveKey] returns when it returns. *)
Definition derivedKey (password salt : string) : string :=
  let iterations := 10000 in
  let keySize := 256 / 32 in
  Hex_stringify (PBKDF2 password salt keySize iterations).

(** [CryptoJS.PBKDF2] parses the password and the salt it is given. *)
Definition deriveKey {S} (password salt : string) : M S string :=
  let* _ := Utf8_parse password in
  let* _ := Utf8_parse salt in
  ret (derivedKey password salt).

(** [CryptoJS.AES.encrypt(message, key).toString()]. *)
Definition encrypt {S} (message key seed : string) : M S string :=
  let* _ := Utf8_parse message in
  let* _ := Utf8_parse key in
  ret (AES_encrypt message key seed).

Definition encryptNote {S} (content title password : string) (rnd : Entropy)
    : M S Encrypted :=
  let salt := Hex_stringify (random_bytes rnd) in
  let* key := deriveKey password salt in
  let* encryptedContent := encrypt content key (seed_content rnd) in
  let* encryptedTitle := encrypt title key (seed_title rnd) in
  ret (mkEncrypted encryptedContent encryptedTitle salt).

(** A library call that may throw, inside a [try]. *)
Definition may_throw {S A} (o : option A) : M S A :=
  match o with
  | Some a => ret a
  | None => throw (Error "crypto-js")
  end.

Definition decryptNote {S} (encryptedContent encryptedTitle password
    salt : string) : M S Decrypted :=
  try_catch
    (let* key := deriveKey password salt in
     let* decryptedContent := may_throw (AES_decrypt encryptedContent key) in
     let* decryptedTitle := may_throw (AES_decrypt encryptedTitle key) in
     let* content := may_throw (Utf8_stringify decryptedContent) in
     let* title := may_throw (Utf8_stringify decryptedTitle) in
     if negb (truthy content) || negb (truthy title)
     then throw (Error "Invalid password")
     else ret (mkDecrypted content title))
    (fun _ =>
       throw (Error "Failed to decrypt note. Please check your password.")).

Definition storeSessionPassword (noteId password : string)
    : M EncryptionService unit := fun s =>
  (Ok tt, mk (<[noteId := password]> (sessionPasswords s))).

Definition getSessionPassword (noteId : string)
    : M EncryptionService (option string) := fun s =>
  (Ok (sessionPasswords s !! noteId), s).

Definition clearSessionPassword (noteId : string)
    : M EncryptionService unit := fun s =>
  (Ok tt, mk (delete noteId (sessionPasswords s))).

Definition clearAllSessionPasswords : M EncryptionService unit := fun _ =>
  (Ok tt, mk ∅).

(** [validatePasswordStrength]: the character classes of its regular
    expressions, tested on the code units of the password. *)
Definition in_range (lo hi c : ascii) : bool :=
  (N_of_ascii lo <=? N_of_ascii c)%N && (N_of_ascii c <=? N_of_ascii hi)%N.

Definition is_lowercase (c : ascii) : bool := in_range "a" "z" c.
Definition is_uppercase (c : ascii) : bool := in_range "A" "Z" c.
Definition is_digit (c : ascii) : bool := in_range "0" "9" c.

(** The class of the last test: the characters it lists, the double quote
    (code 34) among them. *)
Definition special_class : list ascii :=
  (String.list_ascii_of_string "!@#$%^&*()_+-=[]{};':\|,.<>/?"
   ++ [ascii_of_nat 34])%list.
Definition is_special (c : ascii) : bool :=
  existsb (Ascii.eqb c) special_class.

(** [regex.test(password)] for a one-character class. *)
Definition test (class : ascii -> bool) (password : string) : bool :=
  existsb class (String.list_ascii_of_string password).

Record PasswordStrength := mkStrength {
  isValid : bool;
  score : Z;
  feedback : list string;
}.

Definition validatePasswordStrength (password : string) : PasswordStrength :=
  let length := Z.of_nat (String.length password) in
  let feedback : list string := [] in
  let score := 0 in
  let '(score, feedback) :=
    if 8 <=? length then (score + 1, feedback)
    else (score,
          (feedback ++ ["Password should be at least 8 characters long"])%list)
  in
  let score := if 12 <=? length then score + 1 else score in
  let '(score, feedback) :=
    if test is_lowercase password then (score + 1, feedback)
    else (score, (feedback ++ ["Include lowercase letters"])%list) in
  let '(score, feedback) :=
    if test is_uppercase password then (score + 1, feedback)
    else (score, (feedback ++ ["Include uppercase letters"])%list) in
  let '(score, feedback) :=
    if test is_digit password then (score + 1, feedback)
    else (score, (feedback ++ ["Include numbers"])%list) in
  let '(score, feedback) :=
    if test is_special password then (score + 1, feedback)
    else (score, (feedback ++ ["Include special characters"])%list) in
  mkStrength (3 <=? score) (Z.min 5 score) feedback.

(** [generatePassword].  [random i] is the [i]-th raw draw of the run and
    [chars[Math.floor(Math.random() * chars.length)]] is the character at
    that draw modulo the length; [shuffle] is the order in which
    [sort(() => Math.random() - 0.5)] leaves the characters. *)
Definition lowercase : string := "abcdefghijklmnopqrstuvwxyz".
Definition uppercase : string := "ABCDEFGHIJKLMNOPQRSTUVWXYZ".
Definition numbers : string := "0123456789".
Definition special : string := "!@#$%^&*()_+-=[]{}|;:,.<>?".

Definition pick (chars : string) (draw : nat) : ascii :=
  nth (draw mod String.length chars) (String.list_ascii_of_string chars) " "%char.

Definition generatePassword (length : Z) (random : nat -> nat)
    (shuffle : list ascii -> list ascii) : string :=
  let allChars := lowercase ++ uppercase ++ numbers ++ special in
  let password :=
    [pick lowercase (random 0%nat); pick uppercase (random 1%nat);
     pick numbers (random 2%nat); pick special (random 3%nat)] in
  let rest :=
    (fun i => pick allChars (random (4 + i)%nat))
      <$> seq 0 (Z.to_nat (length - 4)) in
  String.string_of_list_ascii (shuffle (password ++ rest)%list).

End Service.
End Encryption.

(** ** [NoteService] ([services/noteService.ts])

    The service works on the two singletons it imports. *)

Record World := mkWorld {
  databaseService : DirectDatabase.DatabaseService;
  encryptionService : Encryption.EncryptionService;
}.

Definition on_db {A} (m : M DirectDatabase.DatabaseService A) : M World A :=
  fun w =>
  let '(r, s) := m (databaseService w) in
  (r, mkWorld s (encryptionService w)).

Definition on_enc {A} (m : M Encryption.EncryptionService A) : M World A :=
  fun w =>
  let '(r, s) := m (encryptionService w) in
  (r, mkWorld (databaseService w) s).

(** The row of an id, which is also what [getNote] shows for it when its
    store call resolves, and a store that never rejects from here on. *)
Definition stored (w : World) (id : string) : option Note.t :=
  rows (DirectDatabase.db_notes (databaseService w)) !! id.
Definition shown (w : World) (id : string) : option Note.t := stored w id.
Definition works (w : World) : Prop :=
  DirectDatabase.healthy (databaseService w).
(** Whether the next store call resolves. *)
Definition next_store_call (w : World) : bool :=
  (io (DirectDatabase.db_notes (databaseService w))).1.

Module NoteService.
Section Service.
Context `{CryptoJS} `{DOM}.

Definition extractPlainText (html : string) : string :=
  let t := textContent html in
  if truthy t then t
  else let i := innerText html in
       if truthy i then i else "".

Definition createNote (title content : string) (uuid : string) (now : Z)
    : M World Note.t :=
  let note :=
    {| Note.id := uuid;
       Note.title := title;
       Note.content := content;
       Note.plainTextContent := Some (extractPlainText content);
       Note.isPinned := false;
       Note.isEncrypted := false;
       Note.hasBeenEncrypted := false;
       Note.encryptedData := None;
       Note.tags := [];
       Note.createdAt := now;
       Note.updatedAt := now;
       Note.lastAccessedAt := Some now;
       Note.version := None;
       Note.versions := None;
       Note.aiMetadata := None |} in
  let* _ := on_db (DirectDatabase.saveNote note) in
  ret note.

Definition updateNote (id : string) (updates : Partial.t) (now : Z)
    : M World (option Note.t) :=
  let* existingNote := on_db (DirectDatabase.getNote id) in
  match existingNote with
  | None => ret None
  | Some existingNote =>
      let updatedNote :=
        {| Note.id := spread (Note.id existingNote) (Partial.id updates);
           Note.title :=
             spread (Note.title existingNote) (Partial.title updates);
           Note.content :=
             spread (Note.content existingNote) (Partial.content updates);
           Note.plainTextContent :=
             match Partial.content updates with
             | Some c =>
                 if truthy c then Some (extractPlainText c)
                 else Note.plainTextContent existingNote
             | None => Note.plainTextContent existingNote
             end;
           Note.isPinned :=
             spread (Note.isPinned existingNote) (Partial.isPinned updates);
           Note.isEncrypted :=
             spread (Note.isEncrypted existingNote)
                    (Partial.isEncrypted updates);
           Note.hasBeenEncrypted :=
             spread (Note.hasBeenEncrypted existingNote)
                    (Partial.hasBeenEncrypted updates);
           Note.encryptedData :=
             spread_opt (Note.encryptedData existingNote)
                        (Partial.encryptedData updates);
           Note.tags := spread (Note.tags existingNote) (Partial.tags updates);
           Note.createdAt :=
             spread (Note.createdAt existingNote) (Partial.createdAt updates);
           Note.updatedAt := now;
           Note.lastAccessedAt :=
             spread_opt (Note.lastAccessedAt existingNote)
                        (Partial.lastAccessedAt updates);
           Note.version :=
             spread_opt (Note.version existingNote) (Partial.version updates);
           Note.versions :=
             spread_opt (Note.versions existingNote)
                        (Partial.versions updates);
           Note.aiMetadata :=
             spread_opt (Note.aiMetadata existingNote)
                        (Partial.aiMetadata updates) |} in
      let* _ := on_db (DirectDatabase.saveNote updatedNote) in
      ret (Some updatedNote)
  end.

Definition getNote (id : string) (now : Z) : M World (option Note.t) :=
  let* note := on_db (DirectDatabase.getNote id) in
  match note with
  | Some _ =>
      let* _ := updateNote id
                  {| Partial.id := None; Partial.title := None;
                     Partial.content := None;
                     Partial.plainTextContent := None;
                     Partial.isPinned := None; Partial.isEncrypted := None;
                     Partial.hasBeenEncrypted := None;
                     Partial.encryptedData := None; Partial.tags := None;
                     Partial.createdAt := None; Partial.updatedAt := None;
                     Partial.lastAccessedAt := Some now;
                     Partial.version := None; Partial.versions := None;
                     Partial.aiMetadata := None |} now in
      ret note
  | None => ret note
  end.

Definition getAllNotes : M World (list Note.t) :=
  on_db DirectDatabase.getAllNotes.

Definition deleteNote (id : string) : M World unit :=
  on_db (DirectDatabase.deleteNote id).

Definition encryptNote (id password : string) (rnd : Entropy) (now : Z)
    : M World (option Note.t) :=
  let* note := on_db (DirectDatabase.getNote id) in
  match note with
  | None => ret None
  | Some note =>
      let* e := Encryption.encryptNote (Note.content note) (Note.title note)
                  password rnd in
      let encryptedNote :=
        {| Note.id := Note.id note;
           Note.title := Note.title note;
           Note.content := "";
           Note.plainTextContent := Note.plainTextContent note;
           Note.isPinned := Note.isPinned note;
           Note.isEncrypted := true;
           Note.hasBeenEncrypted := true;
           Note.encryptedData :=
             Some (EncryptedData.mk (Encryption.encryptedContent e)
                     (Encryption.encryptedTitle e) (Encryption.salt e));
           Note.tags := Note.tags note;
           Note.createdAt := Note.createdAt note;
           Note.updatedAt := now;
           Note.lastAccessedAt := Note.lastAccessedAt note;
           Note.version := Note.version note;
           Note.versions := Note.versions note;
           Note.aiMetadata := Note.aiMetadata note |} in
      let* _ := on_db (DirectDatabase.saveNote encryptedNote) in
      ret (Some encryptedNote)
  end.

Definition decryptNote (id password : string) : M World (option Note.t) :=
  let* note := on_db (DirectDatabase.getNote id) in
  match note with
  | None => ret None
  | Some note =>
      if negb (Note.isEncrypted note) then ret None
      else
        match Note.encryptedData note with
        | None => ret None
        | Some encryptedData =>
            try_catch
              (let* d := Encryption.decryptNote
                           (EncryptedData.content encryptedData)
                           (EncryptedData.title encryptedData)
                           password
                           (EncryptedData.salt encryptedData) in
               let* _ := on_enc (Encryption.storeSessionPassword id password) in
               ret (Some
                 {| Note.id := Note.id note;
                    Note.title := Encryption.title d;
                    Note.content := Encryption.content d;
                    Note.plainTextContent :=
                      Some (extractPlainText (Encryption.content d));
                    Note.isPinned := Note.isPinned note;
                    Note.isEncrypted := false;
                    Note.hasBeenEncrypted := true;
                    Note.encryptedData := Note.encryptedData note;
                    Note.tags := Note.tags note;
                    Note.createdAt := Note.createdAt note;
                    Note.updatedAt := Note.updatedAt note;
                    Note.lastAccessedAt := Note.lastAccessedAt note;
                    Note.version := Note.version note;
                    Note.versions := Note.versions note;
                    Note.aiMetadata := Note.aiMetadata note |}))
              (fun _ => throw (Error "Invalid password"))
        end
  end.

Definition createVersion (noteId content title : string) (uuid : string)
    (now : Z) : M World (option NoteVersion.t) :=
  let* note := on_db (DirectDatabase.getNote noteId) in
  match note with
  | None => ret None
  | Some note =>
      let versionNumber := Number_add (default 0 (Note.version note)) 1 in
      let version :=
        {| NoteVersion.id := uuid;
           NoteVersion.noteId := noteId;
           NoteVersion.content := content;
           NoteVersion.title := title;
           NoteVersion.timestamp := now;
           NoteVersion.versionNumber := versionNumber |} in
      let updatedNote :=
        {| Note.id := Note.id note;
           Note.title := Note.title note;
           Note.content := Note.content note;
           Note.plainTextContent := Note.plainTextContent note;
           Note.isPinned := Note.isPinned note;
           Note.isEncrypted := Note.isEncrypted note;
           Note.hasBeenEncrypted := Note.hasBeenEncrypted note;
           Note.encryptedData := Note.encryptedData note;
           Note.tags := Note.tags note;
           Note.createdAt := Note.createdAt note;
           Note.updatedAt := Note.updatedAt note;
           Note.lastAccessedAt := Note.lastAccessedAt note;
           Note.version := Some versionNumber;
           Note.versions :=
             Some (default [] (Note.versions note) ++ [version])%list;
           Note.aiMetadata := Note.aiMetadata note |} in
      let* _ := on_db (DirectDatabase.saveNote updatedNote) in
      ret (Some version)
  end.

Definition getNoteVersions (noteId : string) : M World (list NoteVersion.t) :=
  let* note := on_db (DirectDatabase.getNote noteId) in
  ret (default [] (note ≫= Note.versions)).

Definition getVersion (noteId versionId : string)
    : M World (option NoteVersion.t) :=
  let* versions := getNoteVersions noteId in
  ret (find (fun v => bool_decide (NoteVersion.id v = versionId)) versions).

Definition restoreToVersion (noteId versionId : string) (now : Z)
    : M World (option Note.t) :=
  let* version := getVersion noteId versionId in
  match version with
  | None => ret None
  | Some version =>
      let* note := on_db (DirectDatabase.getNote noteId) in
      match note with
      | None => ret None
      | Some note =>
          let restoredNote :=
            {| Note.id := Note.id note;
               Note.title := NoteVersion.title version;
               Note.content := NoteVersion.content version;
               Note.plainTextContent :=
                 Some (extractPlainText (NoteVersion.content version));
               Note.isPinned := Note.isPinned note;
               Note.isEncrypted := Note.isEncrypted note;
               Note.hasBeenEncrypted := Note.hasBeenEncrypted note;
               Note.encryptedData := Note.encryptedData note;
               Note.tags := Note.tags note;
               Note.createdAt := Note.createdAt note;
               Note.updatedAt := now;
               Note.lastAccessedAt := Note.lastAccessedAt note;
               Note.version := Note.version note;
               Note.versions := Note.versions note;
               Note.aiMetadata := Note.aiMetadata note |} in
          let* _ := on_db (DirectDatabase.saveNote restoredNote) in
          ret (Some restoredNote)
      end
  end.

Definition deleteVersion (noteId versionId : string) : M World bool :=
  let* note := on_db (DirectDatabase.getNote noteId) in
  match note with
  | None => ret false
  | Some note =>
      match Note.versions note with
      | None => ret false
      | Some versions =>
          let updatedVersions :=
            filter (fun v => NoteVersion.id v ≠ versionId) versions in
          let updatedNote :=
            {| Note.id := Note.id note;
               Note.title := Note.title note;
               Note.content := Note.content note;
               Note.plainTextContent := Note.plainTextContent note;
               Note.isPinned := Note.isPinned note;
               Note.isEncrypted := Note.isEncrypted note;
               Note.hasBeenEncrypted := Note.hasBeenEncrypted note;
               Note.encryptedData := Note.encryptedData note;
               Note.tags := Note.tags note;
               Note.createdAt := Note.createdAt note;
               Note.updatedAt := Note.updatedAt note;
               Note.lastAccessedAt := Note.lastAccessedAt note;
               Note.version := Note.version note;
               Note.versions := Some updatedVersions;
               Note.aiMetadata := Note.aiMetadata note |} in
          let* _ := on_db (DirectDatabase.saveNote updatedNote) in
          ret true
      end
  end.

Definition clearVersions (noteId : string) : M World bool :=
  let* note := on_db (DirectDatabase.getNote noteId) in
  match note with
  | None => ret false
  | Some note =>
      let updatedNote :=
        {| Note.id := Note.id note;
           Note.title := Note.title note;
           Note.content := Note.content note;
           Note.plainTextContent := Note.plainTextContent note;
           Note.isPinned := Note.isPinned note;
           Note.isEncrypted := Note.isEncrypted note;
           Note.hasBeenEncrypted := Note.hasBeenEncrypted note;
           Note.encryptedData := Note.encryptedData note;
           Note.tags := Note.tags note;
           Note.createdAt := Note.createdAt note;
           Note.updatedAt := Note.updatedAt note;
           Note.lastAccessedAt := Note.lastAccessedAt note;
           Note.version := Some 0;
           Note.versions := Some [];
           Note.aiMetadata := Note.aiMetadata note |} in
      let* _ := on_db (DirectDatabase.saveNote updatedNote) in
      ret true
  end.

Definition updateNoteWithVersion (id : string) (updates : Partial.t)
    (uuid : string) (now : Z) : M World (option Note.t) :=
  let* existingNote := on_db (DirectDatabase.getNote id) in
  match existingNote with
  | None => ret None
  | Some existingNote =>
      let changed (new : option string) (old : string) : bool :=
        match new with
        | Some s => truthy s && negb (bool_decide (s = old))
        | None => false
        end in
      let shouldCreateVersion :=
        changed (Partial.content updates) (Note.content existingNote)
        || changed (Partial.title updates) (Note.title existingNote) in
      let* _ := (if shouldCreateVersion
                 then let* _ := createVersion id (Note.content existingNote)
                                  (Note.title existingNote) uuid now in
                      ret tt
                 else ret tt) in
      updateNote id updates now
  end.

(** A [Partial<Note>] with the one key [isPinned], and one with [tags]. *)
Definition only_isPinned (b : bool) : Partial.t :=
  {| Partial.id := None; Partial.title := None; Partial.content := None;
     Partial.plainTextContent := None; Partial.isPinned := Some b;
     Partial.isEncrypted := None; Partial.hasBeenEncrypted := None;
     Partial.encryptedData := None; Partial.tags := None;
     Partial.createdAt := None; Partial.updatedAt := None;
     Partial.lastAccessedAt := None; Partial.version := None;
     Partial.versions := None; Partial.aiMetadata := None |}.

Definition only_tags (tags : list string) : Partial.t :=
  {| Partial.id := None; Partial.title := None; Partial.content := None;
     Partial.plainTextContent := None; Partial.isPinned := None;
     Partial.isEncrypted := None; Partial.hasBeenEncrypted := None;
     Partial.encryptedData := None; Partial.tags := Some tags;
     Partial.createdAt := None; Partial.updatedAt := None;
     Partial.lastAccessedAt := None; Partial.version := None;
     Partial.versions := None; Partial.aiMetadata := None |}.

Definition togglePin (id : string) (now : Z) : M World (option Note.t) :=
  let* note := on_db (DirectDatabase.getNote id) in
  match note with
  | None => ret None
  | Some note => updateNote id (only_isPinned (negb (Note.isPinned note))) now
  end.

(** [Array.from(new Set(l))]: the elements of [l] in the order of their
    first occurrence. *)
Definition Array_from_Set (l : list string) : list string :=
  foldl (fun seen x => if bool_decide (x ∈ seen) then seen
                       else (seen ++ [x])%list) [] l.

Definition addTag (id tag : string) (now : Z) : M World (option Note.t) :=
  let* note := on_db (DirectDatabase.getNote id) in
  match note with
  | None => ret None
  | Some note =>
      let tags := Array_from_Set (Note.tags note ++ [tag])%list in
      updateNote id (only_tags tags) now
  end.

Definition removeTag (id tag : string) (now : Z) : M World (option Note.t) :=
  let* note := on_db (DirectDatabase.getNote id) in
  match note with
  | None => ret None
  | Some note =>
      let tags := filter (fun t => t ≠ tag) (Note.tags note) in
      updateNote id (only_tags tags) now
  end.

Definition tryDecryptWithSession (id : string) : M World (option Note.t) :=
  let* sessionPassword := on_enc (Encryption.getSessionPassword id) in
  match sessionPassword with
  | None => ret None
  | Some sessionPassword =>
      if negb (truthy sessionPassword) then ret None
      else
        try_catch (decryptNote id sessionPassword)
          (fun _ =>
             let* _ := on_enc (Encryption.clearSessionPassword id) in
             ret None)
  end.

End Service.
End NoteService.

(** ** The auto-save hook ([hooks/useAutoSave.ts])

    The hook's three refs, together with the part of the JS event loop it
    talks to: the table of live timeouts.  Every timeout the hook arms runs
    the same callback, so a live timeout is its handle and its due time.
    [noteService.updateNoteWithVersion] is whatever persists a note in a
    world [W]; [NoteService.updateNoteWithVersion] is the instance in the
    application. *)

(** ** Timers

    [setTimeout] takes its delay as a signed 32-bit integer (in the
    browser's interface the parameter is a [long], and a number given for
    it wraps modulo 2^32); a negative delay counts as 0.  A delay above
    2^31 - 1 ms is therefore not the delay the timeout is armed with. *)
Definition ToInt32 (z : Z) : Z := (z + 2 ^ 31) mod 2 ^ 32 - 2 ^ 31.

Definition timeout_delay (ms : Z) : Z := Z.max 0 (ToInt32 ms).

Definition MAX_TIMEOUT_DELAY : Z := 2 ^ 31 - 1.

Module AutoSave.

Record Options := mkOptions {
  delay : Z;
  maxDelay : Z;
}.

Definition default_options : Options := mkOptions 2000 10000.

Record Refs := mkRefs {
  timeoutRef : option positive;
  lastSaveRef : Z;
  pendingNoteRef : option Note.t;
}.

Record Runtime (W : Type) := mkRuntime {
  refs : Refs;
  timers : list (positive * Z);
  nextHandle : positive;
  saveCalls : list (Z * Note.t);   (* calls of [saveNote], latest first *)
  onSaveCalls : list Note.t;
  onErrorCalls : list error;
  world : W;
}.
Arguments mkRuntime {W}.
Arguments refs {W}.
Arguments timers {W}.
Arguments nextHandle {W}.
Arguments saveCalls {W}.
Arguments onSaveCalls {W}.
Arguments onErrorCalls {W}.
Arguments world {W}.

Definition initial {W} (w : W) : Runtime W :=
  mkRuntime (mkRefs None 0 None) [] 1%positive [] [] [] w.

(** The delay [scheduleSave] computes from the time since the last save. *)
Definition actualDelay (o : Options) (timeSinceLastSave : Z) : Z :=
  Z.min (delay o) (Z.max 100 (maxDelay o - timeSinceLastSave)).

(** The event loop keeps its timeouts by due time, oldest first on a tie. *)
Fixpoint insert_timer (t : positive * Z) (l : list (positive * Z))
    : list (positive * Z) :=
  match l with
  | [] => [t]
  | t' :: l' => if t.2 <? t'.2 then t :: l else t' :: insert_timer t l'
  end.

Section Hook.
Context {W : Type}.
Variable options : Options.
Variable updateNoteWithVersion :
  string -> Partial.t -> Z -> M W (option Note.t).

Definition set_refs (r : Refs) (rt : Runtime W) : Runtime W :=
  mkRuntime r (timers rt) (nextHandle rt) (saveCalls rt) (onSaveCalls rt)
    (onErrorCalls rt) (world rt).

Definition set_timers (l : list (positive * Z)) (rt : Runtime W)
    : Runtime W :=
  mkRuntime (refs rt) l (nextHandle rt) (saveCalls rt) (onSaveCalls rt)
    (onErrorCalls rt) (world rt).

Definition setTimeout (now ms : Z) (rt : Runtime W) : positive * Runtime W :=
  let h := nextHandle rt in
  (h, mkRuntime (refs rt)
        (insert_timer (h, now + timeout_delay ms) (timers rt))
        (Pos.succ h) (saveCalls rt) (onSaveCalls rt) (onErrorCalls rt)
        (world rt)).

Definition clearTimeout (h : positive) (rt : Runtime W) : Runtime W :=
  set_timers (filter (fun t => t.1 ≠ h) (timers rt)) rt.

Definition saveNote (note : Note.t) (now : Z) (rt : Runtime W) : Runtime W :=
  let rt := mkRuntime (refs rt) (timers rt) (nextHandle rt)
              ((now, note) :: saveCalls rt) (onSaveCalls rt)
              (onErrorCalls rt) (world rt) in
  match updateNoteWithVersion (Note.id note) (Partial.of_note note) now
          (world rt) with
  | (Ok (Some savedNote), w) =>
      mkRuntime
        (mkRefs (timeoutRef (refs rt)) now (pendingNoteRef (refs rt)))
        (timers rt) (nextHandle rt) (saveCalls rt)
        (savedNote :: onSaveCalls rt) (onErrorCalls rt) w
  | (Ok None, w) =>
      mkRuntime (refs rt) (timers rt) (nextHandle rt) (saveCalls rt)
        (onSaveCalls rt) (onErrorCalls rt) w
  | (Err e, w) =>
      mkRuntime (refs rt) (timers rt) (nextHandle rt) (saveCalls rt)
        (onSaveCalls rt) (e :: onErrorCalls rt) w
  end.

Definition clear_armed (rt : Runtime W) : Runtime W :=
  match timeoutRef (refs rt) with
  | Some h => clearTimeout h rt
  | None => rt
  end.

Definition scheduleSave (note : Note.t) (now : Z) (rt : Runtime W)
    : Runtime W :=
  let rt := set_refs (mkRefs (timeoutRef (refs rt)) (lastSaveRef (refs rt))
                        (Some note)) rt in
  let rt := clear_armed rt in
  let timeSinceLastSave := now - lastSaveRef (refs rt) in
  let '(h, rt) := setTimeout now (actualDelay options timeSinceLastSave) rt in
  set_refs (mkRefs (Some h) (lastSaveRef (refs rt)) (pendingNoteRef (refs rt)))
    rt.

(** The callback of the timeout, run when it is due. *)
Definition on_timeout (now : Z) (rt : Runtime W) : Runtime W :=
  match pendingNoteRef (refs rt) with
  | Some note =>
      let rt := saveNote note now rt in
      set_refs (mkRefs (timeoutRef (refs rt)) (lastSaveRef (refs rt)) None) rt
  | None => rt
  end.

Definition flushSave (now : Z) (rt : Runtime W) : Runtime W :=
  let rt := clear_armed rt in
  match pendingNoteRef (refs rt) with
  | Some note =>
      let rt := saveNote note now rt in
      set_refs (mkRefs (timeoutRef (refs rt)) (lastSaveRef (refs rt)) None) rt
  | None => rt
  end.

Definition cancelSave (rt : Runtime W) : Runtime W :=
  let rt := clear_armed rt in
  set_refs (mkRefs (timeoutRef (refs rt)) (lastSaveRef (refs rt)) None) rt.

(** The event loop up to time [now]: every timeout that is due leaves the
    table and runs, at its due time, in order. *)
Fixpoint fire_due (now : Z) (due : list (positive * Z)) (rt : Runtime W)
    : Runtime W :=
  match due with
  | [] => rt
  | t :: rest =>
      if t.2 <=? now then fire_due now rest (on_timeout t.2 (set_timers rest rt))
      else rt
  end.

Definition run_timers (now : Z) (rt : Runtime W) : Runtime W :=
  fire_due now (timers rt) rt.

Inductive event :=
  | ScheduleSave (note : Note.t)
  | FlushSave
  | CancelSave.

Definition step (rt : Runtime W) (e : Z * event) : Runtime W :=
  let now := e.1 in
  let rt := run_timers now rt in
  match e.2 with
  | ScheduleSave note => scheduleSave note now rt
  | FlushSave => flushSave now rt
  | CancelSave => cancelSave rt
  end.

Definition run (es : list (Z * event)) (rt : Runtime W) : Runtime W :=
  foldl step rt es.

End Hook.
End AutoSave.

(** ** Searching: [DatabaseService.searchNotes] and [hooks/useSearch.ts]

    [String.prototype.toLowerCase] is an interface; [includes] is the
    substring test on code units. *)

Class JSString := {
  toLowerCase : string -> string;
  toLowerCase_empty : toLowerCase "" = "";
}.

Fixpoint includes (s searchString : string) : bool :=
  String.prefix searchString s
  || match s with
     | EmptyString => false
     | String _ s' => includes s' searchString
     end.

Module Search.
Section Search.
Context `{JSString}.

(** The filter of [searchNotes]; a note without [plainTextContent] does not
    match on content. *)
Definition matches (queryLower : string) (note : Note.t) : bool :=
  includes (toLowerCase (Note.title note)) queryLower
  || match Note.plainTextContent note with
     | Some p => includes (toLowerCase p) queryLower
     | None => false
     end
  || existsb (fun tag => includes (toLowerCase tag) queryLower)
       (Note.tags note).

Definition searchNotes (query : string)
    : M Database.DatabaseService (list Note.t) :=
  let queryLower := toLowerCase query in
  try_catch
    (let* notes := Database.on_table (Table_filter (matches queryLower)) in
     ret (Database.Array_sort Database.compareNotes notes))
    (fun _ => ret []).

(** The memoised [searchResults] of [useSearch], as a function of the notes,
    the debounced query and [minQueryLength]. *)
Definition searchResults (notes : list Note.t) (debouncedQuery : string)
    (minQueryLength : Z) : list Note.t :=
  if negb (truthy debouncedQuery)
     || (Z.of_nat (String.length debouncedQuery) <? minQueryLength)
  then notes
  else
    let searchTerm := toLowerCase debouncedQuery in
    List.filter
      (fun note =>
         if includes (toLowerCase (Note.title note)) searchTerm then true
         else if match Note.plainTextContent note with
                 | Some p => includes (toLowerCase p) searchTerm
                 | None => false
                 end then true
         else if existsb (fun tag => includes (toLowerCase tag) searchTerm)
                   (Note.tags note) then true
         else false)
      notes.

End Search.
End Search.

(** ** [NoteService.autoSaveNote]

    The service keeps one timeout for all notes ([autoSaveTimer]) and the
    pending notes by id ([pendingSaves]).  A live timeout is its handle, its
    due time and the [note.id] its callback closes over; [saves] logs the
    calls of [updateNote] the callbacks make, latest first, and [rejections]
    the errors they end with. *)

Module Debounced.

Record State := mkState {
  autoSaveTimer : option positive;
  pendingSaves : gmap string Note.t;
  timeouts : list (positive * Z * string);
  nextTimeout : positive;
  saves : list (Z * Note.t);
  rejections : list error;
  world : World;
}.

Definition initial (w : World) : State :=
  mkState None ∅ [] 1%positive [] [] w.

Fixpoint insert_timeout (t : positive * Z * string)
    (l : list (positive * Z * string)) : list (positive * Z * string) :=
  match l with
  | [] => [t]
  | t' :: l' =>
      if t.1.2 <? t'.1.2 then t :: l else t' :: insert_timeout t l'
  end.

Section Service.
Context `{CryptoJS} `{DOM}.

Definition autoSaveNote (note : Note.t) (delay : Z) (now : Z) (st : State)
    : State :=
  let pending := <[Note.id note := note]> (pendingSaves st) in
  let live :=
    match autoSaveTimer st with
    | Some h => filter (fun t => t.1.1 ≠ h) (timeouts st)
    | None => timeouts st
    end in
  let h := nextTimeout st in
  mkState (Some h) pending
    (insert_timeout (h, now + timeout_delay delay, Note.id note) live)
    (Pos.succ h) (saves st) (rejections st) (world st).

(** The callback armed by [autoSaveNote note]: it looks up [note.id]. *)
Definition on_timeout (noteId : string) (now : Z) (st : State) : State :=
  match pendingSaves st !! noteId with
  | Some pendingNote =>
      match NoteService.updateNote (Note.id pendingNote)
              (Partial.of_note pendingNote) now (world st) with
      | (Ok _, w) =>
          mkState (autoSaveTimer st) (delete noteId (pendingSaves st))
            (timeouts st) (nextTimeout st)
            ((now, pendingNote) :: saves st) (rejections st) w
      | (Err e, w) =>
          mkState (autoSaveTimer st) (pendingSaves st) (timeouts st)
            (nextTimeout st) ((now, pendingNote) :: saves st)
            (e :: rejections st) w
      end
  | None => st
  end.

Fixpoint fire_due (now : Z) (due : list (positive * Z * string))
    (st : State) : State :=
  match due with
  | [] => st
  | t :: rest =>
      if t.1.2 <=? now
      then fire_due now rest
             (on_timeout t.2 t.1.2
                (mkState (autoSaveTimer st) (pendingSaves st) rest
                   (nextTimeout st) (saves st) (rejections st) (world st)))
      else st
  end.

Definition run_timers (now : Z) (st : State) : State :=
  fire_due now (timeouts st) st.

(** A call of [autoSaveNote] at time [now], the event loop having run up to
    then. *)
Definition call (delay : Z) (st : State) (e : Z * Note.t) : State :=
  autoSaveNote e.2 delay e.1 (run_timers e.1 st).

End Service.
End Debounced.

(** ** Vocabulary of the properties *)

Section CipherVocabulary.
Context `{CryptoJS}.

Definition failed_to_decrypt : error :=
  Error "Failed to decrypt note. Please check your password.".

(** The text crypto-js recovers from a ciphertext under a key, if any. *)
Definition decrypts_to (ciphertext key : string) : option string :=
  AES_decrypt ciphertext key ≫= Utf8_stringify.

(** The text [decryptNote] recovers from a ciphertext under a password and
    a salt: none when crypto-js throws, be it on the password, on the salt
    or on the ciphertext. *)
Definition recovers (ciphertext password salt : string) : option string :=
  if isWellFormed password && isWellFormed salt
  then decrypts_to ciphertext (Encryption.derivedKey password salt)
  else None.

End CipherVocabulary.

(** The versions on record, and the running counter ([note.version || 0]). *)
Definition versions_of (n : Note.t) : list NoteVersion.t :=
  default [] (Note.versions n).
Definition counter_of (n : Note.t) : Z := default 0 (Note.version n).

(** The numbering the specification describes: one more than the largest
    number on record, 0 standing for "none". *)
Definition max_versionNumber (l : list NoteVersion.t) : Z :=
  foldr Z.max 0 (NoteVersion.versionNumber <$> l).

(** No version on record is numbered above the counter. *)
Definition counter_covers (n : Note.t) : Prop :=
  Forall (fun v => NoteVersion.versionNumber v <= counter_of n)
    (versions_of n).

(** Every entry of the first map is an entry of the second. *)
Definition agrees (c r : gmap string Note.t) : Prop :=
  forall id n, c !! id = Some n -> r !! id = Some n.

(** The caches agree with the table: a note in the point cache is the row
    of its key, and a cached list is the sorted content of the table. *)
Definition coherent (s : Database.DatabaseService) : Prop :=
  (forall id n, Database.notesCache s !! id = Some n ->
                rows (Database.db_notes s) !! id = Some n) /\
  (forall l, Database.allNotesCache s = Some l ->
             l = Database.Array_sort Database.compareNotes
                   ((map_to_list (rows (Database.db_notes s))).*2)).

(** The calls a client can make on the service, and the service after a
    call. *)
Inductive db_call :=
  | GetAllNotes (now : Z)
  | GetNote (id : string)
  | SaveNote (note : Note.t)
  | DeleteNote (id : string)
  | BatchSaveNotes (notes : list Note.t)
  | BatchDeleteNotes (ids : list string)
  | ClearCache.

Definition after_call (s : Database.DatabaseService) (c : db_call)
    : Database.DatabaseService :=
  match c with
  | GetAllNotes now => (Database.getAllNotes now s).2
  | GetNote id => (Database.getNote id s).2
  | SaveNote note => (Database.saveNote note s).2
  | DeleteNote id => (Database.deleteNote id s).2
  | BatchSaveNotes notes => (Database.batchSaveNotes notes s).2
  | BatchDeleteNotes ids => (Database.batchDeleteNotes ids s).2
  | ClearCache => Database.clearCache s
  end.

(** The order of the list view: no unpinned note before a pinned one, and
    among notes pinned alike the later update first. *)
Definition display_order (l : list Note.t) : Prop :=
  forall (i j : nat) a b,
    (i < j)%nat -> l !! i = Some a -> l !! j = Some b ->
    (Note.isPinned b = true -> Note.isPinned a = true) /\
    (Note.isPinned a = Note.isPinned b ->
     Note.updatedAt b <= Note.updatedAt a).

(** What the comparator of [getAllNotes] calls "not after". *)
Definition before (a b : Note.t) : Prop := Database.compareNotes a b <= 0.

(** The six criteria of [validatePasswordStrength], counted. *)
Definition criteria_met (password : string) : Z :=
  let length := Z.of_nat (String.length password) in
  Z.b2z (8 <=? length) + Z.b2z (12 <=? length)
  + Z.b2z (Encryption.test Encryption.is_lowercase password)
  + Z.b2z (Encryption.test Encryption.is_uppercase password)
  + Z.b2z (Encryption.test Encryption.is_digit password)
  + Z.b2z (Encryption.test Encryption.is_special password).

(** The note [updateNote] builds from the existing note and the updates:
    [{ ...existingNote, ...updates, updatedAt, plainTextContent }]. *)
Definition merged `{DOM} (existingNote : Note.t) (updates : Partial.t)
    (now : Z) : Note.t :=
  {| Note.id := spread (Note.id existingNote) (Partial.id updates);
     Note.title := spread (Note.title existingNote) (Partial.title updates);
     Note.content :=
       spread (Note.content existingNote) (Partial.content updates);
     Note.plainTextContent :=
       match Partial.content updates with
       | Some c =>
           if truthy c then Some (NoteService.extractPlainText c)
           else Note.plainTextContent existingNote
       | None => Note.plainTextContent existingNote
       end;
     Note.isPinned :=
       spread (Note.isPinned existingNote) (Partial.isPinned updates);
     Note.isEncrypted :=
       spread (Note.isEncrypted existingNote) (Partial.isEncrypted updates);
     Note.hasBeenEncrypted :=
       spread (Note.hasBeenEncrypted existingNote)
              (Partial.hasBeenEncrypted updates);
     Note.encryptedData :=
       spread_opt (Note.encryptedData existingNote)
                  (Partial.encryptedData updates);
     Note.tags := spread (Note.tags existingNote) (Partial.tags updates);
     Note.createdAt :=
       spread (Note.createdAt existingNote) (Partial.createdAt updates);
     Note.updatedAt := now;
     Note.lastAccessedAt :=
       spread_opt (Note.lastAccessedAt existingNote)
                  (Partial.lastAccessedAt updates);
     Note.version :=
       spread_opt (Note.version existingNote) (Partial.version updates);
     Note.versions :=
       spread_opt (Note.versions existingNote) (Partial.versions updates);
     Note.aiMetadata :=
       spread_opt (Note.aiMetadata existingNote)
                  (Partial.aiMetadata updates) |}.

(** The test of [updateNoteWithVersion]: the updates carry a non-empty
    content or title that differs from the stored one. *)
Definition edits_text (note : Note.t) (updates : Partial.t) : bool :=
  match Partial.content updates with
  | Some s => truthy s && negb (bool_decide (s = Note.content note))
  | None => false
  end
  || match Partial.title updates with
     | Some s => truthy s && negb (bool_decide (s = Note.title note))
     | None => false
     end.

(** A service call that answers [a] and leaves every row of the table as
    it was. *)
Definition answers_without_writing {A} (m : M World A) (a : A) (w : World)
    : Prop :=
  (m w).1 = Ok a /\ forall j, stored (m w).2 j = stored w j.

Section HookVocabulary.
Context {W : Type}.
Variable options : AutoSave.Options.

(** At most one timeout is live, and it is the one [timeoutRef] holds. *)
Definition single_timer (rt : AutoSave.Runtime W) : Prop :=
  AutoSave.timers rt = [] \/
  exists h due,
    AutoSave.timers rt = [(h, due)] /\
    AutoSave.timeoutRef (AutoSave.refs rt) = Some h.

(** The time at which a timeout armed at [now] will run. *)
Definition deadline (lastSave now : Z) : Z :=
  now + timeout_delay (AutoSave.actualDelay options (now - lastSave)).

(** A burst of edits, as the events it feeds the hook. *)
Definition edits (l : list (Z * Note.t)) : list (Z * AutoSave.event) :=
  (fun e => (e.1, AutoSave.ScheduleSave e.2)) <$> l.

(** Every edit of the burst arrives before the timeout armed by the edit
    before it is due ([lastSave] does not move while nothing is saved). *)
Fixpoint before_deadline (lastSave t : Z) (later : list (Z * Note.t))
    : Prop :=
  match later with
  | [] => True
  | e :: rest =>
      (t <= e.1 < deadline lastSave t) /\ before_deadline lastSave e.1 rest
  end.

End HookVocabulary.

(** ** Reference implementations of the two library interfaces

    An idealised cipher (the ciphertext is sealed with the passphrase and
    opens to the empty word array under any other passphrase) and a
    tag-stripping [textContent]: they show that the laws assumed of crypto-js
    and of the DOM can be met, and let the service run on concrete notes. *)

Module Reference.

Fixpoint seal (k m : string) : string :=
  match k with
  | EmptyString => String "0"%char m
  | String c k' => String "1"%char (String c (seal k' m))
  end.

Fixpoint unseal (k c : string) : option string :=
  match k, c with
  | EmptyString, String x m =>
      if bool_decide (x = "0"%char) then Some m else None
  | String a k', String x (String b c') =>
      if bool_decide (x = "1"%char) && bool_decide (a = b)
      then unseal k' c' else None
  | _, _ => None
  end.

Fixpoint strip_tags (in_tag : bool) (s : string) : string :=
  match s with
  | EmptyString => EmptyString
  | String c s' =>
      if in_tag
      then strip_tags (negb (bool_decide (c = ">"%char))) s'
      else if bool_decide (c = "<"%char) then strip_tags true s'
           else String c (strip_tags false s')
  end.

(** Surrogates, in a picture of UTF-16 with one byte per code unit: the
    codes D8 to DB stand for the leading ones, DC to DF for the trailing
    ones.  A string is well formed when every leading one is followed by a
    trailing one and no trailing one stands alone. *)
Definition is_lead (c : ascii) : bool :=
  (216 <=? N_of_ascii c)%N && (N_of_ascii c <=? 219)%N.
Definition is_trail (c : ascii) : bool :=
  (220 <=? N_of_ascii c)%N && (N_of_ascii c <=? 223)%N.

Fixpoint wellFormed (s : string) : bool :=
  match s with
  | EmptyString => true
  | String c s' =>
      if is_lead c
      then match s' with
           | String d s'' => is_trail d && wellFormed s''
           | EmptyString => false
           end
      else negb (is_trail c) && wellFormed s'
  end.

#[export, refine] Instance crypto : CryptoJS := {|
  WordArray := string;
  isWellFormed := wellFormed;
  PBKDF2 password salt _ _ := String.list_ascii_of_string (seal password salt);
  AES_encrypt message passphrase _ := seal passphrase message;
  AES_decrypt ciphertext passphrase :=
    Some (default "" (unseal passphrase ciphertext));
  Utf8_stringify w := Some w;
|}.
Proof.
  - intros s. induction s as [|c s IH]; simpl; [done|].
    intros [Hc Hs]%andb_prop. rewrite (IH Hs).
    unfold is_ascii in Hc. apply N.ltb_lt in Hc.
    unfold is_lead, is_trail.
    rewrite (proj2 (N.leb_gt 216 _)) by lia.
    rewrite (proj2 (N.leb_gt 220 _)) by lia. done.
  - intros message passphrase _ _ _. simpl. f_equal.
    induction passphrase as [|c k IH]; simpl; [done|].
    rewrite (bool_decide_eq_true_2 (c = c)); done.
Defined.





#[export] Instance dom : DOM := {|
  textContent := strip_tags false;
  innerText := strip_tags false;
  textContent_empty := eq_refl;
  innerText_empty := eq_refl;
|}.

(** Lowercasing of the letters A to Z, as [toLowerCase]. *)
Definition lower_ascii (c : ascii) : ascii :=
  if Encryption.is_uppercase c then ascii_of_N (N_of_ascii c + 32) else c.

Fixpoint lower (s : string) : string :=
  match s with
  | EmptyString => EmptyString
  | String c s' => String (lower_ascii c) (lower s')
  end.

#[export] Instance jsstring : JSString := {|
  toLowerCase := lower;
  toLowerCase_empty := eq_refl;
|}.

End Reference.

(** ** Concrete runs, on the reference implementations *)

Module Scenario.
Import Reference.

Definition exec {S A} (m : M S A) (s : S) : S := (m s).2.

(** A fresh application: empty table, empty caches, a store that works. *)
Definition fresh : World :=
  mkWorld (DirectDatabase.mkDB (mkTable ∅ [])) (Encryption.mk ∅).

(** One note, created at time 1000. *)
Definition created : World :=
  exec (NoteService.createNote "A" "<p>hello</p>" "n1" 1000) fresh.

(** Three snapshots of it, and the third one deleted again. *)
Definition three_versions : World :=
  exec (NoteService.createVersion "n1" "<p>hello</p>" "A" "v3" 1300)
    (exec (NoteService.createVersion "n1" "<p>hello</p>" "A" "v2" 1200)
       (exec (NoteService.createVersion "n1" "<p>hello</p>" "A" "v1" 1100)
          created)).

Definition third_deleted : World :=
  exec (NoteService.deleteVersion "n1" "v3") three_versions.

(** [{ content }] and [{ title, content }] as [Partial<Note>]. *)
Definition content_update (c : string) : Partial.t :=
  Partial.mk None None (Some c) None None None None None None None None None
    None None None.

(** The note edited once through [updateNoteWithVersion] at time 2000: the
    content before the edit becomes version 1. *)
Definition edited : World :=
  exec (NoteService.updateNoteWithVersion "n1"
          (content_update "<p>hello world</p>") "v1" 2000) created.

(** The content of the created note set to the empty string. *)
Definition emptied : World :=
  exec (NoteService.updateNote "n1" (content_update "") 2000) created.

(** The created note read through the service at time 5000. *)
Definition read_back : World :=
  exec (NoteService.getNote "n1" 5000) created.

(** The created note locked with "Abc123!" at time 3000. *)
Definition entropy : Entropy :=
  mkEntropy ["Z"; "!"]%char "seed-c" "seed-t".

Definition locked : World :=
  exec (NoteService.encryptNote "n1" "Abc123!" entropy 3000) created.

(** A service whose list cache, filled at time 1000, is still empty. *)
Definition stale_list : Database.DatabaseService :=
  Database.mkDB (mkTable ∅ []) ∅ (Some []) 1000.

Definition note_B : Note.t :=
  Note.mk "n2" "B" "<p>b</p>" (Some "b") false false false None [] 1500 1500
    (Some 1500) None None None.

(** The note "n1" as a world shows it. *)
Definition note_of (w : World) : Note.t := default note_B (shown w "n1").

(** [noteService.updateNoteWithVersion] for the auto-save hook, on a world
    that carries the uuids still to be drawn. *)
Definition persist (id : string) (updates : Partial.t) (now : Z)
    : M (World * list string) (option Note.t) := fun s =>
  let '(r, w) :=
    NoteService.updateNoteWithVersion id updates (hd "" s.2) now s.1 in
  (r, (w, tail s.2)).

(** The editor's copy of the created note, with new content. *)
Definition draft (content plain : string) : Note.t :=
  Note.mk "n1" "A" content (Some plain) false false false None [] 1000 1000
    (Some 1000) None None None.

(** Two edits half a second apart, the first one a million milliseconds
    after the epoch, and the hook left alone until 2.5 seconds later. *)
Definition typing : list (Z * AutoSave.event) :=
  [(1000000, AutoSave.ScheduleSave (draft "<p>hello w</p>" "hello w"));
   (1000500, AutoSave.ScheduleSave (draft "<p>hello world</p>" "hello world"))].

(** A burst: the same two edits 50 ms apart. *)
Definition burst : list (Z * Note.t) :=
  [(1000000, draft "<p>hello w</p>" "hello w");
   (1000050, draft "<p>hello world</p>" "hello world")].

Definition after_typing : AutoSave.Runtime (World * list string) :=
  AutoSave.run_timers persist 1003000
    (AutoSave.run AutoSave.default_options persist typing
       (AutoSave.initial (created, ["v1"; "v2"]))).

(** A second note, pinned, and the service after saving both in a batch. *)
Definition note_C : Note.t :=
  Note.mk "n3" "Cats" "<p>c</p>" (Some "c") true false false None ["pets"]
    1200 1200 (Some 1200) None None None.

Definition fresh_db : Database.DatabaseService :=
  Database.mkDB (mkTable ∅ []) ∅ None 0.

Definition two_saved : Database.DatabaseService :=
  exec (Database.batchSaveNotes [note_B; note_C]) fresh_db.

(** The same with a store that rejects every one of the next three calls. *)
Definition two_saved_offline : Database.DatabaseService :=
  Database.mkDB (mkTable (rows (Database.db_notes two_saved))
                   [false; false; false])
    (Database.notesCache two_saved) (Database.allNotesCache two_saved)
    (Database.cacheTimestamp two_saved).

(** The created note with two tags. *)
Definition tagged : World :=
  exec (NoteService.addTag "n1" "work" 1600)
    (exec (NoteService.addTag "n1" "home" 1500) created).

(** The hook with one edit scheduled and its timeout live. *)
Definition armed : AutoSave.Runtime (World * list string) :=
  AutoSave.scheduleSave AutoSave.default_options
    (draft "<p>hello w</p>" "hello w") 1000000
    (AutoSave.initial (created, ["v1"; "v2"])).

(** A world with the two notes "n1" and "n2". *)
Definition two_created : World :=
  exec (NoteService.createNote "B" "<p>b</p>" "n2" 1500) created.

(** A note whose title is a lone leading surrogate. *)
Definition lone_surrogate : string := String (ascii_of_N 216) EmptyString.

Definition odd_title : World :=
  exec (NoteService.createNote lone_surrogate "<p>x</p>" "n4" 1000) fresh.

(** The locked note unlocked once with its password. *)
Definition unlocked_once : World :=
  exec (NoteService.decryptNote "n1" "Abc123!") locked.

End Scenario.

(** * Properties *)

(** ** The store and the cache layer *)

Section DatabaseFacts.
Import Database.

Lemma io_rows t : rows (io t).2 = rows t.
Proof. unfold io. by destruct (outcomes t). Qed.

Lemma sort_insert_perm cmp x l : sort_insert cmp x l ≡ₚ x :: l.
Proof.
  induction l as [|y l IH]; simpl; [done|].
  destruct (0 <? cmp x y); [|done].
  rewrite IH. apply Permutation_swap.
Qed.

Lemma Array_sort_perm cmp l : Array_sort cmp l ≡ₚ l.
Proof.
  induction l as [|x l IH]; simpl; [done|].
  unfold Array_sort in *. simpl. by rewrite sort_insert_perm, IH.
Qed.

Lemma saveNote_inv note s r s' :
  saveNote note s = (r, s') ->
  (r = Ok tt /\ next_call_resolves s /\
   rows (db_notes s') = <[Note.id note := note]> (rows (db_notes s)) /\
   outcomes (db_notes s') = tail (outcomes (db_notes s)) /\
   notesCache s' = <[Note.id note := note]> (notesCache s) /\
   allNotesCache s' = None /\ cacheTimestamp s' = 0)
  \/
  (r = Err DexieError /\ next_call_rejects s /\
   rows (db_notes s') = rows (db_notes s) /\
   outcomes (db_notes s') = tail (outcomes (db_notes s)) /\
   notesCache s' = notesCache s /\
   allNotesCache s' = allNotesCache s /\
   cacheTimestamp s' = cacheTimestamp s).
Proof.
  unfold saveNote, try_catch, bind, on_table, Table_put, io, throw,
    next_call_resolves, next_call_rejects, io.
  destruct s as [[rws outs] cache all ts]; simpl.
  destruct outs as [|[] outs]; simpl; intros [= <- <-]; simpl; auto 10.
Qed.

Lemma getNote_inv id s r s' :
  getNote id s = (r, s') ->
  exists o, r = Ok o /\
    rows (db_notes s') = rows (db_notes s) /\
    allNotesCache s' = allNotesCache s /\
    cacheTimestamp s' = cacheTimestamp s /\
    match notesCache s !! id with
    | Some n => o = Some n /\ s' = s
    | None =>
        outcomes (db_notes s') = tail (outcomes (db_notes s)) /\
        ((next_call_resolves s /\ o = rows (db_notes s) !! id /\
          notesCache s' =
            match o with
            | Some n => <[id := n]> (notesCache s)
            | None => notesCache s
            end)
         \/ (next_call_rejects s /\ o = None /\ notesCache s' = notesCache s))
    end.
Proof.
  unfold getNote, try_catch, bind, on_table, Table_get, io, ret,
    next_call_resolves, next_call_rejects, io.
  destruct s as [[rws outs] cache all ts]; simpl.
  destruct (cache !! id) as [n|] eqn:Hc.
  - intros [= <- <-]. exists (Some n). simpl. done.
  - destruct outs as [|[] outs]; simpl.
    + destruct (rws !! id) as [n|] eqn:Hr; intros [= <- <-]; simpl;
        eexists; split_and!; eauto.
    + destruct (rws !! id) as [n|] eqn:Hr; intros [= <- <-]; simpl;
        eexists; split_and!; eauto.
    + intros [= <- <-]. exists None. simpl. split_and!; eauto.
Qed.

Lemma getNote_healthy id s :
  healthy s ->
  exists s', getNote id s = (Ok (visible s id), s') /\
    healthy s' /\
    rows (db_notes s') = rows (db_notes s) /\
    allNotesCache s' = allNotesCache s /\
    cacheTimestamp s' = cacheTimestamp s /\
    (forall j, visible s' j = visible s j).
Proof.
  unfold healthy, visible, getNote, try_catch, bind, on_table, Table_get,
    io, ret.
  destruct s as [[rws outs] cache all ts]; simpl. intros ->.
  destruct (cache !! id) as [n|] eqn:Hc.
  - eexists. split; [done|]. simpl. split_and!; done.
  - simpl. destruct (rws !! id) as [n|] eqn:Hr; simpl.
    + eexists. split; [done|]. simpl. split_and!; try done.
      intros j. destruct (decide (id = j)) as [<-|Hj].
      * by rewrite lookup_insert_eq, Hc.
      * by rewrite lookup_insert_ne.
    + eexists. split; [done|]. simpl. split_and!; done.
Qed.

Lemma saveNote_healthy note s :
  healthy s ->
  exists s', saveNote note s = (Ok tt, s') /\
    healthy s' /\
    rows (db_notes s') = <[Note.id note := note]> (rows (db_notes s)) /\
    notesCache s' = <[Note.id note := note]> (notesCache s) /\
    allNotesCache s' = None /\ cacheTimestamp s' = 0.
Proof.
  unfold healthy, saveNote, try_catch, bind, on_table, Table_put, io.
  destruct s as [[rws outs] cache all ts]; simpl. intros ->. simpl.
  eexists. split; [done|]. simpl. done.
Qed.

Lemma visible_after_save note s s' j :
  rows (db_notes s') = <[Note.id note := note]> (rows (db_notes s)) ->
  notesCache s' = <[Note.id note := note]> (notesCache s) ->
  visible s' j = if decide (Note.id note = j) then Some note else visible s j.
Proof.
  unfold visible. intros -> ->. case_decide as Hj.
  - subst. by rewrite lookup_insert_eq.
  - by rewrite !lookup_insert_ne.
Qed.

End DatabaseFacts.

Section CacheLayer.
Import Database.

Lemma getAllNotes_reload now s :
  allNotesCache s = None ->
  next_call_resolves s ->
  exists s',
    getAllNotes now s =
      (Ok (Array_sort compareNotes ((map_to_list (rows (db_notes s))).*2)), s')
    /\ allNotesCache s' =
         Some (Array_sort compareNotes ((map_to_list (rows (db_notes s))).*2))
    /\ cacheTimestamp s' = now
    /\ rows (db_notes s') = rows (db_notes s).
Proof.
  unfold getAllNotes, try_catch, bind, on_table, Table_toArray, io,
    next_call_resolves, io.
  destruct s as [[rws outs] cache all ts]; simpl. intros ->.
  destruct outs as [|[] outs]; simpl; intros Hio; try done;
    eexists; split; done.
Qed.

(** Within the TTL the list cache answers without looking at the table:
    this is the staleness that [saveNote] has to rule out. *)
Lemma getAllNotes_cached now s cached :
  allNotesCache s = Some cached ->
  now - cacheTimestamp s < CACHE_TTL ->
  getAllNotes now s = (Ok cached, s).
Proof.
  unfold getAllNotes. intros -> Hlt.
  by rewrite (proj2 (Z.ltb_lt _ _) Hlt).
Qed.

Lemma getAllNotes_never_throws now s :
  exists l, (getAllNotes now s).1 = Ok l.
Proof.
  unfold getAllNotes, try_catch, bind, on_table, Table_toArray, io, ret.
  destruct s as [[rws outs] cache all ts]; simpl.
  destruct all as [c|]; [destruct (now - ts <? CACHE_TTL)|];
    destruct outs as [|[] outs]; simpl; eauto.
Qed.

(** C4. After a successful [saveNote note], [getAllNotes] at any time,
    also within the five minutes in which a list cached earlier would still
    be served, reloads from the table (the store read resolving): the list it
    returns is the sorted content of the table after the write, it contains
    [note], and it becomes the new list cache. *)
Theorem C4_save_then_getAll_reflects_save
    (note : Note.t) (s s' : DatabaseService) (now : Z) :
  saveNote note s = (Ok tt, s') ->
  next_call_resolves s' ->
  exists l s'',
    getAllNotes now s' = (Ok l, s'') /\
    l = Array_sort compareNotes
          ((map_to_list (<[Note.id note := note]> (rows (db_notes s)))).*2) /\
    note ∈ l /\
    (forall n, n ∈ l <->
       exists k, <[Note.id note := note]> (rows (db_notes s)) !! k = Some n) /\
    allNotesCache s'' = Some l /\ cacheTimestamp s'' = now.
Proof.
  intros Hsave Hio.
  destruct (saveNote_inv _ _ _ _ Hsave)
    as [(_ & _ & Hrows & _ & _ & Hall & _)|(? & _)]; [|done].
  destruct (getAllNotes_reload now s' Hall Hio) as (s'' & Hget & Hc & Ht & _).
  rewrite Hrows in Hget, Hc.
  eexists _, s''. split; [exact Hget|]. split; [done|].
  assert (Hmem : forall n,
    n ∈ Array_sort compareNotes
          ((map_to_list (<[Note.id note := note]> (rows (db_notes s)))).*2) <->
    exists k, <[Note.id note := note]> (rows (db_notes s)) !! k = Some n).
  { intros n. rewrite Array_sort_perm, list_elem_of_fmap. split.
    - intros ([k n'] & -> & Hin). exists k. by apply elem_of_map_to_list.
    - intros (k & Hk). exists (k, n). split; [done|].
      by apply elem_of_map_to_list. }
  split_and!; try done.
  apply Hmem. exists (Note.id note). apply lookup_insert_eq.
Qed.

(** C5. Reads degrade, writes surface.  [getNote] never throws, whatever
    the store does, and answers "not found" when the point cache misses and
    the store read rejects; [getAllNotes] never throws and answers the empty
    list when its store read rejects; [saveNote] rethrows the store's error
    when the write rejects, and then leaves table and caches as they were. *)
Theorem C5_read_failures_degrade_write_failures_surface
    (id : string) (note : Note.t) (now : Z) (s : DatabaseService) :
  (exists o, (getNote id s).1 = Ok o) /\
  (notesCache s !! id = None -> next_call_rejects s ->
     (getNote id s).1 = Ok None) /\
  (exists l, (getAllNotes now s).1 = Ok l) /\
  (allNotesCache s = None -> next_call_rejects s ->
     (getAllNotes now s).1 = Ok []) /\
  (next_call_rejects s ->
     (saveNote note s).1 = Err DexieError /\
     rows (db_notes (saveNote note s).2) = rows (db_notes s) /\
     notesCache (saveNote note s).2 = notesCache s /\
     allNotesCache (saveNote note s).2 = allNotesCache s).
Proof.
  split_and!.
  - destruct (getNote id s) as [r s'] eqn:E.
    destruct (getNote_inv _ _ _ _ E) as (o & -> & _). by exists o.
  - intros Hc Hrej. destruct (getNote id s) as [r s'] eqn:E.
    destruct (getNote_inv _ _ _ _ E) as (o & -> & _ & _ & _ & Hcase).
    rewrite Hc in Hcase. destruct Hcase as (_ & [(Hres & _)|(_ & -> & _)]).
    + unfold next_call_resolves, next_call_rejects in *. congruence.
    + done.
  - apply getAllNotes_never_throws.
  - unfold getAllNotes, try_catch, bind, on_table, Table_toArray,
      next_call_rejects, io, ret.
    destruct s as [[rws outs] cache all ts]; simpl. intros ->.
    by destruct outs as [|[] outs].
  - intros Hrej. destruct (saveNote note s) as [r s'] eqn:E.
    destruct (saveNote_inv _ _ _ _ E)
      as [(_ & Hres & _)|(-> & _ & Hr & _ & Hc & Ha & _)]; simpl.
    + unfold next_call_resolves, next_call_rejects in *. congruence.
    + done.
Qed.

End CacheLayer.

(** ** The encryption engine *)

Section EncryptionEngine.
Context `{CryptoJS}.
Import Encryption.

Lemma truthy_true s : truthy s = true <-> s ≠ "".
Proof.
  unfold truthy. case_bool_decide; simpl; split; try done.
Qed.

Lemma is_ascii_Hex_digit n : is_ascii (Hex_digit n) = true.
Proof.
  unfold Hex_digit. generalize (N.to_nat n). intros m.
  do 16 (destruct m as [|m]; [done|]). by destruct m.
Qed.

Lemma isWellFormed_Hex bytes : isWellFormed (Hex_stringify bytes) = true.
Proof.
  apply isWellFormed_ascii. unfold Hex_stringify.
  rewrite String.list_ascii_of_string_of_list_ascii.
  induction bytes as [|b bytes IH]; [done|].
  cbn [flat_map app forallb]. by rewrite !is_ascii_Hex_digit, IH.
Qed.

Lemma decryptNote_eq {S} (encryptedContent encryptedTitle password
    salt : string) (s : S) :
  decryptNote encryptedContent encryptedTitle password salt s =
  match recovers encryptedContent password salt,
        recovers encryptedTitle password salt with
  | Some content, Some title =>
      if truthy content && truthy title
      then (Ok (mkDecrypted content title), s)
      else (Err failed_to_decrypt, s)
  | _, _ => (Err failed_to_decrypt, s)
  end.
Proof.
  unfold decryptNote, recovers, decrypts_to, deriveKey, Utf8_parse,
    try_catch, bind, may_throw, ret, throw.
  destruct (isWellFormed password); simpl; [|done].
  destruct (isWellFormed salt); simpl; [|done].
  destruct (AES_decrypt encryptedContent (derivedKey password salt))
    as [wc|]; simpl;
    destruct (AES_decrypt encryptedTitle (derivedKey password salt))
      as [wt|]; simpl; try done;
    destruct (Utf8_stringify wc) as [c|]; simpl; try done;
    destruct (Utf8_stringify wt) as [t|]; simpl; try done.
  by destruct (truthy c), (truthy t).
Qed.

(** [encryptNote] throws [URIError] when the password, the content or the
    title has a lone surrogate, and returns the envelope otherwise. *)
Lemma encryptNote_eq {S} (content title password : string) (rnd : Entropy)
    (s : S) :
  let salt := Hex_stringify (random_bytes rnd) in
  let key := derivedKey password salt in
  encryptNote content title password rnd s =
  if isWellFormed password && isWellFormed content && isWellFormed title
  then (Ok (mkEncrypted (AES_encrypt content key (seed_content rnd))
              (AES_encrypt title key (seed_title rnd)) salt), s)
  else (Err URIError, s).
Proof.
  unfold encryptNote, encrypt, deriveKey, Utf8_parse, bind, ret, throw.
  cbv zeta. rewrite (isWellFormed_Hex (random_bytes rnd)).
  destruct (isWellFormed password); simpl; [|done].
  unfold derivedKey. rewrite !isWellFormed_Hex.
  destruct (isWellFormed content); simpl; [|done].
  by destruct (isWellFormed title).
Qed.

Lemma recovers_encrypt message password salt seed :
  isWellFormed message = true ->
  isWellFormed password = true ->
  recovers (AES_encrypt message (derivedKey password (Hex_stringify salt))
              seed) password (Hex_stringify salt) = Some message.
Proof.
  intros Hm Hp. unfold recovers, decrypts_to.
  rewrite Hp, isWellFormed_Hex. simpl.
  apply AES_decrypt_encrypt; [done|]. apply isWellFormed_Hex.
Qed.

Lemma isWellFormed_empty : isWellFormed "" = true.
Proof. by apply isWellFormed_ascii. Qed.

(** Whatever the cipher, a note whose content is empty cannot be unlocked
    again, not even with the password that locked it. *)
Lemma lock_unlock_empty_content {S} (title password : string)
    (rnd : Entropy) (s : S) :
  isWellFormed title = true ->
  isWellFormed password = true ->
  exists e,
    encryptNote "" title password rnd s = (Ok e, s) /\
    decryptNote (encryptedContent e) (encryptedTitle e) password (salt e) s
    = (Err failed_to_decrypt, s).
Proof.
  intros Ht Hp. rewrite encryptNote_eq, Hp, Ht, isWellFormed_empty. simpl.
  eexists. split; [done|]. simpl. rewrite decryptNote_eq.
  rewrite !recovers_encrypt by (done || apply isWellFormed_empty). done.
Qed.

Lemma lock_unlock_empty_title {S} (content password : string)
    (rnd : Entropy) (s : S) :
  isWellFormed content = true ->
  isWellFormed password = true ->
  exists e,
    encryptNote content "" password rnd s = (Ok e, s) /\
    decryptNote (encryptedContent e) (encryptedTitle e) password (salt e) s
    = (Err failed_to_decrypt, s).
Proof.
  intros Hc Hp. rewrite encryptNote_eq, Hp, Hc, isWellFormed_empty. simpl.
  eexists. split; [done|]. simpl. rewrite decryptNote_eq.
  rewrite !recovers_encrypt by (done || apply isWellFormed_empty).
  by destruct (truthy content).
Qed.

(** C1, as amended. For every title and content that are not empty and
    every password, all three without a lone surrogate, and whatever salt
    and seeds [encryptNote] draws: [encryptNote] returns, and [decryptNote]
    on the ciphertexts and salt it returned, under the same password,
    returns exactly the original title and content. *)
Theorem C1_lock_then_unlock_roundtrip {S} (title content password : string)
    (rnd : Entropy) (s : S) :
  title ≠ "" ->
  content ≠ "" ->
  isWellFormed title = true ->
  isWellFormed content = true ->
  isWellFormed password = true ->
  exists e,
    encryptNote content title password rnd s = (Ok e, s) /\
    decryptNote (encryptedContent e) (encryptedTitle e) password (salt e) s
    = (Ok (mkDecrypted content title), s).
Proof.
  intros Ht Hc Hwt Hwc Hwp. rewrite encryptNote_eq, Hwp, Hwc, Hwt. simpl.
  eexists. split; [done|]. simpl. rewrite decryptNote_eq.
  rewrite !recovers_encrypt by done.
  apply truthy_true in Ht, Hc. by rewrite Ht, Hc.
Qed.



End EncryptionEngine.

(** ** The note service *)

Lemma get_works id w :
  works w ->
  exists w', on_db (DirectDatabase.getNote id) w = (Ok (shown w id), w') /\
    works w' /\
    (forall j, stored w' j = stored w j) /\
    (forall j, shown w' j = shown w j) /\
    encryptionService w' = encryptionService w.
Proof.
  unfold works, shown, stored, on_db, DirectDatabase.healthy,
    DirectDatabase.getNote, try_catch, bind, DirectDatabase.on_table,
    Table_get, io, ret.
  destruct w as [[[rws outs]] enc]. simpl. intros ->. simpl.
  eexists. split; [done|]. done.
Qed.

Lemma save_works note w :
  works w ->
  exists w', on_db (DirectDatabase.saveNote note) w = (Ok tt, w') /\
    works w' /\
    (forall j, stored w' j =
               if decide (Note.id note = j) then Some note else stored w j) /\
    (forall j, shown w' j =
               if decide (Note.id note = j) then Some note else shown w j) /\
    encryptionService w' = encryptionService w.
Proof.
  unfold works, shown, stored, on_db, DirectDatabase.healthy,
    DirectDatabase.saveNote, try_catch, bind, DirectDatabase.on_table,
    Table_put, io.
  destruct w as [[[rws outs]] enc]. simpl. intros ->. simpl.
  assert (Hrow : forall j, <[Note.id note := note]> rws !! j =
            if decide (Note.id note = j) then Some note else rws !! j).
  { intros j. case_decide as Hj.
    - subst. by rewrite lookup_insert_eq.
    - by rewrite lookup_insert_ne. }
  eexists. split; [done|]. simpl. split_and!; done.
Qed.

(** Stepping through a service method whose store calls all resolve. *)
Ltac step_get :=
  match goal with
  | Hw : works ?w |- context [on_db (DirectDatabase.getNote ?id) ?w] =>
      let w' := fresh "w" in
      let E := fresh "Eget" in
      let Hw' := fresh "Hw" in
      let Hst := fresh "Hst" in
      let Hsh := fresh "Hsh" in
      let He := fresh "Henc" in
      destruct (get_works id w Hw) as (w' & E & Hw' & Hst & Hsh & He);
      rewrite E; clear E; simpl
  end.

Ltac step_save :=
  match goal with
  | Hw : works ?w |- context [on_db (DirectDatabase.saveNote ?n) ?w] =>
      let w' := fresh "w" in
      let E := fresh "Esave" in
      let Hw' := fresh "Hw" in
      let Hst := fresh "Hst" in
      let Hsh := fresh "Hsh" in
      let He := fresh "Henc" in
      destruct (save_works n w Hw) as (w' & E & Hw' & Hst & Hsh & He);
      rewrite E; clear E; simpl
  end.

Section VersionHistory.
Import NoteService.

Lemma Number_add_exact (a b : Z) :
  0 <= a + b <= MAX_SAFE_INTEGER + 1 -> Number_add a b = a + b.
Proof.
  unfold Number_add, Number_round, MAX_SAFE_INTEGER. intros Hr.
  destruct (decide (a + b = 0)) as [->|Hz]; [done|].
  rewrite Z.sgn_pos, Z.abs_eq by lia.
  destruct (decide (a + b = 2 ^ 53)) as [->|Hm]; [by vm_compute|].
  unfold round_magnitude.
  assert (Hlog : Z.log2 (a + b) < 53) by (apply Z.log2_lt_pow2; lia).
  rewrite (proj2 (Z.ltb_lt _ _) Hlog). lia.
Qed.

Lemma createVersion_works noteId content title uuid now w note :
  works w ->
  shown w noteId = Some note ->
  exists note' w',
    createVersion noteId content title uuid now w =
      (Ok (Some (NoteVersion.mk uuid noteId content title now
                   (Number_add (counter_of note) 1))), w') /\
    works w' /\
    shown w' (Note.id note) = Some note' /\
    stored w' (Note.id note) = Some note' /\
    Note.id note' = Note.id note /\
    Note.version note' = Some (Number_add (counter_of note) 1) /\
    Note.versions note' =
      Some (versions_of note ++
              [NoteVersion.mk uuid noteId content title now
                 (Number_add (counter_of note) 1)])%list /\
    Note.title note' = Note.title note /\
    Note.content note' = Note.content note /\
    Note.updatedAt note' = Note.updatedAt note.
Proof.
  intros Hw Hs. unfold createVersion, bind.
  step_get. rewrite Hs. step_save.
  eexists _, _. split; [done|]. split; [done|].
  rewrite Hsh0, Hst0. simpl. rewrite !decide_True by done. done.
Qed.

Lemma deleteVersion_works noteId versionId w note vs :
  works w ->
  shown w noteId = Some note ->
  Note.versions note = Some vs ->
  exists note' w',
    deleteVersion noteId versionId w = (Ok true, w') /\
    works w' /\
    shown w' (Note.id note) = Some note' /\
    stored w' (Note.id note) = Some note' /\
    Note.id note' = Note.id note /\
    Note.version note' = Note.version note /\
    Note.versions note' =
      Some (filter (fun v => NoteVersion.id v ≠ versionId) vs).
Proof.
  intros Hw Hs Hvs. unfold deleteVersion, bind.
  step_get. rewrite Hs, Hvs. step_save.
  eexists _, _. split; [done|]. split; [done|].
  rewrite Hsh0, Hst0. simpl. rewrite !decide_True by done. done.
Qed.

Lemma deleteVersion_none noteId versionId w note :
  works w ->
  shown w noteId = Some note ->
  Note.versions note = None ->
  exists w', deleteVersion noteId versionId w = (Ok false, w') /\
    works w' /\ (forall j, shown w' j = shown w j).
Proof.
  intros Hw Hs Hvs. unfold deleteVersion, bind.
  step_get. rewrite Hs, Hvs. simpl. eauto.
Qed.

End VersionHistory.

Section VersionNumbering.
Import NoteService.

Lemma max_versionNumber_bound (l : list NoteVersion.t) (c : Z) :
  0 <= c ->
  Forall (fun v => NoteVersion.versionNumber v <= c) l ->
  max_versionNumber l <= c.
Proof.
  intros Hc. unfold max_versionNumber.
  induction 1 as [|v l Hv _ IH]; [simpl; lia|].
  rewrite fmap_cons. cbn [foldr]. lia.
Qed.

Lemma Forall_filter_keep {A} (P : A -> Prop) (Q : A -> Prop)
    `{forall x, Decision (Q x)} (l : list A) :
  Forall P l -> Forall P (filter Q l).
Proof.
  induction 1 as [|x l Hx _ IH]; [constructor|].
  rewrite filter_cons. case_decide; [by constructor|done].
Qed.

Lemma max_versionNumber_attained (l : list NoteVersion.t) (c : Z) :
  0 <= c ->
  Forall (fun v => NoteVersion.versionNumber v <= c) l ->
  max_versionNumber l = c <->
  c = 0 \/ Exists (fun v => NoteVersion.versionNumber v = c) l.
Proof.
  intros Hc. unfold max_versionNumber.
  induction 1 as [|v l Hv Hl IH].
  - simpl. split; [intros <-; by left|].
    intros [->|Hex]; [done|]. by apply Exists_nil in Hex.
  - rewrite fmap_cons. cbn [foldr].
    pose proof (max_versionNumber_bound l c Hc Hl) as Hb.
    unfold max_versionNumber in Hb. rewrite Exists_cons. split.
    + intros Hmax.
      destruct (decide (NoteVersion.versionNumber v = c)) as [Hvc|Hvc];
        [right; by left|].
      assert (Hrest : foldr Z.max 0 (NoteVersion.versionNumber <$> l) = c)
        by lia.
      apply IH in Hrest as [->|Hex]; [by left|right; by right].
    + intros [->|[Hvc|Hex]].
      * assert (foldr Z.max 0 (NoteVersion.versionNumber <$> l) = 0)
          by (apply IH; by left).
        lia.
      * lia.
      * assert (foldr Z.max 0 (NoteVersion.versionNumber <$> l) = c)
          by (apply IH; by right).
        lia.
Qed.

(** C2, as amended. The number [createVersion] gives the new version is
    the note's running counter ([version], 0 when absent) plus one, and the
    counter is set to it; the sum is exact for a counter up to
    [Number.MAX_SAFE_INTEGER].  For a note whose counter is not below any
    number on record, the new number is above every number on record, so no
    number is reused, and it is the largest number on record plus one
    exactly when the counter is 0 or a version numbered with the counter is
    still on record.  [deleteVersion] leaves the counter alone: the version
    created after a deletion is again numbered counter plus one, above the
    number of the deleted version too. *)
Theorem C2_createVersion_numbers_from_counter
    (noteId content title uuid : string) (now : Z) (w : World)
    (note : Note.t) :
  works w ->
  shown w noteId = Some note ->
  Note.id note = noteId ->
  0 <= counter_of note <= MAX_SAFE_INTEGER ->
  counter_covers note ->
  (exists note' w',
     createVersion noteId content title uuid now w =
       (Ok (Some (NoteVersion.mk uuid noteId content title now
                    (counter_of note + 1))), w') /\
     shown w' noteId = Some note' /\
     Note.version note' = Some (counter_of note + 1) /\
     Note.versions note' =
       Some (versions_of note ++
               [NoteVersion.mk uuid noteId content title now
                  (counter_of note + 1)])%list /\
     Forall (fun v => NoteVersion.versionNumber v < counter_of note + 1)
       (versions_of note) /\
     max_versionNumber (versions_of note) + 1 <= counter_of note + 1 /\
     (counter_of note + 1 = max_versionNumber (versions_of note) + 1 <->
      counter_of note = 0 \/
      Exists (fun v => NoteVersion.versionNumber v = counter_of note)
        (versions_of note)) /\
     counter_covers note') /\
  (forall versionId vs,
     Note.versions note = Some vs ->
     exists note1 w1 w2,
       deleteVersion noteId versionId w = (Ok true, w1) /\
       shown w1 noteId = Some note1 /\
       Note.versions note1 =
         Some (filter (fun v => NoteVersion.id v ≠ versionId) vs) /\
       counter_of note1 = counter_of note /\
       counter_covers note1 /\
       createVersion noteId content title uuid now w1 =
         (Ok (Some (NoteVersion.mk uuid noteId content title now
                      (counter_of note + 1))), w2) /\
       Forall (fun v => NoteVersion.versionNumber v < counter_of note + 1)
         vs).
Proof.
  intros Hw Hs Hid Hc Hcov. subst noteId.
  assert (Hc0 : 0 <= counter_of note) by lia.
  assert (Hadd : Number_add (counter_of note) 1 = counter_of note + 1)
    by (apply Number_add_exact; lia).
  split.
  - destruct (createVersion_works (Note.id note) content title uuid now w note Hw Hs)
      as (note' & w' & E & _ & Hs' & _ & _ & Hv & Hvs & _).
    rewrite Hadd in E, Hv, Hvs.
    exists note', w'. split_and!; try done.
    + eapply Forall_impl; [exact Hcov|]. intros x Hx. simpl in *. lia.
    + pose proof (max_versionNumber_bound _ _ Hc0 Hcov). lia.
    + rewrite <- (max_versionNumber_attained _ _ Hc0 Hcov). lia.
    + unfold counter_covers, versions_of, counter_of. rewrite Hv, Hvs. simpl.
      apply Forall_app. split.
      * eapply Forall_impl; [exact Hcov|]. intros x Hx. simpl in *. lia.
      * repeat constructor. simpl. lia.
  - intros versionId vs Hvs.
    destruct (deleteVersion_works (Note.id note) versionId w note vs
                Hw Hs Hvs)
      as (note1 & w1 & E1 & Hw1 & Hs1 & _ & Hid1 & Hv1 & Hvs1).
    destruct (createVersion_works (Note.id note) content title uuid now w1
                note1
                Hw1 Hs1) as (note2 & w2 & E2 & _).
    assert (Hcnt : counter_of note1 = counter_of note).
    { unfold counter_of. by rewrite Hv1. }
    exists note1, w1, w2. rewrite Hcnt, Hadd in E2. split_and!; try done.
    + unfold counter_covers, versions_of. rewrite Hvs1, Hcnt. simpl.
      apply Forall_filter_keep.
      unfold counter_covers, versions_of in Hcov. by rewrite Hvs in Hcov.
    + unfold counter_covers, versions_of in Hcov. rewrite Hvs in Hcov.
      eapply Forall_impl; [exact Hcov|]. intros x Hx. simpl in *. lia.
Qed.

(** C2 fails as stated: after three snapshots and the deletion of the
    third, the versions on record are numbered 1 and 2, and the next
    snapshot is numbered 4, not 3. *)
Lemma C2_counterexample_number_after_deleting_latest :
  exists note v,
    shown Scenario.third_deleted "n1" = Some note /\
    (NoteVersion.versionNumber <$> versions_of note) = [1; 2] /\
    (createVersion "n1" "<p>hello</p>" "A" "v4" 1400
       Scenario.third_deleted).1 = Ok (Some v) /\
    NoteVersion.versionNumber v = 4 /\
    max_versionNumber (versions_of note) + 1 = 3 /\
    NoteVersion.versionNumber v ≠ max_versionNumber (versions_of note) + 1.
Proof.
  eexists _, _. split; [vm_compute; reflexivity|].
  split; [reflexivity|]. split; [vm_compute; reflexivity|].
  split; [reflexivity|]. split; [reflexivity|]. done.
Qed.

End VersionNumbering.

Section NoteOperations.
Context `{CryptoJS} `{DOM}.
Import NoteService.

Lemma updateNote_works id updates now w note :
  works w ->
  shown w id = Some note ->
  exists note' w',
    updateNote id updates now w = (Ok (Some note'), w') /\
    works w' /\
    stored w' (Note.id note') = Some note' /\
    shown w' (Note.id note') = Some note' /\
    Note.id note' = spread (Note.id note) (Partial.id updates) /\
    Note.title note' = spread (Note.title note) (Partial.title updates) /\
    Note.content note' = spread (Note.content note) (Partial.content updates) /\
    Note.plainTextContent note' =
      match Partial.content updates with
      | Some c => if truthy c then Some (extractPlainText c)
                  else Note.plainTextContent note
      | None => Note.plainTextContent note
      end /\
    Note.updatedAt note' = now /\
    Note.lastAccessedAt note' =
      spread_opt (Note.lastAccessedAt note) (Partial.lastAccessedAt updates) /\
    Note.version note' =
      spread_opt (Note.version note) (Partial.version updates) /\
    Note.versions note' =
      spread_opt (Note.versions note) (Partial.versions updates).
Proof.
  intros Hw Hs. unfold updateNote, bind.
  step_get. rewrite Hs. step_save.
  eexists _, _. split; [done|]. split; [done|].
  rewrite Hsh0, Hst0. simpl. rewrite !decide_True by done. done.
Qed.

(** A created note has no versions and the counter at 0, and its plain text
    is that of its content. *)
Lemma createNote_works title content uuid now w :
  works w ->
  exists w',
    createNote title content uuid now w =
      (Ok (Note.mk uuid title content (Some (extractPlainText content))
             false false false None [] now now (Some now) None None None),
       w') /\
    works w' /\
    shown w' uuid =
      Some (Note.mk uuid title content (Some (extractPlainText content))
              false false false None [] now now (Some now) None None None) /\
    counter_of (Note.mk uuid title content (Some (extractPlainText content))
                  false false false None [] now now (Some now) None None
                  None) = 0 /\
    counter_covers
      (Note.mk uuid title content (Some (extractPlainText content))
         false false false None [] now now (Some now) None None None).
Proof.
  intros Hw. unfold createNote, bind. step_save.
  eexists. split; [done|]. split; [done|].
  rewrite Hsh. simpl. rewrite decide_True by done.
  split_and!; try done. constructor.
Qed.

(** Reading a note through the service rewrites it: the stored note gets
    the time of the read as [lastAccessedAt] and also as [updatedAt]; the
    caller is handed the note as it was before. *)
Lemma getNote_rewrites_note id now w note :
  works w ->
  shown w id = Some note ->
  exists note' w',
    getNote id now w = (Ok (Some note), w') /\
    stored w' (Note.id note) = Some note' /\
    shown w' (Note.id note) = Some note' /\
    Note.lastAccessedAt note' = Some now /\
    Note.updatedAt note' = now /\
    Note.title note' = Note.title note /\
    Note.content note' = Note.content note /\
    Note.plainTextContent note' = Note.plainTextContent note.
Proof.
  intros Hw Hs. unfold getNote. unfold bind at 1.
  step_get. rewrite Hs. unfold bind at 1.
  rewrite <- Hsh in Hs.
  destruct (updateNote_works id
              (Partial.mk None None None None None None None None None None
                 None (Some now) None None None) now w0 note Hw0 Hs)
    as (note' & w' & E & _ & Hst' & Hsh' & Hid & Ht & Hc & Hp & Hu & Hl & _).
  rewrite E. simpl in *. rewrite Hid in Hst', Hsh'.
  eexists _, _. split; [done|]. split_and!; done.
Qed.

(** [encryptNote] blanks [content] and carries [plainTextContent] over. *)
Lemma encryptNote_works id password rnd now w note :
  works w ->
  shown w id = Some note ->
  isWellFormed password = true ->
  isWellFormed (Note.content note) = true ->
  isWellFormed (Note.title note) = true ->
  exists note' w',
    encryptNote id password rnd now w = (Ok (Some note'), w') /\
    works w' /\
    stored w' (Note.id note) = Some note' /\
    shown w' (Note.id note) = Some note' /\
    Note.id note' = Note.id note /\
    Note.content note' = "" /\
    Note.title note' = Note.title note /\
    Note.plainTextContent note' = Note.plainTextContent note /\
    Note.isEncrypted note' = true /\
    Note.hasBeenEncrypted note' = true /\
    Note.updatedAt note' = now /\
    Note.encryptedData note' =
      (let salt := Hex_stringify (random_bytes rnd) in
       let key := Encryption.derivedKey password salt in
       Some (EncryptedData.mk
               (AES_encrypt (Note.content note) key (seed_content rnd))
               (AES_encrypt (Note.title note) key (seed_title rnd)) salt)).
Proof.
  intros Hw Hs Hwp Hwc Hwt. unfold encryptNote. unfold bind at 1.
  step_get. rewrite Hs. unfold bind at 1.
  rewrite encryptNote_eq, Hwp, Hwc, Hwt. simpl. unfold bind.
  step_save.
  eexists _, _. split; [done|]. split; [done|].
  rewrite Hsh0, Hst0. simpl. rewrite !decide_True by done. done.
Qed.

Lemma restoreToVersion_works noteId versionId now w note version :
  works w ->
  shown w noteId = Some note ->
  find (fun v => bool_decide (NoteVersion.id v = versionId))
    (versions_of note) = Some version ->
  exists restored w',
    restoreToVersion noteId versionId now w = (Ok (Some restored), w') /\
    works w' /\
    stored w' (Note.id note) = Some restored /\
    shown w' (Note.id note) = Some restored /\
    restored =
      Note.mk (Note.id note) (NoteVersion.title version)
        (NoteVersion.content version)
        (Some (extractPlainText (NoteVersion.content version)))
        (Note.isPinned note) (Note.isEncrypted note)
        (Note.hasBeenEncrypted note) (Note.encryptedData note)
        (Note.tags note) (Note.createdAt note) now
        (Note.lastAccessedAt note) (Note.version note) (Note.versions note)
        (Note.aiMetadata note).
Proof.
  intros Hw Hs Hfind.
  unfold restoreToVersion, getVersion, getNoteVersions, bind.
  step_get. rewrite Hs. simpl. unfold versions_of in Hfind. rewrite Hfind.
  step_get. rewrite Hsh, Hs. step_save.
  eexists _, _. split; [done|]. split; [done|].
  rewrite Hsh1, Hst1. simpl. rewrite !decide_True by done. done.
Qed.

(** C8. For a note that [getNote] shows for [noteId] and the version that
    [versionId] names in its list, [restoreToVersion] (the store working)
    returns and stores the note with the version's title and content,
    [plainTextContent] recomputed from that content and [updatedAt] set to
    the time of the call; [versions] and the [version] counter, like every
    other field, are those of the note before: no version is created. *)
Theorem C8_restoreToVersion_copies_snapshot_only
    (noteId versionId : string) (now : Z) (w : World) (note : Note.t)
    (version : NoteVersion.t) :
  works w ->
  shown w noteId = Some note ->
  Note.id note = noteId ->
  find (fun v => bool_decide (NoteVersion.id v = versionId))
    (versions_of note) = Some version ->
  exists restored w',
    restoreToVersion noteId versionId now w = (Ok (Some restored), w') /\
    shown w' noteId = Some restored /\
    stored w' noteId = Some restored /\
    Note.title restored = NoteVersion.title version /\
    Note.content restored = NoteVersion.content version /\
    Note.plainTextContent restored =
      Some (extractPlainText (Note.content restored)) /\
    Note.updatedAt restored = now /\
    Note.versions restored = Note.versions note /\
    Note.version restored = Note.version note /\
    versions_of restored = versions_of note /\
    counter_of restored = counter_of note /\
    Note.id restored = Note.id note /\
    Note.isPinned restored = Note.isPinned note /\
    Note.isEncrypted restored = Note.isEncrypted note /\
    Note.hasBeenEncrypted restored = Note.hasBeenEncrypted note /\
    Note.encryptedData restored = Note.encryptedData note /\
    Note.tags restored = Note.tags note /\
    Note.createdAt restored = Note.createdAt note /\
    Note.lastAccessedAt restored = Note.lastAccessedAt note /\
    Note.aiMetadata restored = Note.aiMetadata note.
Proof.
  intros Hw Hs Hid Hfind. subst noteId.
  destruct (restoreToVersion_works (Note.id note) versionId now w note
              version Hw Hs Hfind) as (restored & w' & E & _ & Hst & Hsh & ->).
  eexists _, w'. split; [exact E|]. split_and!; done.
Qed.

End NoteOperations.

Section Unlock.
Context `{CryptoJS} `{DOM}.
Import NoteService.

Lemma get_frame id w :
  exists o w',
    on_db (DirectDatabase.getNote id) w = (Ok o, w') /\
    (forall j, stored w' j = stored w j) /\
    encryptionService w' = encryptionService w /\
    (forall n, o = Some n -> stored w id = Some n).
Proof.
  unfold on_db, stored, DirectDatabase.getNote, try_catch, bind,
    DirectDatabase.on_table, Table_get, io, ret.
  destruct w as [[[rws outs]] enc]. simpl.
  destruct outs as [|[] outs]; simpl; eexists _, _; (split; [done|]);
    simpl; split_and!; done.
Qed.

(** C10. [decryptNote] never writes to the table: whatever the store does
    and whatever the outcome, every row is as before.  When it succeeds, the
    note it read was encrypted and the copy it returns has
    [isEncrypted = false], the title and content that crypto-js recovers
    from the envelope, and the plain text of that content; the row of the
    note still has [isEncrypted = true] and the same envelope. *)
Theorem C10_decryptNote_leaves_store_untouched
    (id password : string) (w : World) :
  let r := (decryptNote id password w).1 in
  let w' := (decryptNote id password w).2 in
  (forall j, stored w' j = stored w j) /\
  (forall copy, r = Ok (Some copy) ->
     exists note envelope,
       stored w id = Some note /\
       Note.isEncrypted note = true /\
       Note.encryptedData note = Some envelope /\
       recovers (EncryptedData.content envelope) password
         (EncryptedData.salt envelope) = Some (Note.content copy) /\
       recovers (EncryptedData.title envelope) password
         (EncryptedData.salt envelope) = Some (Note.title copy) /\
       Note.isEncrypted copy = false /\
       Note.hasBeenEncrypted copy = true /\
       Note.plainTextContent copy =
         Some (extractPlainText (Note.content copy)) /\
       Note.encryptedData copy = Some envelope /\
       stored w' id = Some note /\
       (stored w' id ≫= Note.encryptedData) = Some envelope /\
       (Note.isEncrypted <$> stored w' id) = Some true).
Proof.
  simpl. destruct (decryptNote id password w) as [r w'] eqn:Hrun. simpl.
  revert Hrun. unfold decryptNote. unfold bind at 1.
  destruct (get_frame id w) as (o & w1 & E & Hst & Henc & Ho). rewrite E.
  destruct o as [note|]; simpl;
    [|intros [= <- <-]; split; [done|by intros ? [=]]].
  destruct (Note.isEncrypted note) eqn:Hie; simpl;
    [|intros [= <- <-]; split; [done|by intros ? [=]]].
  destruct (Note.encryptedData note) as [envelope|] eqn:Hed; simpl;
    [|intros [= <- <-]; split; [done|by intros ? [=]]].
  unfold try_catch. unfold bind at 1. rewrite decryptNote_eq.
  destruct (recovers (EncryptedData.content envelope) password
              (EncryptedData.salt envelope))
    as [c|] eqn:Hc; simpl;
    [|intros [= <- <-]; split; [done|by intros ? [=]]].
  destruct (recovers (EncryptedData.title envelope) password
              (EncryptedData.salt envelope))
    as [t|] eqn:Ht; simpl;
    [|intros [= <- <-]; split; [done|by intros ? [=]]].
  destruct (truthy c && truthy t); simpl;
    [|intros [= <- <-]; split; [done|by intros ? [=]]].
  intros [= <- <-]. split; [done|]. intros copy [= <-]. simpl.
  pose proof (Ho note eq_refl) as Hrow.
  exists note, envelope. unfold stored in *. simpl. rewrite Hst, Hrow.
  simpl. rewrite Hed, Hie. split_and!; done.
Qed.

(** The outcomes of [NoteService.decryptNote]: "not applicable" ([null]),
    a copy whose title and content are both non-empty, or "Invalid
    password". *)
Lemma decryptNote_outcomes (id password : string) (w : World) :
  (decryptNote id password w).1 = Ok None
  \/ (exists copy,
        (decryptNote id password w).1 = Ok (Some copy) /\
        Note.title copy ≠ "" /\ Note.content copy ≠ "")
  \/ (decryptNote id password w).1 = Err (Error "Invalid password").
Proof.
  destruct (decryptNote id password w) as [r w'] eqn:Hrun. simpl.
  revert Hrun. unfold decryptNote. unfold bind at 1.
  destruct (get_frame id w) as (o & w1 & E & _). rewrite E.
  destruct o as [note|]; simpl; [|intros [= <- <-]; by left].
  destruct (Note.isEncrypted note); simpl; [|intros [= <- <-]; by left].
  destruct (Note.encryptedData note) as [envelope|]; simpl;
    [|intros [= <- <-]; by left].
  unfold try_catch. unfold bind at 1. rewrite decryptNote_eq.
  destruct (recovers (EncryptedData.content envelope) password
              (EncryptedData.salt envelope))
    as [c|]; simpl; [|intros [= <- <-]; by right; right].
  destruct (recovers (EncryptedData.title envelope) password
              (EncryptedData.salt envelope))
    as [t|]; simpl; [|intros [= <- <-]; by right; right].
  destruct (truthy c) eqn:Hc; simpl; [|intros [= <- <-]; by right; right].
  destruct (truthy t) eqn:Ht; simpl; [|intros [= <- <-]; by right; right].
  intros [= <- <-]. right; left. eexists. split; [done|]. simpl.
  split; by apply truthy_true.
Qed.

End Unlock.

(** ** The auto-save hook *)

Section WriteCoordinator.
Import AutoSave.
Context {W : Type}.
Variable options : Options.
Variable persist : string -> Partial.t -> Z -> M W (option Note.t).

Local Abbreviation schedule := (scheduleSave (W:=W) options).
Local Abbreviation timeout := (on_timeout persist).
Local Abbreviation elapse := (run_timers persist).
Local Abbreviation play := (run options persist).

Lemma timeout_delay_exact (ms : Z) :
  0 <= ms <= MAX_TIMEOUT_DELAY -> timeout_delay ms = ms.
Proof.
  unfold timeout_delay, ToInt32, MAX_TIMEOUT_DELAY. intros Hms.
  rewrite Z.mod_small by lia. lia.
Qed.

Lemma actualDelay_range (o : Options) (timeSinceLastSave : Z) :
  100 <= delay o <= maxDelay o ->
  100 <= actualDelay o timeSinceLastSave <= delay o.
Proof. unfold actualDelay. lia. Qed.

Lemma saveNote_frame note now (rt : Runtime W) :
  timers (saveNote persist note now rt) = timers rt /\
  timeoutRef (refs (saveNote persist note now rt)) = timeoutRef (refs rt) /\
  pendingNoteRef (refs (saveNote persist note now rt))
    = pendingNoteRef (refs rt) /\
  nextHandle (saveNote persist note now rt) = nextHandle rt /\
  saveCalls (saveNote persist note now rt) = (now, note) :: saveCalls rt.
Proof.
  unfold saveNote. simpl.
  by destruct (persist _ _ _ _) as [[[?|]|?] ?].
Qed.

Lemma timeout_frame now (rt : Runtime W) :
  timers (timeout now rt) = timers rt /\
  timeoutRef (refs (timeout now rt)) = timeoutRef (refs rt) /\
  pendingNoteRef (refs (timeout now rt)) = None /\
  saveCalls (timeout now rt) =
    match pendingNoteRef (refs rt) with
    | Some note => (now, note) :: saveCalls rt
    | None => saveCalls rt
    end.
Proof.
  unfold on_timeout. destruct (pendingNoteRef (refs rt)) as [note|] eqn:Hp.
  - destruct (saveNote_frame note now rt) as (Ht & Hr & _ & _ & Hs).
    simpl. by rewrite Ht, Hr, Hs.
  - by rewrite Hp.
Qed.

Lemma clear_armed_single (rt : Runtime W) :
  single_timer rt ->
  timers (clear_armed rt) = [] /\
  refs (clear_armed rt) = refs rt /\
  nextHandle (clear_armed rt) = nextHandle rt /\
  saveCalls (clear_armed rt) = saveCalls rt /\
  world (clear_armed rt) = world rt.
Proof.
  unfold clear_armed, clearTimeout, set_timers.
  intros [Ht|(h & due & Ht & Hr)].
  - destruct (timeoutRef (refs rt)); simpl; by rewrite ?Ht.
  - rewrite Hr, Ht. simpl. rewrite filter_cons. simpl.
    rewrite decide_False by (by intros ?). by rewrite filter_nil.
Qed.

Lemma scheduleSave_single note now (rt : Runtime W) :
  single_timer rt ->
  timers (schedule note now rt) =
    [(nextHandle rt, deadline options (lastSaveRef (refs rt)) now)] /\
  refs (schedule note now rt) =
    mkRefs (Some (nextHandle rt)) (lastSaveRef (refs rt)) (Some note) /\
  saveCalls (schedule note now rt) = saveCalls rt /\
  world (schedule note now rt) = world rt.
Proof.
  intros Hs. unfold scheduleSave.
  assert (Hs' : single_timer
    (set_refs (mkRefs (timeoutRef (refs rt)) (lastSaveRef (refs rt))
                 (Some note)) rt)) by exact Hs.
  destruct (clear_armed_single _ Hs') as (Ht & Hr & Hn & Hc & Hw).
  unfold setTimeout. simpl. rewrite Ht, Hr, Hn, Hc, Hw. simpl. done.
Qed.

Lemma elapse_single now (rt : Runtime W) :
  single_timer rt -> single_timer (elapse now rt).
Proof.
  unfold run_timers. intros [Ht|(h & due & Ht & Hr)].
  - rewrite Ht. simpl. by left.
  - rewrite Ht. simpl. destruct (due <=? now).
    + left. by destruct (timeout_frame due (set_timers [] rt)) as (-> & _).
    + right. eauto.
Qed.

Lemma step_single (rt : Runtime W) e :
  single_timer rt -> single_timer (step options persist rt e).
Proof.
  intros Hs. unfold step.
  pose proof (elapse_single e.1 rt Hs) as Hs'.
  destruct e.2 as [note| |].
  - destruct (scheduleSave_single note e.1 _ Hs') as (Ht & Hr & _).
    right. eexists _, _. split; [exact Ht|]. by rewrite Hr.
  - left. unfold flushSave.
    destruct (clear_armed_single _ Hs') as (Ht & _).
    destruct (pendingNoteRef (refs (clear_armed (elapse e.1 rt))))
      as [n|]; [|done].
    simpl. by destruct (saveNote_frame n e.1
                          (clear_armed (elapse e.1 rt))) as (-> & _).
  - left. unfold cancelSave. simpl.
    by destruct (clear_armed_single _ Hs') as (-> & _).
Qed.

Lemma run_single es (rt : Runtime W) :
  single_timer rt -> single_timer (play es rt).
Proof.
  revert rt. induction es as [|e es IH]; intros rt Hs; [done|].
  simpl. apply IH. by apply step_single.
Qed.

Lemma last_cons {A} (a d : A) (l : list A) :
  List.last (a :: l) d = List.last l a.
Proof.
  revert a d. induction l as [|b l IH]; intros a d; [done|].
  change (List.last (b :: l) d = List.last (b :: l) a).
  by rewrite !IH.
Qed.

Lemma elapse_not_due now (rt : Runtime W) h due :
  timers rt = [(h, due)] -> now < due -> elapse now rt = rt.
Proof.
  unfold run_timers. intros -> Hlt. simpl.
  by rewrite (proj2 (Z.leb_gt _ _) Hlt).
Qed.

Lemma elapse_due now (rt : Runtime W) h due note :
  timers rt = [(h, due)] ->
  pendingNoteRef (refs rt) = Some note ->
  due <= now ->
  saveCalls (elapse now rt) = (due, note) :: saveCalls rt /\
  timers (elapse now rt) = [] /\
  pendingNoteRef (refs (elapse now rt)) = None.
Proof.
  unfold run_timers. intros -> Hp Hle. simpl.
  rewrite (proj2 (Z.leb_le _ _) Hle).
  destruct (timeout_frame due (set_timers [] rt)) as (Ht & _ & Hn & Hs).
  simpl in *. rewrite Hp in Hs. done.
Qed.

Lemma burst_armed later : forall t note (rt : Runtime W) h lastSave,
  timers rt = [(h, deadline options lastSave t)] ->
  refs rt = mkRefs (Some h) lastSave (Some note) ->
  before_deadline options lastSave t later ->
  exists h',
    timers (play (edits later) rt) =
      [(h', deadline options lastSave (List.last later (t, note)).1)] /\
    refs (play (edits later) rt) =
      mkRefs (Some h') lastSave (Some (List.last later (t, note)).2) /\
    saveCalls (play (edits later) rt) = saveCalls rt /\
    world (play (edits later) rt) = world rt.
Proof.
  induction later as [|[t' note'] later IH];
    intros t note rt h lastSave Ht Hr Hb.
  - simpl. eauto.
  - destruct Hb as [[_ Hlt] Hb]. simpl in Hlt, Hb.
    rewrite last_cons. simpl.
    assert (Hstep : step options persist rt (t', ScheduleSave note')
                    = schedule note' t' rt).
    { unfold step. simpl. by rewrite (elapse_not_due t' rt h _ Ht Hlt). }
    rewrite Hstep.
    assert (Hs : single_timer rt).
    { right. exists h, (deadline options lastSave t). by rewrite Ht, Hr. }
    destruct (scheduleSave_single note' t' rt Hs) as (Ht' & Hr' & Hc & Hw).
    rewrite Hr in Ht', Hr'. cbn [lastSaveRef] in Ht', Hr'.
    destruct (IH t' note' _ _ lastSave Ht' Hr' Hb)
      as (h' & Ht'' & Hr'' & Hc'' & Hw'').
    exists h'. by rewrite Ht'', Hr'', Hc'', Hw'', Hc, Hw.
Qed.

(** C7, as amended. With [100 <= delay <= maxDelay] (the defaults are
    2000 and 10000) and [delay] a delay that [setTimeout] takes as it is (at
    most 2^31 - 1 ms), the delay computed for any time since the last save
    lies between 100 and [delay], hence in [[100, maxDelay]], and the
    timeout armed with it is due that delay after the edit.
    [scheduleSave] clears the timeout it armed before, so however the hook
    is driven at most one timeout is live.  A burst of edits each of which
    arrives before the timeout armed by the one before it is due, starting
    with no timeout live, makes no save while it lasts and leaves one
    timeout; that timeout saves the note of the last edit, once, at its
    deadline, and nothing runs before. *)
Theorem C7_delay_range_and_one_save_per_burst :
  100 <= delay options <= maxDelay options ->
  delay options <= MAX_TIMEOUT_DELAY ->
  (forall timeSinceLastSave,
     100 <= actualDelay options timeSinceLastSave <= maxDelay options /\
     actualDelay options timeSinceLastSave <= delay options) /\
  (forall lastSave now,
     deadline options lastSave now
     = now + actualDelay options (now - lastSave)) /\
  (forall es w, single_timer (play es (initial w))) /\
  (forall (rt : Runtime W) t1 note1 later,
     timers rt = [] ->
     before_deadline options (lastSaveRef (refs rt)) t1 later ->
     let rt' := play (edits ((t1, note1) :: later)) rt in
     let last_edit := List.last later (t1, note1) in
     let due := deadline options (lastSaveRef (refs rt)) last_edit.1 in
     saveCalls rt' = saveCalls rt /\
     (exists h, timers rt' = [(h, due)]) /\
     (forall now, now < due -> elapse now rt' = rt') /\
     (forall now, due <= now ->
        saveCalls (elapse now rt') = (due, last_edit.2) :: saveCalls rt /\
        timers (elapse now rt') = [])).
Proof.
  intros Hopt Hmax. split_and!.
  - intros t. pose proof (actualDelay_range options t Hopt). lia.
  - intros lastSave now. unfold deadline. f_equal.
    pose proof (actualDelay_range options (now - lastSave) Hopt).
    apply timeout_delay_exact. unfold MAX_TIMEOUT_DELAY in *. lia.
  - intros es w. apply run_single. by left.
  - intros rt t1 note1 later Ht Hb. simpl.
    assert (Hstep : step options persist rt (t1, ScheduleSave note1)
                    = schedule note1 t1 rt).
    { unfold step, run_timers. simpl. by rewrite Ht. }
    rewrite Hstep.
    assert (Hs : single_timer rt) by (by left).
    destruct (scheduleSave_single note1 t1 rt Hs) as (Ht' & Hr' & Hc & Hw).
    destruct (burst_armed later t1 note1 _ _ _ Ht' Hr' Hb)
      as (h' & Ht'' & Hr'' & Hc'' & _).
    split_and!.
    + by rewrite Hc''.
    + eauto.
    + intros now Hlt. by eapply elapse_not_due.
    + intros now Hle.
      destruct (elapse_due now _ h' _ (List.last later (t1, note1)).2
                  Ht'' ltac:(by rewrite Hr'') Hle) as (Hsv & Htm & _).
      by rewrite Hsv, Htm, Hc'', Hc.
Qed.

End WriteCoordinator.

(** ** The properties on concrete runs *)

Section Runs.
Import Reference Scenario.

(** C1 fails as stated: a note with title "T" and empty content, locked
    with "Abc123!", is not given back by unlocking with "Abc123!"; the
    decryption error is raised instead.  [lock_unlock_empty_content] shows
    the same for every implementation of the cipher. *)
Lemma C1_counterexample_empty_content :
  exists e,
    Encryption.encryptNote "" "T" "Abc123!" entropy tt = (Ok e, tt) /\
    Encryption.decryptNote (Encryption.encryptedContent e)
      (Encryption.encryptedTitle e) "Abc123!" (Encryption.salt e) tt
    = (Err failed_to_decrypt, tt)
    /\ Encryption.decryptNote (Encryption.encryptedContent e)
         (Encryption.encryptedTitle e) "Abc123!" (Encryption.salt e) tt
       ≠ (Ok (Encryption.mkDecrypted "" "T"), tt).
Proof.
  destruct (lock_unlock_empty_content "T" "Abc123!" entropy tt)
    as (e & E & D); [reflexivity|reflexivity|].
  exists e. split; [exact E|]. split; [exact D|]. by rewrite D.
Qed.

(** C1 on title "T", content "C" and password "Abc123!". *)
Lemma C1_witness :
  exists e,
    Encryption.encryptNote "C" "T" "Abc123!" entropy tt = (Ok e, tt) /\
    Encryption.decryptNote (Encryption.encryptedContent e)
      (Encryption.encryptedTitle e) "Abc123!" (Encryption.salt e) tt
    = (Ok (Encryption.mkDecrypted "C" "T"), tt).
Proof.
  apply (C1_lock_then_unlock_roundtrip "T" "C" "Abc123!" entropy tt);
    (discriminate || reflexivity).
Defined.



(** C2 on the note with three snapshots: the fourth is numbered 4. *)
Lemma C2_witness :
  exists w',
    NoteService.createVersion "n1" "<p>hello</p>" "A" "v4" 1400
      three_versions =
    (Ok (Some (NoteVersion.mk "v4" "n1" "<p>hello</p>" "A" 1400 4)), w').
Proof.
  destruct (C2_createVersion_numbers_from_counter "n1" "<p>hello</p>" "A"
              "v4" 1400 three_versions (note_of three_versions))
    as ((note' & w' & E & _) & _).
  - reflexivity.
  - vm_compute. reflexivity.
  - reflexivity.
  - vm_compute. split; discriminate.
  - vm_compute. repeat constructor; discriminate.
  - exists w'. exact E.
Defined.

(** C4 on a service whose empty list cache is one second old: after
    saving note B, [getAllNotes] one second later shows it. *)
Lemma C4_witness :
  2000 - Database.cacheTimestamp stale_list < Database.CACHE_TTL /\
  exists l s'',
    Database.getAllNotes 2000 (exec (Database.saveNote note_B) stale_list)
      = (Ok l, s'') /\
    note_B ∈ l.
Proof.
  split; [done|].
  destruct (C4_save_then_getAll_reflects_save note_B stale_list
              (exec (Database.saveNote note_B) stale_list) 2000)
    as (l & s'' & E & _ & Hin & _).
  - reflexivity.
  - reflexivity.
  - exists l, s''. split; [exact E|exact Hin].
Defined.

(** C8 on the edited note: restoring version 1 brings back the content
    before the edit and leaves the version list alone. *)
Lemma C8_witness :
  exists restored w',
    NoteService.restoreToVersion "n1" "v1" 3000 edited
      = (Ok (Some restored), w') /\
    Note.content (note_of edited) = "<p>hello world</p>" /\
    Note.content restored = "<p>hello</p>" /\
    Note.versions restored = Note.versions (note_of edited).
Proof.
  destruct (C8_restoreToVersion_copies_snapshot_only "n1" "v1" 3000 edited
              (note_of edited)
              (NoteVersion.mk "v1" "n1" "<p>hello</p>" "A" 2000 1))
    as (restored & w' & E & _ & _ & _ & Hc & _ & _ & Hv & _).
  - reflexivity.
  - vm_compute. reflexivity.
  - reflexivity.
  - vm_compute. reflexivity.
  - exists restored, w'. split_and!; [exact E|reflexivity|exact Hc|exact Hv].
Defined.

(** C10 on the locked note, unlocked with the locking password. *)
Lemma C10_witness :
  (forall j,
     stored (exec (NoteService.decryptNote "n1" "Abc123!") locked) j
     = stored locked j) /\
  (Note.isEncrypted <$> stored locked "n1") = Some true /\
  exists copy,
    (NoteService.decryptNote "n1" "Abc123!" locked).1 = Ok (Some copy) /\
    Note.isEncrypted copy = false /\
    Note.title copy = "A" /\
    Note.content copy = "<p>hello</p>".
Proof.
  split; [|split; [reflexivity|]].
  - apply (C10_decryptNote_leaves_store_untouched "n1" "Abc123!" locked).
  - eexists. split; [vm_compute; reflexivity|]. split_and!; reflexivity.
Defined.

(** C6 evaluated where the code breaks it.  The created note has content
    [<p>hello</p>] and plain text [hello].  Setting its content to the empty
    string through [updateNote] stores the empty content with the plain text
    [hello] still in place, and so does locking it through [encryptNote],
    which blanks the content; the plain text of the empty content is
    empty. *)
Theorem C6_plainTextContent_left_stale :
  NoteService.extractPlainText "" = "" /\
  (exists before,
     stored created "n1" = Some before /\
     Note.content before = "<p>hello</p>" /\
     Note.plainTextContent before
       = Some (NoteService.extractPlainText (Note.content before))) /\
  (exists after,
     stored emptied "n1" = Some after /\
     shown emptied "n1" = Some after /\
     Note.content after = "" /\
     Note.plainTextContent after = Some "hello" /\
     Note.plainTextContent after
       ≠ Some (NoteService.extractPlainText (Note.content after))) /\
  (exists after,
     stored locked "n1" = Some after /\
     shown locked "n1" = Some after /\
     Note.content after = "" /\
     Note.plainTextContent after = Some "hello" /\
     Note.plainTextContent after
       ≠ Some (NoteService.extractPlainText (Note.content after))).
Proof.
  split; [reflexivity|]. split_and!.
  - eexists. split; [vm_compute; reflexivity|]. split; reflexivity.
  - eexists. split; [vm_compute; reflexivity|].
    split; [vm_compute; reflexivity|]. split_and!; try reflexivity.
    discriminate.
  - eexists. split; [vm_compute; reflexivity|].
    split; [vm_compute; reflexivity|]. split_and!; try reflexivity.
    discriminate.
Qed.

(** C9 evaluated where the code breaks it.  The note was created, and last
    updated, at time 1000.  Reading it through [getNote] at time 5000 hands
    back the note as it was and stores it with [lastAccessedAt] 5000 and
    also with [updatedAt] 5000, title and content being the same. *)
Theorem C9_reading_a_note_moves_updatedAt :
  exists before after,
    stored created "n1" = Some before /\
    (NoteService.getNote "n1" 5000 created).1 = Ok (Some before) /\
    stored read_back "n1" = Some after /\
    Note.updatedAt before = 1000 /\
    Note.updatedAt after = 5000 /\
    Note.lastAccessedAt after = Some 5000 /\
    Note.title after = Note.title before /\
    Note.content after = Note.content before.
Proof.
  eexists _, _. split; [vm_compute; reflexivity|].
  split; [vm_compute; reflexivity|].
  split; [vm_compute; reflexivity|]. split_and!; reflexivity.
Qed.

(** The writes of the version history are persisted without touching
    [updatedAt]: after three snapshots taken at 1100, 1200 and 1300 the
    stored note still says 1000. *)
Lemma snapshots_keep_updatedAt :
  (Note.updatedAt <$> stored three_versions "n1") = Some 1000 /\
  (length <$> (stored three_versions "n1" ≫= Note.versions)) = Some 3%nat.
Proof. split; vm_compute; reflexivity. Qed.

(** C7 fails as stated.  With the default options, two edits 500 ms apart
    (within [delay] of each other) are saved twice: the first edit finds
    [lastSaveRef] at 0, is given the minimum delay of 100 ms and is saved
    before the second one arrives.  And the computed delay leaves
    [[100, maxDelay]] for options outside [100 <= delay <= maxDelay]. *)
Lemma C7_counterexample_two_saves_in_one_burst :
  (1000500 - 1000000 < AutoSave.delay AutoSave.default_options /\
   AutoSave.saveCalls after_typing =
     [(1002500, draft "<p>hello world</p>" "hello world");
      (1000100, draft "<p>hello w</p>" "hello w")]) /\
  AutoSave.actualDelay (AutoSave.mkOptions 50 10000) 0 = 50 /\
  AutoSave.actualDelay (AutoSave.mkOptions 2000 50) 0 = 100.
Proof.
  split; [split; [done|vm_compute; reflexivity]|]. split; reflexivity.
Qed.

(** C7 on the default options: the delay after 9950 ms without a save,
    the two edits of [typing], and the burst of two edits 50 ms apart, the
    second one before the timeout of the first is due: nothing is saved
    while the burst lasts, and the text of the second edit is saved once,
    100 ms after it. *)
Lemma C7_witness :
  (100 <= AutoSave.actualDelay AutoSave.default_options 9950
        <= AutoSave.maxDelay AutoSave.default_options) /\
  single_timer
    (AutoSave.run AutoSave.default_options persist typing
       (AutoSave.initial (created, ["v1"; "v2"]))) /\
  before_deadline AutoSave.default_options 0 1000000
    [(1000050, draft "<p>hello world</p>" "hello world")] /\
  AutoSave.saveCalls
    (AutoSave.run AutoSave.default_options persist (edits burst)
       (AutoSave.initial (created, ["v1"; "v2"]))) = [] /\
  AutoSave.saveCalls
    (AutoSave.run_timers persist 1000150
       (AutoSave.run AutoSave.default_options persist (edits burst)
          (AutoSave.initial (created, ["v1"; "v2"]))))
  = [(1000150, draft "<p>hello world</p>" "hello world")].
Proof.
  assert (Hb : before_deadline AutoSave.default_options 0 1000000
                 [(1000050, draft "<p>hello world</p>" "hello world")]).
  { split; [|exact I]. vm_compute. split; [discriminate|reflexivity]. }
  destruct (C7_delay_range_and_one_save_per_burst
              AutoSave.default_options persist)
    as (Hrange & _ & Hsingle & Hburst).
  - vm_compute. split; discriminate.
  - vm_compute. discriminate.
  - destruct (Hburst (AutoSave.initial (created, ["v1"; "v2"])) 1000000
                (draft "<p>hello w</p>" "hello w")
                [(1000050, draft "<p>hello world</p>" "hello world")]
                eq_refl Hb)
      as (Hnone & _ & _ & Hdue).
    destruct (Hdue 1000150) as (Hsaved & _).
    { vm_compute. discriminate. }
    split; [apply Hrange|]. split; [apply Hsingle|]. split; [exact Hb|].
    split; [exact Hnone|exact Hsaved].
Defined.

(** The scenario of the specification: note "A" created with content
    [<p>hello</p>], one edit persisted through [updateNoteWithVersion]:
    version 1 holds the content before the edit and the counter is 1. *)
Example edited_once :
  stored edited "n1" ≫= Note.versions
    = Some [NoteVersion.mk "v1" "n1" "<p>hello</p>" "A" 2000 1] /\
  (Note.content <$> stored edited "n1") = Some "<p>hello world</p>" /\
  (Note.plainTextContent <$> stored edited "n1") = Some (Some "hello world") /\
  stored edited "n1" ≫= Note.version = Some 1.
Proof. split_and!; vm_compute; reflexivity. Qed.

(** Unlocking the locked note through the service with another password,
    with the reference cipher, which opens a ciphertext under no
    passphrase but its own. *)
Example unlock_with_wrong_password :
  (NoteService.decryptNote "n1" "wrong" locked).1
  = Err (Error "Invalid password").
Proof. vm_compute. reflexivity. Qed.

End Runs.

(** * Further properties of the code *)

(** ** The cache layer as a whole *)

Section CacheCoherence.
Import Database.

Lemma agrees_insert c r k v : agrees c r -> agrees (<[k := v]> c) (<[k := v]> r).
Proof.
  intros Ha id n. destruct (decide (k = id)) as [->|Hne].
  - by rewrite !lookup_insert_eq.
  - rewrite !lookup_insert_ne by done. apply Ha.
Qed.

Lemma agrees_delete c r k : agrees c r -> agrees (delete k c) (delete k r).
Proof.
  intros Ha id n. destruct (decide (k = id)) as [->|Hne].
  - by rewrite !lookup_delete_eq.
  - rewrite !lookup_delete_ne by done. apply Ha.
Qed.

Lemma agrees_bulk_insert notes : forall c r,
  agrees c r ->
  agrees (foldl (fun c note => <[Note.id note := note]> c) c notes)
         (foldl (fun m n => <[Note.id n := n]> m) r notes).
Proof.
  induction notes as [|n notes IH]; intros c r Ha; [done|].
  simpl. apply IH. by apply agrees_insert.
Qed.

Lemma agrees_bulk_delete ids : forall c r,
  agrees c r ->
  agrees (foldl (fun c id => delete id c) c ids)
         (foldl (fun m k => delete k m) r ids).
Proof.
  induction ids as [|k ids IH]; intros c r Ha; [done|].
  simpl. apply IH. by apply agrees_delete.
Qed.

Lemma coherent_after_call (s : DatabaseService) (c : db_call) :
  coherent s -> coherent (after_call s c).
Proof.
  destruct s as [[rws outs] cache all ts]. intros [Hc Ha]. simpl in Hc, Ha.
  destruct c as [now|id|note|id|notes|ids|]; simpl.
  - unfold getAllNotes, try_catch, bind, on_table, Table_toArray, io, ret.
    simpl.
    destruct all as [l|]; [destruct (now - ts <? CACHE_TTL)|];
      destruct outs as [|[] outs]; simpl; split; simpl; try done;
      by intros ? [= <-].
  - unfold getNote, try_catch, bind, on_table, Table_get, io, ret. simpl.
    destruct (cache !! id) as [n|] eqn:Hid; [done|].
    destruct outs as [|[] outs]; simpl; try done;
      destruct (rws !! id) as [n|] eqn:Hr; simpl; split; simpl; try done;
      intros id' n'; (destruct (decide (id = id')) as [<-|Hne];
        [rewrite lookup_insert_eq; congruence
        |rewrite lookup_insert_ne by done; apply Hc]).
  - unfold saveNote, try_catch, bind, on_table, Table_put, io, throw. simpl.
    destruct outs as [|[] outs]; simpl; split; simpl; try done;
      by apply agrees_insert.
  - unfold deleteNote, try_catch, bind, on_table, Table_delete, io, throw.
    simpl.
    destruct outs as [|[] outs]; simpl; split; simpl; try done;
      by apply agrees_delete.
  - unfold batchSaveNotes, try_catch, bind, on_table, Table_bulkPut, io,
      throw. simpl.
    destruct outs as [|[] outs]; simpl; split; simpl; try done;
      by apply agrees_bulk_insert.
  - unfold batchDeleteNotes, try_catch, bind, on_table, Table_bulkDelete, io,
      throw. simpl.
    destruct outs as [|[] outs]; simpl; split; simpl; try done;
      by apply agrees_bulk_delete.
  - split; simpl; [|done]. intros id n. by rewrite lookup_empty.
Qed.

End CacheCoherence.

Section CacheReads.
Import Database.

(** X1. From a service whose caches agree with the table, every sequence
    of calls of the service (list and point reads, single and batch writes
    and deletions, clearing the cache) leaves the caches in agreement with
    the table, whichever of the store calls reject. *)
Theorem X1_caches_stay_coherent (calls : list db_call) (s : DatabaseService) :
  coherent s -> coherent (foldl after_call s calls).
Proof.
  revert s. induction calls as [|c calls IH]; intros s Hs; [done|].
  simpl. apply IH. by apply coherent_after_call.
Qed.

Lemma getAllNotes_coherent (s : DatabaseService) (now : Z) :
  coherent s ->
  exists l, (getAllNotes now s).1 = Ok l /\
    (l = Array_sort compareNotes ((map_to_list (rows (db_notes s))).*2)
     \/ (l = [] /\ next_call_rejects s)).
Proof.
  intros [_ Ha]. revert Ha.
  unfold getAllNotes, try_catch, bind, on_table, Table_toArray,
    next_call_rejects, io, ret.
  destruct s as [[rws outs] cache all ts]; simpl. intros Ha.
  destruct all as [l|]; [destruct (now - ts <? CACHE_TTL)|];
    destruct outs as [|[] outs]; simpl; eauto.
Qed.

(** X2. In a service whose caches agree with the table, a note returned
    by [getNote] is the row of that id, and the list returned by
    [getAllNotes] is the sorted content of the table, or the empty list when
    the reload was needed and its store read rejected: no read is stale. *)
Theorem X2_reads_are_never_stale (s : DatabaseService) (id : string)
    (now : Z) :
  coherent s ->
  (forall n, (getNote id s).1 = Ok (Some n) ->
             rows (db_notes s) !! id = Some n) /\
  (exists l, (getAllNotes now s).1 = Ok l /\
     (l = Array_sort compareNotes ((map_to_list (rows (db_notes s))).*2)
      \/ (l = [] /\ next_call_rejects s))).
Proof.
  intros Hs. split; [|by apply getAllNotes_coherent].
  destruct Hs as [Hc _].
  intros n Hget. destruct (getNote id s) as [r s'] eqn:E.
  destruct (getNote_inv _ _ _ _ E) as (o & -> & _ & _ & _ & Hcase).
  simpl in Hget. injection Hget as ->.
  destruct (notesCache s !! id) as [c|] eqn:Hid.
  - destruct Hcase as [[= ->] _]. by apply Hc.
  - destruct Hcase as (_ & [(_ & Ho & _)|(_ & ? & _)]); done.
Qed.

Lemma getNote_again (s : DatabaseService) (id : string) (n : Note.t) :
  (getNote id s).1 = Ok (Some n) ->
  notesCache (getNote id s).2 !! id = Some n.
Proof.
  destruct (getNote id s) as [r s'] eqn:E. simpl. intros ->.
  destruct (getNote_inv _ _ _ _ E) as (o & [= <-] & _ & _ & _ & Hcase).
  destruct (notesCache s !! id) as [c|] eqn:Hid.
  - destruct Hcase as [[= ->] ->]. done.
  - destruct Hcase as (_ & [(_ & _ & ->)|(_ & ? & _)]); [|done].
    apply lookup_insert_eq.
Qed.

(** X3. A point read repeats: once [getNote] has returned a note for an
    id, calling it again returns the same note and leaves the service as it
    is, without a store call, so also when the store rejects every call. *)
Theorem X3_getNote_repeats_without_store (s : DatabaseService) (id : string)
    (n : Note.t) :
  (getNote id s).1 = Ok (Some n) ->
  getNote id (getNote id s).2 = (Ok (Some n), (getNote id s).2).
Proof.
  intros Hget. pose proof (getNote_again s id n Hget) as Hc.
  unfold getNote at 1. by rewrite Hc.
Qed.

Lemma deleteNote_inv id s r s' :
  deleteNote id s = (r, s') ->
  (r = Ok tt /\ next_call_resolves s /\
   rows (db_notes s') = delete id (rows (db_notes s)) /\
   notesCache s' = delete id (notesCache s) /\
   allNotesCache s' = None /\ cacheTimestamp s' = 0)
  \/
  (r = Err DexieError /\ next_call_rejects s /\
   rows (db_notes s') = rows (db_notes s) /\
   notesCache s' = notesCache s /\
   allNotesCache s' = allNotesCache s /\
   cacheTimestamp s' = cacheTimestamp s).
Proof.
  unfold deleteNote, try_catch, bind, on_table, Table_delete, io, throw,
    next_call_resolves, next_call_rejects, io.
  destruct s as [[rws outs] cache all ts]; simpl.
  destruct outs as [|[] outs]; simpl; intros [= <- <-]; simpl; auto 10.
Qed.

(** X4. [deleteNote] either succeeds, and then the note is gone for good:
    [getNote] answers "not found" for the id whatever the store does next,
    and no note listed by [getAllNotes] is the row of that id; or it rethrows
    the store's error, and then table and caches are as before. *)
Theorem X4_deleteNote_removes_or_rethrows (s : DatabaseService)
    (id : string) (now : Z) :
  ((deleteNote id s).1 = Ok tt /\
   (getNote id (deleteNote id s).2).1 = Ok None /\
   rows (db_notes (deleteNote id s).2) !! id = None /\
   (forall k, k ≠ id ->
      rows (db_notes (deleteNote id s).2) !! k = rows (db_notes s) !! k) /\
   (forall l n, (getAllNotes now (deleteNote id s).2).1 = Ok l -> n ∈ l ->
      exists k, k ≠ id /\ rows (db_notes s) !! k = Some n))
  \/
  ((deleteNote id s).1 = Err DexieError /\
   rows (db_notes (deleteNote id s).2) = rows (db_notes s) /\
   notesCache (deleteNote id s).2 = notesCache s /\
   allNotesCache (deleteNote id s).2 = allNotesCache s).
Proof.
  destruct (deleteNote id s) as [r s'] eqn:E. simpl.
  destruct (deleteNote_inv _ _ _ _ E)
    as [(-> & _ & Hr & Hc & Hall & _)|(-> & _ & Hr & Hc & Ha & _)];
    [left|right; done].
  split; [done|]. split_and!.
  - destruct (getNote id s') as [r' s''] eqn:E'.
    destruct (getNote_inv _ _ _ _ E') as (o & -> & _ & _ & _ & Hcase).
    rewrite Hc, lookup_delete_eq in Hcase. simpl.
    destruct Hcase as (_ & [(_ & -> & _)|(_ & -> & _)]); [|done].
    by rewrite Hr, lookup_delete_eq.
  - by rewrite Hr, lookup_delete_eq.
  - intros k Hk. by rewrite Hr, lookup_delete_ne.
  - intros l n Hl Hin. revert Hl.
    unfold getAllNotes. rewrite Hall.
    unfold try_catch, bind, on_table, Table_toArray, ret.
    destruct (io (db_notes s')) as [[] t] eqn:Hio; simpl.
    + intros [= <-]. rewrite Array_sort_perm, list_elem_of_fmap in Hin.
      destruct Hin as ([k n'] & -> & Hin). apply elem_of_map_to_list in Hin.
      assert (Ht : rows t = rows (db_notes s')).
      { pose proof (io_rows (db_notes s')) as Hx. by rewrite Hio in Hx. }
      rewrite Ht, Hr in Hin. exists k.
      destruct (decide (k = id)) as [->|Hne].
      * by rewrite lookup_delete_eq in Hin.
      * by rewrite lookup_delete_ne in Hin.
    + intros [= <-]. by apply elem_of_nil in Hin.
Qed.

Lemma before_trans a b c : before a b -> before b c -> before a c.
Proof.
  unfold before, compareNotes.
  destruct (Note.isPinned a), (Note.isPinned b), (Note.isPinned c);
    simpl; lia.
Qed.

Lemma before_flip a b : 0 < compareNotes a b -> before b a.
Proof.
  unfold before, compareNotes.
  destruct (Note.isPinned a), (Note.isPinned b); simpl; lia.
Qed.

Lemma sort_insert_sorted x l :
  StronglySorted before l ->
  StronglySorted before (sort_insert compareNotes x l).
Proof.
  induction 1 as [|y l Hs IH Hy]; simpl; [by repeat constructor|].
  destruct (0 <? compareNotes x y) eqn:Hcmp.
  - apply Z.ltb_lt in Hcmp. constructor; [done|].
    rewrite sort_insert_perm. constructor; [by apply before_flip|done].
  - apply Z.ltb_ge in Hcmp. constructor; [by constructor|].
    constructor; [done|].
    eapply Forall_impl; [exact Hy|]. intros z Hz. by eapply before_trans.
Qed.

Lemma Array_sort_sorted l :
  StronglySorted before (Array_sort compareNotes l).
Proof.
  induction l as [|x l IH]; [constructor|].
  unfold Array_sort in *. simpl. by apply sort_insert_sorted.
Qed.

Lemma sorted_display_order l : StronglySorted before l -> display_order l.
Proof.
  induction 1 as [|x l Hs IH Hx]; intros i j a b Hij Ha Hb.
  - by rewrite lookup_nil in Ha.
  - destruct j as [|j]; [lia|]. simpl in Hb. destruct i as [|i].
    + simpl in Ha. injection Ha as <-.
      assert (Hxb : before x b).
      { rewrite Forall_forall in Hx. apply Hx.
        by eapply list_elem_of_lookup_2. }
      revert Hxb. unfold before, compareNotes.
      destruct (Note.isPinned x), (Note.isPinned b); simpl;
        intros ?; split; intros ?; try done; lia.
    + simpl in Ha. apply (IH i j a b); [lia|done|done].
Qed.

(** X5. In a service whose caches agree with the table, the list
    [getAllNotes] returns, cached or reloaded, has every pinned note before
    every unpinned one and, among notes pinned alike, the notes in the order
    of their [updatedAt], latest first. *)
Theorem X5_getAllNotes_is_in_display_order (s : DatabaseService) (now : Z)
    (l : list Note.t) :
  coherent s ->
  (getAllNotes now s).1 = Ok l ->
  display_order l.
Proof.
  intros Hs Hl.
  destruct (getAllNotes_coherent s now Hs) as (l' & Hl' & [->|[-> _]]);
    rewrite Hl' in Hl; injection Hl as <-.
  - apply sorted_display_order, Array_sort_sorted.
  - intros i j a b _ Ha. by rewrite lookup_nil in Ha.
Qed.

Lemma bulk_insert_other (notes : list Note.t) : forall (m : gmap string Note.t) k,
  k ∉ Note.id <$> notes ->
  foldl (fun m n => <[Note.id n := n]> m) m notes !! k = m !! k.
Proof.
  induction notes as [|a notes IH]; intros m k Hk; [done|].
  simpl. rewrite fmap_cons, not_elem_of_cons in Hk. destruct Hk as [Hne Hk].
  rewrite IH by done. by rewrite lookup_insert_ne.
Qed.

Lemma bulk_insert_member (notes : list Note.t) :
  forall (m : gmap string Note.t) n,
  NoDup (Note.id <$> notes) ->
  n ∈ notes ->
  foldl (fun m n => <[Note.id n := n]> m) m notes !! Note.id n = Some n.
Proof.
  induction notes as [|a notes IH]; intros m n Hnd Hin.
  - by apply elem_of_nil in Hin.
  - rewrite fmap_cons, NoDup_cons in Hnd. destruct Hnd as [Ha Hnd].
    simpl. apply elem_of_cons in Hin as [->|Hin].
    + rewrite bulk_insert_other by done. apply lookup_insert_eq.
    + by apply IH.
Qed.

Lemma bulk_delete_lookup (ids : list string) :
  forall (m : gmap string Note.t) k,
  foldl (fun m k => delete k m) m ids !! k
  = if decide (k ∈ ids) then None else m !! k.
Proof.
  induction ids as [|a ids IH]; intros m k; cbn [foldl].
  - case_decide as Hin; [by apply elem_of_nil in Hin|done].
  - rewrite IH.
    destruct (decide (k ∈ ids)) as [Hin|Hnin];
      destruct (decide (k ∈ a :: ids)) as [Hin'|Hnin'].
    + done.
    + exfalso. apply Hnin'. by right.
    + apply elem_of_cons in Hin' as [->|?]; [|done].
      by rewrite lookup_delete_eq.
    + rewrite lookup_delete_ne; [done|]. intros ->. apply Hnin'. by left.
Qed.

(** X6. [batchSaveNotes] is all or nothing.  For a batch without repeated
    ids it either succeeds, and then every note of the batch is the row of
    its id and is what [getNote] returns for it whatever the store does
    next, rows of other ids being untouched and the list cache dropped; or it
    rethrows the store's error with table and caches as before. *)
Theorem X6_batchSaveNotes_all_or_nothing (notes : list Note.t)
    (s : DatabaseService) :
  NoDup (Note.id <$> notes) ->
  ((batchSaveNotes notes s).1 = Ok tt /\
   (forall n, n ∈ notes ->
      rows (db_notes (batchSaveNotes notes s).2) !! Note.id n = Some n /\
      (getNote (Note.id n) (batchSaveNotes notes s).2).1 = Ok (Some n)) /\
   (forall k, k ∉ Note.id <$> notes ->
      rows (db_notes (batchSaveNotes notes s).2) !! k
      = rows (db_notes s) !! k) /\
   allNotesCache (batchSaveNotes notes s).2 = None)
  \/
  ((batchSaveNotes notes s).1 = Err DexieError /\
   rows (db_notes (batchSaveNotes notes s).2) = rows (db_notes s) /\
   notesCache (batchSaveNotes notes s).2 = notesCache s /\
   allNotesCache (batchSaveNotes notes s).2 = allNotesCache s).
Proof.
  intros Hnd.
  unfold batchSaveNotes, try_catch, bind, on_table, Table_bulkPut, io, throw.
  destruct s as [[rws outs] cache all ts]; simpl.
  destruct outs as [|[] outs]; simpl; [left|left|right; done];
    (split; [done|]; split_and!; [|by apply bulk_insert_other|done];
     intros n Hin; split; [by apply bulk_insert_member|];
     unfold getNote; simpl;
     by rewrite bulk_insert_member).
Qed.

(** X7. [batchDeleteNotes] is all or nothing.  Either it succeeds, and
    then every id of the batch has no row and [getNote] answers "not found"
    for it whatever the store does next, rows of other ids being untouched;
    or it rethrows the store's error with table and caches as before. *)
Theorem X7_batchDeleteNotes_all_or_nothing (ids : list string)
    (s : DatabaseService) :
  ((batchDeleteNotes ids s).1 = Ok tt /\
   (forall id, id ∈ ids ->
      rows (db_notes (batchDeleteNotes ids s).2) !! id = None /\
      (getNote id (batchDeleteNotes ids s).2).1 = Ok None) /\
   (forall k, k ∉ ids ->
      rows (db_notes (batchDeleteNotes ids s).2) !! k
      = rows (db_notes s) !! k))
  \/
  ((batchDeleteNotes ids s).1 = Err DexieError /\
   rows (db_notes (batchDeleteNotes ids s).2) = rows (db_notes s) /\
   notesCache (batchDeleteNotes ids s).2 = notesCache s /\
   allNotesCache (batchDeleteNotes ids s).2 = allNotesCache s).
Proof.
  destruct (batchDeleteNotes ids s) as [r s'] eqn:E. simpl. revert E.
  unfold batchDeleteNotes, try_catch, bind, on_table, Table_bulkDelete, io,
    throw.
  destruct s as [[rws outs] cache all ts]; simpl.
  destruct outs as [|[] outs]; simpl; intros [= <- <-];
    [left|left|right; done];
    (split; [done|]; split;
     [|intros k Hk; simpl; rewrite bulk_delete_lookup;
       by rewrite decide_False];
     intros id Hin; simpl; split;
     [rewrite bulk_delete_lookup; by rewrite decide_True|];
     match goal with
     | |- (getNote id ?st).1 = _ =>
         destruct (getNote id st) as [r' s''] eqn:E';
         destruct (getNote_inv _ _ _ _ E') as (o & -> & _ & _ & _ & Hcase)
     end;
     simpl in Hcase; rewrite bulk_delete_lookup in Hcase;
     rewrite decide_True in Hcase by done; simpl;
     destruct Hcase as (_ & [(_ & -> & _)|(_ & -> & _)]); [|done];
     rewrite bulk_delete_lookup; by rewrite decide_True).
Qed.

End CacheReads.

(** ** Password strength and generated passwords *)

Section Passwords.
Import Encryption.

Lemma validatePasswordStrength_eq (password : string) :
  isValid (validatePasswordStrength password)
    = (3 <=? criteria_met password) /\
  score (validatePasswordStrength password)
    = Z.min 5 (criteria_met password) /\
  Z.of_nat (length (feedback (validatePasswordStrength password)))
    = 6 - criteria_met password
      - Z.b2z (negb (12 <=? Z.of_nat (String.length password))).
Proof.
  unfold validatePasswordStrength, criteria_met.
  destruct (8 <=? Z.of_nat (String.length password)),
    (12 <=? Z.of_nat (String.length password)),
    (test is_lowercase password), (test is_uppercase password),
    (test is_digit password), (test is_special password); simpl; done.
Qed.

(** X8. For every password the reported score lies between 0 and 5; the
    password is valid exactly when at least three of the six criteria (eight
    characters, twelve characters, a lowercase letter, an uppercase letter,
    a digit, a special character) are met; there is one line of feedback for
    each unmet criterion other than the twelve characters; and no feedback
    means a valid password with score 5. *)
Theorem X8_validatePasswordStrength_accounting (password : string) :
  let r := validatePasswordStrength password in
  0 <= score r <= 5 /\
  (isValid r = true <-> 3 <= criteria_met password) /\
  score r = Z.min 5 (criteria_met password) /\
  Z.of_nat (length (feedback r))
    = 6 - criteria_met password
      - Z.b2z (negb (12 <=? Z.of_nat (String.length password))) /\
  (feedback r = [] -> isValid r = true /\ score r = 5) /\
  (isValid r = false -> (3 <= length (feedback r))%nat).
Proof.
  cbv zeta. destruct (validatePasswordStrength_eq password) as (Hv & Hs & Hf).
  assert (Hrange : 0 <= criteria_met password <= 6).
  { unfold criteria_met.
    destruct (8 <=? _), (12 <=? _), (test is_lowercase _),
      (test is_uppercase _), (test is_digit _), (test is_special _);
      simpl; lia. }
  split; [rewrite Hs; lia|]. split; [rewrite Hv; apply Z.leb_le|].
  split; [done|]. split; [done|]. split.
  - intros Hnil. rewrite Hnil in Hf. simpl in Hf. rewrite Hv, Hs.
    destruct (12 <=? Z.of_nat (String.length password)); simpl in Hf.
    + split; [apply Z.leb_le|]; lia.
    + split; [apply Z.leb_le|]; lia.
  - intros Hinv. rewrite Hv in Hinv. apply Z.leb_gt in Hinv.
    destruct (12 <=? Z.of_nat (String.length password)); simpl in Hf; lia.
Qed.

Lemma string_length_chars (s : string) :
  String.length s = length (String.list_ascii_of_string s).
Proof. induction s as [|c s IH]; simpl; [done|by rewrite IH]. Qed.

Lemma chars_append (p q : string) :
  String.list_ascii_of_string (p ++ q)
  = (String.list_ascii_of_string p ++ String.list_ascii_of_string q)%list.
Proof. induction p as [|c p IH]; simpl; [done|by rewrite IH]. Qed.

Lemma test_append class (p q : string) :
  test class (p ++ q) = test class p || test class q.
Proof. unfold test. by rewrite chars_append, existsb_app. Qed.

Lemma criteria_met_append_l (p q : string) :
  criteria_met p <= criteria_met (p ++ q) /\
  criteria_met q <= criteria_met (p ++ q).
Proof.
  unfold criteria_met. rewrite !test_append.
  rewrite !string_length_chars, chars_append, length_app, Nat2Z.inj_add.
  set (lp := Z.of_nat (length (String.list_ascii_of_string p))).
  set (lq := Z.of_nat (length (String.list_ascii_of_string q))).
  assert (0 <= lp) by (unfold lp; lia).
  assert (0 <= lq) by (unfold lq; lia).
  assert (Hmono : forall k a b, a <= b ->
            Z.b2z (k <=? a) <= Z.b2z (k <=? b)).
  { intros k a b Hab. destruct (k <=? a) eqn:Ha, (k <=? b) eqn:Hb;
      simpl; lia. }
  pose proof (Hmono 8 lp (lp + lq) ltac:(lia)).
  pose proof (Hmono 12 lp (lp + lq) ltac:(lia)).
  pose proof (Hmono 8 lq (lp + lq) ltac:(lia)).
  pose proof (Hmono 12 lq (lp + lq) ltac:(lia)).
  destruct (test is_lowercase p), (test is_lowercase q),
    (test is_uppercase p), (test is_uppercase q),
    (test is_digit p), (test is_digit q),
    (test is_special p), (test is_special q); simpl; lia.
Qed.

(** X9. Adding characters to a password, at either end, never lowers its
    score and never makes a valid password invalid. *)
Theorem X9_longer_password_is_not_weaker (p q : string) :
  score (validatePasswordStrength p)
    <= score (validatePasswordStrength (p ++ q)) /\
  score (validatePasswordStrength q)
    <= score (validatePasswordStrength (p ++ q)) /\
  (isValid (validatePasswordStrength p) = true ->
   isValid (validatePasswordStrength (p ++ q)) = true) /\
  (isValid (validatePasswordStrength q) = true ->
   isValid (validatePasswordStrength (p ++ q)) = true).
Proof.
  destruct (validatePasswordStrength_eq p) as (Hvp & Hsp & _).
  destruct (validatePasswordStrength_eq q) as (Hvq & Hsq & _).
  destruct (validatePasswordStrength_eq (p ++ q)) as (Hv & Hs & _).
  destruct (criteria_met_append_l p q) as [Hp Hq].
  rewrite Hvp, Hvq, Hv, Hsp, Hsq, Hs. split_and!; try lia;
    intros H3%Z.leb_le; apply Z.leb_le; lia.
Qed.

Lemma pick_member (chars : string) (draw : nat) :
  chars ≠ "" -> pick chars draw ∈ String.list_ascii_of_string chars.
Proof.
  intros Hne. unfold pick. rewrite string_length_chars.
  apply list_elem_of_In, nth_In. apply Nat.mod_upper_bound.
  destruct chars; [done|simpl; lia].
Qed.

Lemma pick_class class (chars : string) (draw : nat) :
  chars ≠ "" ->
  forallb class (String.list_ascii_of_string chars) = true ->
  class (pick chars draw) = true.
Proof.
  intros Hne Hall. rewrite forallb_forall in Hall.
  apply Hall, list_elem_of_In. by apply pick_member.
Qed.

Lemma test_permutation class (l l' : list ascii) :
  l ≡ₚ l' -> existsb class l = existsb class l'.
Proof.
  intros Hp. apply eq_true_iff_eq. rewrite !existsb_exists.
  split; intros (x & Hin & Hx); exists x; split; try done.
  - apply list_elem_of_In. rewrite <- Hp. by apply list_elem_of_In.
  - apply list_elem_of_In. rewrite Hp. by apply list_elem_of_In.
Qed.

(** X10. Whatever the draws, and for any order the shuffle leaves the
    characters in, a generated password has [length] characters, or four
    when [length] is smaller, all of them from the four alphabets; it has a
    lowercase letter, an uppercase letter, a digit and a special character,
    so [validatePasswordStrength] finds it valid with a score of at least 4,
    and with score 5 and no feedback when [length] is at least 8. *)
Theorem X10_generated_password_is_valid (length : Z) (random : nat -> nat)
    (shuffle : list ascii -> list ascii) :
  (forall l, shuffle l ≡ₚ l) ->
  let password := generatePassword length random shuffle in
  Z.of_nat (String.length password) = Z.max 4 length /\
  (forall c, c ∈ String.list_ascii_of_string password ->
     c ∈ String.list_ascii_of_string
           (lowercase ++ uppercase ++ numbers ++ special)) /\
  test is_lowercase password = true /\
  test is_uppercase password = true /\
  test is_digit password = true /\
  test is_special password = true /\
  isValid (validatePasswordStrength password) = true /\
  4 <= score (validatePasswordStrength password) /\
  (8 <= length ->
   score (validatePasswordStrength password) = 5 /\
   feedback (validatePasswordStrength password) = []).
Proof.
  intros Hshuffle. cbv zeta. unfold generatePassword.
  set (head4 := [pick lowercase (random 0%nat); pick uppercase (random 1%nat);
                 pick numbers (random 2%nat); pick special (random 3%nat)]).
  set (rest := (fun i => pick (lowercase ++ uppercase ++ numbers ++ special)
                           (random (4 + i)%nat))
                 <$> seq 0 (Z.to_nat (length - 4))).
  set (password := String.string_of_list_ascii (shuffle (head4 ++ rest)%list)).
  assert (Hchars : String.list_ascii_of_string password
                   = shuffle (head4 ++ rest)%list).
  { apply String.list_ascii_of_string_of_list_ascii. }
  assert (Hlen : Z.of_nat (String.length password) = Z.max 4 length).
  { rewrite string_length_chars, Hchars, Hshuffle, length_app.
    unfold rest. rewrite length_fmap, length_seq. simpl. lia. }
  assert (Htest : forall class c, class c = true -> c ∈ head4 ->
                    test class password = true).
  { intros class c Hc Hin. unfold test. rewrite Hchars.
    rewrite (test_permutation class _ _ (Hshuffle _)).
    apply existsb_exists. exists c. split; [|done].
    apply list_elem_of_In, elem_of_app. by left. }
  assert (Hl : test is_lowercase password = true).
  { apply (Htest _ (pick lowercase (random 0%nat)));
      [by apply pick_class|unfold head4; set_solver]. }
  assert (Hu : test is_uppercase password = true).
  { apply (Htest _ (pick uppercase (random 1%nat)));
      [by apply pick_class|unfold head4; set_solver]. }
  assert (Hd : test is_digit password = true).
  { apply (Htest _ (pick numbers (random 2%nat)));
      [by apply pick_class|unfold head4; set_solver]. }
  assert (Hs : test is_special password = true).
  { apply (Htest _ (pick special (random 3%nat)));
      [by apply pick_class|unfold head4; set_solver]. }
  destruct (validatePasswordStrength_eq password) as (Hv & Hsc & Hf).
  assert (Hmet : criteria_met password
                 = Z.b2z (8 <=? Z.max 4 length)
                   + Z.b2z (12 <=? Z.max 4 length) + 4).
  { unfold criteria_met. rewrite Hl, Hu, Hd, Hs, Hlen. simpl. lia. }
  split; [done|]. split.
  { intros c. rewrite Hchars, Hshuffle, elem_of_app. intros [Hin|Hin].
    - rewrite !chars_append, !elem_of_app.
      unfold head4 in Hin. rewrite !elem_of_cons in Hin.
      destruct Hin as [->|[->|[->|[->|Hin]]]];
        [left|right; left|right; right; left|right; right; right|
         by apply elem_of_nil in Hin]; by apply pick_member.
    - unfold rest in Hin. apply list_elem_of_fmap in Hin as (i & -> & _).
      by apply pick_member. }
  split; [done|]. split; [done|]. split; [done|]. split; [done|].
  assert (H8b : 0 <= Z.b2z (8 <=? Z.max 4 length) <= 1)
    by (destruct (8 <=? Z.max 4 length); simpl; lia).
  assert (H12b : 0 <= Z.b2z (12 <=? Z.max 4 length) <= 1)
    by (destruct (12 <=? Z.max 4 length); simpl; lia).
  rewrite Hv, Hsc.
  split; [apply Z.leb_le; lia|]. split; [lia|].
  intros H8.
  assert (H8t : Z.b2z (8 <=? Z.max 4 length) = 1)
    by (rewrite (proj2 (Z.leb_le 8 (Z.max 4 length))) by lia; done).
  split; [lia|].
  rewrite Hlen in Hf.
  destruct (feedback (validatePasswordStrength password)); [done|].
  simpl in Hf.
  destruct (12 <=? Z.max 4 length); simpl in Hf, Hmet; lia.
Qed.

End Passwords.

(** ** Tags, pinning and the version history *)

Section TagsAndPins.
Context `{CryptoJS} `{DOM}.
Import NoteService.

Lemma updateNote_exact id updates now w note :
  works w ->
  shown w id = Some note ->
  exists w',
    updateNote id updates now w = (Ok (Some (merged note updates now)), w') /\
    works w' /\
    (forall j, stored w' j =
       if decide (Note.id (merged note updates now) = j)
       then Some (merged note updates now) else stored w j) /\
    (forall j, shown w' j =
       if decide (Note.id (merged note updates now) = j)
       then Some (merged note updates now) else shown w j) /\
    encryptionService w' = encryptionService w.
Proof.
  intros Hw Hs. unfold updateNote, bind.
  step_get. rewrite Hs. step_save.
  eexists. split; [done|]. split; [done|]. split_and!.
  - intros j. rewrite Hst0. unfold merged. simpl. by rewrite Hst.
  - intros j. rewrite Hsh0. unfold merged. simpl. by rewrite Hsh.
  - congruence.
Qed.

Lemma from_Set_acc (l : list string) : forall seen,
  NoDup seen ->
  let r := foldl (fun seen x => if bool_decide (x ∈ seen) then seen
                                else (seen ++ [x])%list) seen l in
  NoDup r /\ (forall x, x ∈ r <-> x ∈ seen \/ x ∈ l) /\
  (NoDup (seen ++ l) -> r = (seen ++ l)%list).
Proof.
  induction l as [|a l IH]; intros seen Hnd; cbv zeta.
  - simpl. split; [done|]. split; [|by rewrite app_nil_r].
    intros x. split; [by left|]. intros [?|Hx]; [done|].
    by apply elem_of_nil in Hx.
  - cbn [foldl]. case_bool_decide as Ha.
    + destruct (IH seen Hnd) as (Hr & Hm & He). split; [done|]. split.
      * intros x. rewrite Hm, elem_of_cons. split; [intros [?|?]; auto|].
        intros [?|[->|?]]; auto.
      * intros Hnd'. apply NoDup_app in Hnd' as (_ & Hd & _).
        exfalso. apply (Hd a Ha). by left.
    + assert (Hnd2 : NoDup (seen ++ [a])).
      { apply NoDup_app. split; [done|]. split; [|apply NoDup_singleton].
        intros x Hx ->%list_elem_of_singleton. done. }
      destruct (IH (seen ++ [a])%list Hnd2) as (Hr & Hm & He).
      split; [done|]. split.
      * intros x. rewrite Hm, elem_of_app, list_elem_of_singleton,
          elem_of_cons. tauto.
      * intros Hnd'. rewrite He; [by rewrite <- app_assoc|].
        by rewrite <- app_assoc.
Qed.

Lemma Array_from_Set_spec (l : list string) :
  NoDup (Array_from_Set l) /\
  (forall x, x ∈ Array_from_Set l <-> x ∈ l) /\
  (NoDup l -> Array_from_Set l = l).
Proof.
  destruct (from_Set_acc l [] (NoDup_nil_2)) as (Hr & Hm & He).
  split; [done|]. split; [|done].
  intros x. rewrite Hm. split; [intros [Hx|?]; [by apply elem_of_nil in Hx|done]
                               |by right].
Qed.

Lemma filter_keeps_all (P : string -> Prop) `{forall x, Decision (P x)}
    (l : list string) :
  (forall x, x ∈ l -> P x) -> filter P l = l.
Proof.
  induction l as [|a l IH]; intros Hall; [done|].
  rewrite filter_cons, decide_True by (apply Hall; by left).
  f_equal. apply IH. intros x Hx. apply Hall. by right.
Qed.

(** X11. [addTag] on a note that [getNote] shows, the store working,
    stores the note with a tag list that contains the tag, has no tag twice
    and has exactly the old tags and the new one; when the old list had no
    duplicates it is the old list if the tag was in it, and the old list
    with the tag at the end otherwise.  [updatedAt] is set in either case. *)
Theorem X11_addTag_adds_once (id tag : string) (now : Z) (w : World)
    (note : Note.t) :
  works w ->
  shown w id = Some note ->
  Note.id note = id ->
  exists note' w',
    addTag id tag now w = (Ok (Some note'), w') /\
    stored w' id = Some note' /\
    tag ∈ Note.tags note' /\
    NoDup (Note.tags note') /\
    (forall t, t ∈ Note.tags note' <-> t ∈ Note.tags note \/ t = tag) /\
    (NoDup (Note.tags note) ->
     Note.tags note' =
       if decide (tag ∈ Note.tags note) then Note.tags note
       else (Note.tags note ++ [tag])%list) /\
    Note.updatedAt note' = now /\
    Note.title note' = Note.title note /\
    Note.content note' = Note.content note.
Proof.
  intros Hw Hs Hid. unfold addTag. unfold bind at 1.
  step_get. rewrite Hs. rewrite <- Hsh in Hs.
  destruct (updateNote_exact id
              (only_tags (Array_from_Set (Note.tags note ++ [tag])))
              now w0 note Hw0 Hs) as (w' & E & _ & Hst' & _).
  rewrite E. eexists _, w'. split; [done|].
  split; [rewrite Hst'; simpl; by rewrite decide_True|]. simpl.
  destruct (Array_from_Set_spec (Note.tags note ++ [tag])) as (Hnd & Hm & He).
  split_and!; try done.
  - apply Hm. rewrite elem_of_app, list_elem_of_singleton. by right.
  - intros t. by rewrite Hm, elem_of_app, list_elem_of_singleton.
  - intros Hnd0. case_decide as Hin.
    + unfold Array_from_Set. rewrite foldl_app.
      destruct (from_Set_acc (Note.tags note) [] NoDup_nil_2)
        as (_ & _ & He0).
      cbv zeta in He0. rewrite He0 by done. simpl.
      by rewrite bool_decide_eq_true_2.
    + apply He. apply NoDup_app. split; [done|].
      split; [|apply NoDup_singleton].
      intros x Hx ->%list_elem_of_singleton. done.
Qed.

(** X12. [removeTag] on a note that [getNote] shows, the store working,
    stores the note without the tag, every occurrence removed, the other
    tags kept in their order; removing a tag just added to a duplicate-free
    list that did not have it gives the list back. *)
Theorem X12_removeTag_removes_every_occurrence (id tag : string) (now : Z)
    (w : World) (note : Note.t) :
  works w ->
  shown w id = Some note ->
  Note.id note = id ->
  exists note' w',
    removeTag id tag now w = (Ok (Some note'), w') /\
    stored w' id = Some note' /\
    Note.tags note' = filter (fun t => t ≠ tag) (Note.tags note) /\
    (tag ∉ Note.tags note') /\
    (forall t, t ≠ tag -> (t ∈ Note.tags note' <-> t ∈ Note.tags note)) /\
    (NoDup (Note.tags note) -> tag ∉ Note.tags note ->
     filter (fun t => t ≠ tag) (Array_from_Set (Note.tags note ++ [tag]))
     = Note.tags note).
Proof.
  intros Hw Hs Hid. unfold removeTag. unfold bind at 1.
  step_get. rewrite Hs. rewrite <- Hsh in Hs.
  destruct (updateNote_exact id
              (only_tags (filter (fun t => t ≠ tag) (Note.tags note)))
              now w0 note Hw0 Hs) as (w' & E & _ & Hst' & _).
  rewrite E. eexists _, w'. split; [done|].
  split; [rewrite Hst'; simpl; by rewrite decide_True|]. simpl.
  split_and!; try done.
  - rewrite list_elem_of_filter. by intros [? _].
  - intros t Ht. rewrite list_elem_of_filter. tauto.
  - intros Hnd Hnin.
    destruct (Array_from_Set_spec (Note.tags note ++ [tag])) as (_ & _ & He).
    rewrite He.
    + rewrite filter_app, filter_cons, filter_nil.
      rewrite decide_False by (by intros ?). rewrite app_nil_r.
      apply filter_keeps_all. intros t Ht ->. done.
    + apply NoDup_app. split; [done|]. split; [|apply NoDup_singleton].
      intros x Hx ->%list_elem_of_singleton. done.
Qed.

(** X13. [togglePin] on a note that [getNote] shows, the store working,
    stores the note with [isPinned] negated and [updatedAt] set; a second
    toggle brings [isPinned] back to what it was, title, content and tags
    being untouched by both. *)
Theorem X13_togglePin_twice_restores_pin (id : string) (t1 t2 : Z)
    (w : World) (note : Note.t) :
  works w ->
  shown w id = Some note ->
  Note.id note = id ->
  exists n1 w1 n2 w2,
    togglePin id t1 w = (Ok (Some n1), w1) /\
    stored w1 id = Some n1 /\
    Note.isPinned n1 = negb (Note.isPinned note) /\
    Note.updatedAt n1 = t1 /\
    togglePin id t2 w1 = (Ok (Some n2), w2) /\
    stored w2 id = Some n2 /\
    Note.isPinned n2 = Note.isPinned note /\
    Note.updatedAt n2 = t2 /\
    Note.title n2 = Note.title note /\
    Note.content n2 = Note.content note /\
    Note.tags n2 = Note.tags note.
Proof.
  intros Hw Hs Hid.
  assert (Hstep : forall t w note, works w -> shown w id = Some note ->
            Note.id note = id ->
            exists w',
              togglePin id t w =
                (Ok (Some (merged note
                             (only_isPinned (negb (Note.isPinned note))) t)),
                 w') /\
              works w' /\
              stored w' id =
                Some (merged note
                        (only_isPinned (negb (Note.isPinned note))) t) /\
              shown w' id =
                Some (merged note
                        (only_isPinned (negb (Note.isPinned note))) t)).
  { clear. intros t w note Hw Hs Hid. unfold togglePin. unfold bind at 1.
    step_get. rewrite Hs. rewrite <- Hsh in Hs.
    destruct (updateNote_exact id (only_isPinned (negb (Note.isPinned note)))
                t w0 note Hw0 Hs) as (w' & E & Hw' & Hst' & Hsh' & _).
    rewrite E. exists w'. split; [done|]. split; [done|].
    rewrite Hst', Hsh'. simpl. by rewrite !decide_True. }
  destruct (Hstep t1 w note Hw Hs Hid) as (w1 & E1 & Hw1 & Hst1 & Hsh1).
  destruct (Hstep t2 w1 _ Hw1 Hsh1 Hid) as (w2 & E2 & _ & Hst2 & _).
  eexists _, w1, _, w2. split; [exact E1|]. split; [exact Hst1|].
  split; [done|]. split; [done|]. split; [exact E2|]. split; [exact Hst2|].
  simpl. split_and!; try done. by destruct (Note.isPinned note).
Qed.

Lemma clearVersions_works noteId w note :
  works w ->
  shown w noteId = Some note ->
  exists note' w',
    clearVersions noteId w = (Ok true, w') /\
    works w' /\
    shown w' (Note.id note) = Some note' /\
    stored w' (Note.id note) = Some note' /\
    Note.id note' = Note.id note /\
    Note.version note' = Some 0 /\
    Note.versions note' = Some [] /\
    Note.title note' = Note.title note /\
    Note.content note' = Note.content note /\
    Note.updatedAt note' = Note.updatedAt note.
Proof.
  intros Hw Hs. unfold clearVersions, bind.
  step_get. rewrite Hs. step_save.
  eexists _, _. split; [done|]. split; [done|].
  rewrite Hsh0, Hst0. simpl. rewrite !decide_True by done. done.
Qed.

(** X14. [clearVersions] on a note that [getNote] shows, the store
    working, stores the note with an empty version list and the counter at
    0, title, content and [updatedAt] untouched; the next snapshot is
    numbered 1 again, whatever numbers had been given out before. *)
Theorem X14_clearVersions_restarts_numbering (noteId content title
    uuid : string) (now : Z) (w : World) (note : Note.t) :
  works w ->
  shown w noteId = Some note ->
  Note.id note = noteId ->
  exists cleared w1 w2,
    clearVersions noteId w = (Ok true, w1) /\
    stored w1 noteId = Some cleared /\
    Note.versions cleared = Some [] /\
    Note.version cleared = Some 0 /\
    Note.title cleared = Note.title note /\
    Note.content cleared = Note.content note /\
    Note.updatedAt cleared = Note.updatedAt note /\
    createVersion noteId content title uuid now w1 =
      (Ok (Some (NoteVersion.mk uuid noteId content title now 1)), w2) /\
    (stored w2 noteId ≫= Note.versions)
      = Some [NoteVersion.mk uuid noteId content title now 1].
Proof.
  intros Hw Hs Hid. subst noteId.
  destruct (clearVersions_works (Note.id note) w note Hw Hs)
    as (cleared & w1 & E1 & Hw1 & Hsh1 & Hst1 & Hid1 & Hv & Hvs & Ht & Hc
        & Hu).
  destruct (createVersion_works (Note.id note) content title uuid now w1
              cleared Hw1 Hsh1)
    as (note2 & w2 & E2 & _ & _ & Hst2 & _ & _ & Hvs2 & _).
  exists cleared, w1, w2. split_and!; try done.
  - rewrite E2. unfold counter_of. rewrite Hv. reflexivity.
  - rewrite Hid1 in Hst2. rewrite Hst2. simpl. rewrite Hvs2.
    unfold versions_of, counter_of. rewrite Hvs, Hv. reflexivity.
Qed.

(** X15. [updateNoteWithVersion] on a note that [getNote] shows, the store
    working and the updates keeping the id.  It stores the note merged with
    the updates.  When the updates carry a non-empty content or title that
    differs from the stored one, it first appends one version, numbered
    counter plus one (the sum of JS numbers), that holds the title and
    content from before the edit; otherwise it appends none (an edit to the empty string included).
    A [versions] or [version] key among the updates overrides the list and
    the counter, the version just appended included. *)
Theorem X15_updateNoteWithVersion_snapshots_before_edit (id uuid : string)
    (updates : Partial.t) (now : Z) (w : World) (note : Note.t) :
  works w ->
  shown w id = Some note ->
  Note.id note = id ->
  spread id (Partial.id updates) = id ->
  let snapshot :=
    NoteVersion.mk uuid id (Note.content note) (Note.title note) now
      (Number_add (counter_of note) 1) in
  exists final w',
    updateNoteWithVersion id updates uuid now w = (Ok (Some final), w') /\
    stored w' id = Some final /\
    Note.content final
      = spread (Note.content note) (Partial.content updates) /\
    Note.title final = spread (Note.title note) (Partial.title updates) /\
    Note.updatedAt final = now /\
    Note.versions final =
      spread_opt
        (if edits_text note updates
         then Some (versions_of note ++ [snapshot])%list
         else Note.versions note)
        (Partial.versions updates) /\
    Note.version final =
      spread_opt
        (if edits_text note updates then Some (Number_add (counter_of note) 1)
         else Note.version note)
        (Partial.version updates).
Proof.
  intros Hw Hs Hid Hkeep. cbv zeta. subst id.
  unfold updateNoteWithVersion. unfold bind at 1.
  step_get. rewrite Hs. rewrite <- Hsh in Hs.
  fold (edits_text note updates).
  destruct (edits_text note updates).
  - unfold bind at 1. unfold bind at 1.
    destruct (createVersion_works (Note.id note) (Note.content note)
                (Note.title note) uuid now w0 note Hw0 Hs)
      as (note' & w1 & E1 & Hw1 & Hsh1 & _ & Hid1 & Hv & Hvs & Ht & Hc & _).
    rewrite E1. simpl.
    destruct (updateNote_exact (Note.id note) updates now w1 note' Hw1 Hsh1)
      as (w2 & E2 & _ & Hst2 & _).
    rewrite E2. eexists _, w2. split; [done|].
    split; [rewrite Hst2; simpl; rewrite Hid1, Hkeep; by rewrite decide_True|].
    simpl. by rewrite Hc, Ht, Hvs, Hv.
  - unfold bind at 1. simpl.
    destruct (updateNote_exact (Note.id note) updates now w0 note Hw0 Hs)
      as (w2 & E2 & _ & Hst2 & _).
    rewrite E2. eexists _, w2. split; [done|].
    split; [rewrite Hst2; simpl; rewrite Hkeep; by rewrite decide_True|].
    done.
Qed.

End TagsAndPins.

(** ** Locking and unlocking through the service *)

Section LockUnlock.
Context `{CryptoJS} `{DOM}.
Import NoteService.

Lemma decryptNote_of_shown (id password : string) (w : World)
    (note : Note.t) (envelope : EncryptedData.t) (c t : string) :
  works w ->
  shown w id = Some note ->
  Note.isEncrypted note = true ->
  Note.encryptedData note = Some envelope ->
  recovers (EncryptedData.content envelope) password
    (EncryptedData.salt envelope) = Some c ->
  recovers (EncryptedData.title envelope) password
    (EncryptedData.salt envelope) = Some t ->
  c ≠ "" -> t ≠ "" ->
  exists w',
    decryptNote id password w =
      (Ok (Some (Note.mk (Note.id note) t c (Some (extractPlainText c))
                   (Note.isPinned note) false true (Note.encryptedData note)
                   (Note.tags note) (Note.createdAt note)
                   (Note.updatedAt note) (Note.lastAccessedAt note)
                   (Note.version note) (Note.versions note)
                   (Note.aiMetadata note))), w') /\
    works w' /\
    (forall j, stored w' j = stored w j) /\
    (forall j, shown w' j = shown w j) /\
    Encryption.sessionPasswords (encryptionService w') !! id = Some password.
Proof.
  intros Hw Hs Hie Hed Hc Ht Hcne Htne.
  unfold decryptNote. unfold bind at 1. step_get.
  rewrite Hs, Hie, Hed. simpl.
  unfold try_catch. unfold bind at 1. rewrite decryptNote_eq, Hc, Ht.
  apply truthy_true in Hcne, Htne. rewrite Hcne, Htne. simpl.
  unfold bind, on_enc, Encryption.storeSessionPassword, ret. simpl.
  eexists. split; [done|]. split; [done|]. split; [done|]. split; [done|].
  simpl. apply lookup_insert_eq.
Qed.

(** X16. Locking and unlocking through the service.  For a note that
    [getNote] shows, with non-empty title and content, its title, its
    content and the password without a lone surrogate, and the store
    working: [encryptNote] stores the note with [isEncrypted] set, the
    content blanked and the title left as it was, in clear; [decryptNote]
    with the same password then returns a copy with the original title and
    content and the plain text of that content, records the password for the
    session, and leaves the locked note in the table. *)
Theorem X16_encryptNote_then_decryptNote (id password : string)
    (rnd : Entropy) (now : Z) (w : World) (note : Note.t) :
  works w ->
  shown w id = Some note ->
  Note.id note = id ->
  Note.title note ≠ "" ->
  Note.content note ≠ "" ->
  isWellFormed (Note.title note) = true ->
  isWellFormed (Note.content note) = true ->
  isWellFormed password = true ->
  exists locked w1 copy w2,
    encryptNote id password rnd now w = (Ok (Some locked), w1) /\
    stored w1 id = Some locked /\
    Note.isEncrypted locked = true /\
    Note.content locked = "" /\
    Note.title locked = Note.title note /\
    decryptNote id password w1 = (Ok (Some copy), w2) /\
    Note.title copy = Note.title note /\
    Note.content copy = Note.content note /\
    Note.plainTextContent copy
      = Some (extractPlainText (Note.content note)) /\
    Note.isEncrypted copy = false /\
    stored w2 id = Some locked /\
    Encryption.sessionPasswords (encryptionService w2) !! id = Some password.
Proof.
  intros Hw Hs Hid Htne Hcne Hwt Hwc Hwp. subst id.
  destruct (encryptNote_works (Note.id note) password rnd now w note Hw Hs
              Hwp Hwc Hwt)
    as (locked & w1 & E1 & Hw1 & Hst1 & Hsh1 & Hid1 & Hc1 & Ht1 & _ & Hie
        & _ & _ & Hed).
  cbv zeta in Hed.
  destruct (decryptNote_of_shown (Note.id note) password w1 locked _
              (Note.content note) (Note.title note) Hw1 Hsh1 Hie Hed)
    as (w2 & E2 & _ & Hst2 & _ & Hpw); simpl;
    try (by apply recovers_encrypt); try done.
  eexists locked, w1, _, w2. split; [exact E1|]. split; [exact Hst1|].
  split; [done|]. split; [done|]. split; [done|]. split; [exact E2|].
  simpl. split_and!; try done. by rewrite Hst2.
Qed.

(** X30. [encryptNote] on a note that [getNote] shows, the store working,
    when the password, the content or the title of the note has a lone
    surrogate: crypto-js throws [URIError], the service does not catch it,
    and nothing is written, so that the note stays in the table as it was,
    not encrypted. *)
Theorem X30_encryptNote_throws_on_lone_surrogate (id password : string)
    (rnd : Entropy) (now : Z) (w : World) (note : Note.t) :
  works w ->
  shown w id = Some note ->
  isWellFormed password && isWellFormed (Note.content note)
    && isWellFormed (Note.title note) = false ->
  (encryptNote id password rnd now w).1 = Err URIError /\
  (forall j, stored (encryptNote id password rnd now w).2 j = stored w j) /\
  encryptionService (encryptNote id password rnd now w).2
    = encryptionService w.
Proof.
  intros Hw Hs Hill.
  destruct (encryptNote id password rnd now w) as [r w'] eqn:Hrun.
  revert Hrun. unfold encryptNote. unfold bind at 1.
  step_get. rewrite Hs. unfold bind at 1.
  rewrite encryptNote_eq, Hill. simpl. by intros [= <- <-].
Qed.

Lemma decryptNote_frame (id password : string) (w : World) :
  forall j, stored (decryptNote id password w).2 j = stored w j.
Proof.
  destruct (decryptNote id password w) as [r w'] eqn:Hrun. simpl.
  revert Hrun. unfold decryptNote. unfold bind at 1.
  destruct (get_frame id w) as (o & w1 & E & Hst & _). rewrite E.
  destruct o as [note|]; simpl; [|by intros [= <- <-]].
  destruct (Note.isEncrypted note); simpl; [|by intros [= <- <-]].
  destruct (Note.encryptedData note) as [envelope|]; simpl;
    [|by intros [= <- <-]].
  unfold try_catch. unfold bind at 1. rewrite decryptNote_eq.
  destruct (recovers (EncryptedData.content envelope) password
              (EncryptedData.salt envelope))
    as [c|]; simpl; [|by intros [= <- <-]].
  destruct (recovers (EncryptedData.title envelope) password
              (EncryptedData.salt envelope))
    as [t|]; simpl; [|by intros [= <- <-]].
  destruct (truthy c && truthy t); simpl; by intros [= <- <-].
Qed.

(** X17. [tryDecryptWithSession] never throws and never writes to the
    table, whatever the store does.  Without a session password for the id,
    or with an empty one, it answers [null] and changes nothing; when the
    unlock with the session password fails, it answers [null] and the
    session password of the id is forgotten. *)
Theorem X17_tryDecryptWithSession_never_throws (id : string) (w : World) :
  let r := (tryDecryptWithSession id w).1 in
  let w' := (tryDecryptWithSession id w).2 in
  (exists o, r = Ok o) /\
  (forall j, stored w' j = stored w j) /\
  ((Encryption.sessionPasswords (encryptionService w) !! id = None
    \/ Encryption.sessionPasswords (encryptionService w) !! id = Some "") ->
   r = Ok None /\ w' = w) /\
  (forall password,
     Encryption.sessionPasswords (encryptionService w) !! id
       = Some password ->
     password ≠ "" ->
     (exists e, (decryptNote id password w).1 = Err e) ->
     r = Ok None /\
     Encryption.sessionPasswords (encryptionService w') !! id = None).
Proof.
  cbv zeta.
  destruct (tryDecryptWithSession id w) as [r w'] eqn:Hrun. simpl.
  revert Hrun. unfold tryDecryptWithSession. unfold bind at 1.
  unfold on_enc at 1, Encryption.getSessionPassword at 1. simpl.
  assert (Hw : mkWorld (databaseService w) (encryptionService w) = w)
    by (by destruct w).
  rewrite Hw.
  destruct (Encryption.sessionPasswords (encryptionService w) !! id)
    as [pw|] eqn:Hpw.
  2:{ intros [= <- <-]. split; [eauto|]. split; [done|]. split; [done|].
      intros password [=]. }
  destruct (truthy pw) eqn:Htr; simpl.
  2:{ intros [= <- <-]. split; [eauto|]. split; [done|]. split; [done|].
      intros password [= <-] Hne. apply truthy_true in Hne. congruence. }
  unfold try_catch.
  pose proof (decryptNote_frame id pw w) as Hframe.
  assert (Hpwne : pw ≠ "") by (by apply truthy_true).
  destruct (decryptNote id pw w) as [[o|e] w1] eqn:Hd; simpl in *.
  - intros [= <- <-]. split; [eauto|]. split; [done|]. split.
    + intros [[=]|[= ->]]. done.
    + intros password [= <-] _ [e He]. rewrite Hd in He. done.
  - unfold bind, on_enc, Encryption.clearSessionPassword, ret. simpl.
    intros [= <- <-]. split; [eauto|]. split; [done|]. split.
    + intros [[=]|[= ->]]. done.
    + intros password [= <-] _ _. split; [done|]. simpl.
      apply lookup_delete_eq.
Qed.

Lemma on_db_getNote_eq (id : string) (w : World) :
  on_db (DirectDatabase.getNote id) w =
  (Ok (if next_store_call w then stored w id else None),
   mkWorld
     (DirectDatabase.mkDB
        (io (DirectDatabase.db_notes (databaseService w))).2)
     (encryptionService w)).
Proof.
  unfold on_db, next_store_call, stored, DirectDatabase.getNote, try_catch,
    bind, DirectDatabase.on_table, Table_get, io, ret.
  destruct w as [[[rws outs]] enc]. simpl.
  by destruct outs as [|[] outs].
Qed.

(** X18. After a successful [decryptNote] with a non-empty password,
    [tryDecryptWithSession] repeats the unlock as long as the note can be
    read: when its store read resolves it returns the same copy; when the
    read rejects it answers [null], the service's [getNote] having turned
    the rejection into "not found".  Either way the rows of the table and
    the session passwords are as the unlock left them. *)
Theorem X18_session_unlock_repeats_unlock (id password : string)
    (w w1 : World) (copy : Note.t) :
  decryptNote id password w = (Ok (Some copy), w1) ->
  password ≠ "" ->
  let r := (tryDecryptWithSession id w1).1 in
  let w2 := (tryDecryptWithSession id w1).2 in
  (next_store_call w1 = true -> r = Ok (Some copy)) /\
  (next_store_call w1 = false -> r = Ok None) /\
  (forall j, stored w2 j = stored w1 j) /\
  encryptionService w2 = encryptionService w1.
Proof.
  intros Hrun Hne. revert Hrun. unfold decryptNote. unfold bind at 1.
  rewrite on_db_getNote_eq.
  destruct (next_store_call w) eqn:Hnext; simpl; [|by intros [=]].
  destruct (stored w id) as [note|] eqn:Hrow; simpl; [|by intros [=]].
  destruct (Note.isEncrypted note) eqn:Hie; simpl; [|by intros [=]].
  destruct (Note.encryptedData note) as [envelope|] eqn:Hed; simpl;
    [|by intros [=]].
  unfold try_catch. unfold bind at 1. rewrite decryptNote_eq.
  destruct (recovers (EncryptedData.content envelope) password
              (EncryptedData.salt envelope))
    as [c|] eqn:Hc; simpl; [|by intros [=]].
  destruct (recovers (EncryptedData.title envelope) password
              (EncryptedData.salt envelope))
    as [t|] eqn:Ht; simpl; [|by intros [=]].
  destruct (truthy c && truthy t) eqn:Hct; simpl; [|by intros [=]].
  unfold bind, on_enc, Encryption.storeSessionPassword, ret. simpl.
  intros [= Hcopy <-].
  set (w1 := mkWorld
               (DirectDatabase.mkDB
                  (io (DirectDatabase.db_notes (databaseService w))).2)
               (Encryption.mk
                  (<[id:=password]>
                     (Encryption.sessionPasswords (encryptionService w))))).
  assert (Hrow1 : stored w1 id = Some note).
  { unfold stored, w1. simpl. by rewrite io_rows. }
  assert (E : tryDecryptWithSession id w1 =
    (Ok (if next_store_call w1 then Some copy else None),
     mkWorld
       (DirectDatabase.mkDB
          (io (DirectDatabase.db_notes (databaseService w1))).2)
       (encryptionService w1))).
  { unfold tryDecryptWithSession. unfold bind at 1.
    unfold on_enc at 1, Encryption.getSessionPassword at 1.
    assert (Hpw : Encryption.sessionPasswords (encryptionService w1) !! id
                  = Some password) by apply lookup_insert_eq.
    rewrite Hpw. apply truthy_true in Hne. rewrite Hne.
    cbn [negb]. unfold try_catch, decryptNote. unfold bind at 1.
    assert (Hw1 : mkWorld (databaseService w1) (encryptionService w1) = w1)
      by done.
    rewrite Hw1, on_db_getNote_eq.
    destruct (next_store_call w1); [|done].
    rewrite Hrow1. cbn [negb]. rewrite Hie, Hed. cbn [negb].
    unfold try_catch. unfold bind at 1. rewrite decryptNote_eq, Hc, Ht, Hct.
    unfold bind, on_enc, Encryption.storeSessionPassword, ret. simpl.
    rewrite insert_insert_eq. by rewrite Hcopy. }
  rewrite E. cbn [fst snd]. split_and!.
  - by intros ->.
  - by intros ->.
  - intros j. unfold stored. cbn [databaseService DirectDatabase.db_notes].
    by rewrite io_rows.
  - done.
Qed.

End LockUnlock.

(** ** Flushing, cancelling and failing saves of the auto-save hook *)

Section FlushAndCancel.
Import AutoSave.
Context {W : Type}.
Variable options : Options.
Variable persist : string -> Partial.t -> Z -> M W (option Note.t).

Lemma clear_armed_idle (rt : Runtime W) :
  single_timer rt ->
  timers (clear_armed rt) = [] /\
  refs (clear_armed rt) = refs rt /\
  saveCalls (clear_armed rt) = saveCalls rt /\
  onSaveCalls (clear_armed rt) = onSaveCalls rt /\
  onErrorCalls (clear_armed rt) = onErrorCalls rt /\
  world (clear_armed rt) = world rt.
Proof.
  unfold clear_armed, clearTimeout, set_timers.
  intros [Ht|(h & due & Ht & Hr)].
  - destruct (timeoutRef (refs rt)); simpl; by rewrite ?Ht.
  - rewrite Hr, Ht. simpl. rewrite filter_cons. simpl.
    rewrite decide_False by (by intros ?). by rewrite filter_nil.
Qed.

Lemma idle_stays_idle (rt : Runtime W) (now : Z) :
  timers rt = [] -> run_timers persist now rt = rt.
Proof. unfold run_timers. by intros ->. Qed.

(** X19. [cancelSave], with at most the hook's own timeout live, leaves
    no timeout and no pending note and makes no save; afterwards no amount
    of waiting and no [flushSave] saves anything: the cancelled edit is
    never persisted. *)
Theorem X19_cancelSave_drops_the_edit (rt : Runtime W) :
  single_timer rt ->
  timers (cancelSave rt) = [] /\
  pendingNoteRef (refs (cancelSave rt)) = None /\
  saveCalls (cancelSave rt) = saveCalls rt /\
  (forall now, run_timers persist now (cancelSave rt) = cancelSave rt) /\
  (forall now, saveCalls (flushSave persist now (cancelSave rt))
               = saveCalls rt).
Proof.
  intros Hs. destruct (clear_armed_idle rt Hs) as (Ht & Hr & Hc & _).
  assert (Htc : timers (cancelSave rt) = []) by (unfold cancelSave; done).
  assert (Hpc : pendingNoteRef (refs (cancelSave rt)) = None) by done.
  split; [done|]. split; [done|]. split; [unfold cancelSave; done|].
  split; [intros now; by apply idle_stays_idle|].
  intros now. unfold flushSave.
  assert (Hs' : single_timer (cancelSave rt)) by (by left).
  destruct (clear_armed_idle _ Hs') as (_ & Hr' & Hc' & _).
  rewrite Hr', Hpc, Hc'. unfold cancelSave. done.
Qed.

(** X20. [flushSave], with at most the hook's own timeout live and a note
    pending, saves that note once, at the time of the call, and leaves no
    timeout and nothing pending: waiting or flushing again saves nothing
    more.  With nothing pending it saves nothing. *)
Theorem X20_flushSave_saves_pending_once (rt : Runtime W) (now : Z) :
  single_timer rt ->
  let flushed := flushSave persist now rt in
  timers flushed = [] /\
  pendingNoteRef (refs flushed) = None /\
  saveCalls flushed =
    match pendingNoteRef (refs rt) with
    | Some note => (now, note) :: saveCalls rt
    | None => saveCalls rt
    end /\
  (forall later, run_timers persist later flushed = flushed) /\
  (forall later, saveCalls (flushSave persist later flushed)
                 = saveCalls flushed).
Proof.
  intros Hs. cbv zeta.
  destruct (clear_armed_idle rt Hs) as (Ht & Hr & Hc & _).
  assert (Hflush : timers (flushSave persist now rt) = [] /\
                   pendingNoteRef (refs (flushSave persist now rt)) = None /\
                   saveCalls (flushSave persist now rt) =
                     match pendingNoteRef (refs rt) with
                     | Some note => (now, note) :: saveCalls rt
                     | None => saveCalls rt
                     end).
  { unfold flushSave. rewrite Hr.
    destruct (pendingNoteRef (refs rt)) as [note|] eqn:Hp.
    - destruct (saveNote_frame persist note now (clear_armed rt))
        as (Ht' & _ & _ & _ & Hs').
      simpl. by rewrite Ht', Hs', Ht, Hc.
    - by rewrite Hr, Hp. }
  destruct Hflush as (Htf & Hpf & Hsf).
  split; [done|]. split; [done|]. split; [done|].
  split; [intros later; by apply idle_stays_idle|].
  intros later. unfold flushSave at 1.
  assert (Hs' : single_timer (flushSave persist now rt)) by (by left).
  destruct (clear_armed_idle _ Hs') as (_ & Hr' & Hc' & _).
  by rewrite Hr', Hpf.
Qed.

(** X21. What a timeout of the hook does when it is due, a note pending
    and no other timeout live.  It calls [saveNote] once and clears the
    pending note in every case.  If the save returns a note, [lastSaveRef]
    becomes the time of the save and [onSave] gets the saved note; if it
    returns [null], nothing else changes; if it throws, [onError] gets the
    error and [lastSaveRef] stays.  In no case is a timeout armed again: a
    failed save is not retried. *)
Theorem X21_due_timeout_outcomes (rt : Runtime W) (h : positive)
    (due now : Z) (note : Note.t) :
  timers rt = [(h, due)] ->
  pendingNoteRef (refs rt) = Some note ->
  due <= now ->
  let fired := run_timers persist now rt in
  let outcome :=
    (persist (Note.id note) (Partial.of_note note) due (world rt)).1 in
  saveCalls fired = (due, note) :: saveCalls rt /\
  pendingNoteRef (refs fired) = None /\
  timers fired = [] /\
  (forall later, run_timers persist later fired = fired) /\
  match outcome with
  | Ok (Some savedNote) =>
      lastSaveRef (refs fired) = due /\
      onSaveCalls fired = savedNote :: onSaveCalls rt /\
      onErrorCalls fired = onErrorCalls rt
  | Ok None =>
      lastSaveRef (refs fired) = lastSaveRef (refs rt) /\
      onSaveCalls fired = onSaveCalls rt /\
      onErrorCalls fired = onErrorCalls rt
  | Err e =>
      lastSaveRef (refs fired) = lastSaveRef (refs rt) /\
      onSaveCalls fired = onSaveCalls rt /\
      onErrorCalls fired = e :: onErrorCalls rt
  end.
Proof.
  intros Ht Hp Hle. cbv zeta.
  assert (Hrun : run_timers persist now rt
                 = on_timeout persist due (set_timers [] rt)).
  { unfold run_timers. rewrite Ht. simpl.
    by rewrite (proj2 (Z.leb_le _ _) Hle). }
  rewrite Hrun. unfold on_timeout. simpl. rewrite Hp.
  unfold saveNote. simpl.
  destruct (persist (Note.id note) (Partial.of_note note) due (world rt))
    as [[[saved|]|e] w']; simpl;
    (split; [done|]; split; [done|]; split; [done|];
     split; [intros later; by apply idle_stays_idle|done]).
Qed.

End FlushAndCancel.

(** ** [NoteService.autoSaveNote]: one timeout for all notes *)

Section SharedTimer.
Context `{CryptoJS} `{DOM}.
Import Debounced.

(** X22. [autoSaveNote] keeps a single timeout for the whole service.
    When it is called for a note and then, before that timeout is due, for
    another note, the first timeout is cleared: only the second note is ever
    handed to [updateNote], at its own deadline (the time of its call plus
    the delay its timeout is armed with), while the first note stays in
    [pendingSaves] with no timeout left to save it, however long one
    waits. *)
Theorem X22_autoSaveNote_second_note_drops_first (st : State)
    (a b : Note.t) (delay t0 t1 T : Z) :
  timeouts st = [] ->
  Note.id a ≠ Note.id b ->
  t0 <= t1 < t0 + timeout_delay delay ->
  t1 + timeout_delay delay <= T ->
  let final := run_timers T (call delay (call delay st (t0, a)) (t1, b)) in
  saves final = (t1 + timeout_delay delay, b) :: saves st /\
  pendingSaves final !! Note.id a = Some a /\
  timeouts final = [] /\
  (forall later, run_timers later final = final).
Proof.
  intros Ht Hne [H01 H1d] HT. cbv zeta.
  assert (E1 : call delay st (t0, a)
               = mkState (Some (nextTimeout st))
                   (<[Note.id a := a]> (pendingSaves st))
                   [(nextTimeout st, t0 + timeout_delay delay, Note.id a)]
                   (Pos.succ (nextTimeout st)) (saves st) (rejections st)
                   (world st)).
  { unfold call, run_timers. rewrite Ht. simpl. unfold autoSaveNote.
    rewrite Ht. simpl. by destruct (autoSaveTimer st). }
  rewrite E1.
  set (st1 := mkState _ _ _ _ _ _ _).
  assert (E2 : call delay st1 (t1, b)
               = mkState (Some (Pos.succ (nextTimeout st)))
                   (<[Note.id b := b]> (<[Note.id a := a]> (pendingSaves st)))
                   [(Pos.succ (nextTimeout st), t1 + timeout_delay delay,
                     Note.id b)]
                   (Pos.succ (Pos.succ (nextTimeout st))) (saves st)
                   (rejections st) (world st)).
  { unfold call, run_timers. simpl.
    rewrite (proj2 (Z.leb_gt _ _) H1d). unfold autoSaveNote. simpl.
    rewrite filter_cons. simpl.
    rewrite decide_False by (by intros ?). by rewrite filter_nil. }
  rewrite E2.
  set (st2 := mkState _ _ _ _ _ _ _).
  assert (E3 : run_timers T st2
               = on_timeout (Note.id b) (t1 + timeout_delay delay)
                   (mkState (autoSaveTimer st2) (pendingSaves st2) []
                      (nextTimeout st2) (saves st2) (rejections st2)
                      (world st2))).
  { unfold run_timers. simpl. by rewrite (proj2 (Z.leb_le _ _) HT). }
  rewrite E3. unfold on_timeout. simpl.
  rewrite lookup_insert_eq.
  destruct (NoteService.updateNote (Note.id b) (Partial.of_note b)
              (t1 + timeout_delay delay) (world st)) as [[o|e] w']; simpl.
  - split; [done|]. split.
    + rewrite lookup_delete_ne by done. rewrite lookup_insert_ne by done.
      apply lookup_insert_eq.
    + split; [done|]. intros later. by unfold run_timers.
  - split; [done|]. split.
    + rewrite lookup_insert_ne by done. apply lookup_insert_eq.
    + split; [done|]. intros later. by unfold run_timers.
Qed.

End SharedTimer.

(** ** Searching *)

Section Searching.
Context `{JSString}.
Import Database Search.

Lemma includes_empty (s : string) : includes s "" = true.
Proof. by destruct s. Qed.

Lemma matches_empty (note : Note.t) : matches "" note = true.
Proof. unfold matches. by rewrite includes_empty. Qed.

Lemma searchNotes_inv (query : string) (s : DatabaseService) :
  (next_call_resolves s /\
   (searchNotes query s).1 =
     Ok (Array_sort compareNotes
           (List.filter (matches (toLowerCase query))
              ((map_to_list (rows (db_notes s))).*2))))
  \/ (next_call_rejects s /\ (searchNotes query s).1 = Ok []).
Proof.
  unfold searchNotes, try_catch, bind, on_table, Table_filter, ret,
    next_call_resolves, next_call_rejects, io.
  destruct s as [[rws outs] cache all ts]; simpl.
  destruct outs as [|[] outs]; simpl; auto.
Qed.

(** X23. [searchNotes] never throws and leaves the table and both caches
    as they are.  When its store read resolves it returns, in the order of
    the list view, exactly the rows whose lowercased title, plain text or
    one of whose lowercased tags contains the lowercased query; when the
    read rejects it returns the empty list. *)
Theorem X23_searchNotes_sound_and_complete (query : string)
    (s : DatabaseService) :
  (exists l, (searchNotes query s).1 = Ok l /\
     display_order l /\
     (forall n, n ∈ l ->
        matches (toLowerCase query) n = true /\
        exists k, rows (db_notes s) !! k = Some n) /\
     (next_call_resolves s ->
      forall k n, rows (db_notes s) !! k = Some n ->
        matches (toLowerCase query) n = true -> n ∈ l) /\
     (next_call_rejects s -> l = [])) /\
  rows (db_notes (searchNotes query s).2) = rows (db_notes s) /\
  notesCache (searchNotes query s).2 = notesCache s /\
  allNotesCache (searchNotes query s).2 = allNotesCache s /\
  cacheTimestamp (searchNotes query s).2 = cacheTimestamp s.
Proof.
  split.
  - destruct (searchNotes_inv query s) as [[Hres ->]|[Hrej ->]].
    + eexists. split; [done|]. split_and!.
      * apply sorted_display_order, Array_sort_sorted.
      * intros n. rewrite Array_sort_perm, list_elem_of_In, filter_In.
        intros [Hin Hm]. split; [done|].
        apply list_elem_of_In, list_elem_of_fmap in Hin
          as ([k n'] & -> & Hin).
        exists k. by apply elem_of_map_to_list.
      * intros _ k n Hk Hm.
        rewrite Array_sort_perm, list_elem_of_In, filter_In.
        split; [|done]. apply list_elem_of_In, list_elem_of_fmap.
        exists (k, n). split; [done|]. by apply elem_of_map_to_list.
      * unfold next_call_resolves, next_call_rejects in *. congruence.
    + exists []. split; [done|].
      split; [intros i j a b _ Ha; by rewrite lookup_nil in Ha|].
      split; [intros n Hn; by apply elem_of_nil in Hn|].
      split; [|done].
      unfold next_call_resolves, next_call_rejects in *. congruence.
  - unfold searchNotes, try_catch, bind, on_table, Table_filter, ret, io.
    destruct s as [[rws outs] cache all ts]; simpl.
    by destruct outs as [|[] outs].
Qed.

Lemma filter_all_true {A} (p : A -> bool) (l : list A) :
  (forall x, p x = true) -> List.filter p l = l.
Proof.
  intros Hp. induction l as [|a l IH]; simpl; [done|].
  by rewrite Hp, IH.
Qed.

(** X24. A query that lowercases to the empty string, the empty query
    itself for one, matches every note: when the store read resolves,
    [searchNotes] returns the whole table in the order of the list view,
    the list a reloading [getAllNotes] returns. *)
Theorem X24_empty_query_lists_everything (query : string)
    (s : DatabaseService) (now : Z) :
  toLowerCase query = "" ->
  next_call_resolves s ->
  (searchNotes query s).1 =
    Ok (Array_sort compareNotes ((map_to_list (rows (db_notes s))).*2)) /\
  (allNotesCache s = None ->
   (searchNotes query s).1 = (getAllNotes now s).1).
Proof.
  intros Hq Hres.
  assert (Hsearch : (searchNotes query s).1 =
    Ok (Array_sort compareNotes ((map_to_list (rows (db_notes s))).*2))).
  { destruct (searchNotes_inv query s) as [[_ ->]|[Hrej _]].
    - rewrite Hq. by rewrite (filter_all_true _ _ matches_empty).
    - unfold next_call_resolves, next_call_rejects in *. congruence. }
  split; [done|]. intros Hnone.
  destruct (getAllNotes_reload now s Hnone Hres) as (s' & -> & _).
  done.
Qed.

Lemma sort_insert_first x l :
  Forall (before x) l -> sort_insert compareNotes x l = x :: l.
Proof.
  intros Hall. destruct l as [|y l]; [done|]. simpl.
  apply Forall_cons in Hall as [Hxy _]. unfold before in Hxy.
  by rewrite (proj2 (Z.ltb_ge _ _) Hxy).
Qed.

Lemma Forall_list_filter {A} (P : A -> Prop) (p : A -> bool) (l : list A) :
  Forall P l -> Forall P (List.filter p l).
Proof.
  induction 1 as [|x l Hx _ IH]; simpl; [constructor|].
  destruct (p x); [by constructor|done].
Qed.

Lemma filter_sort_insert (p : Note.t -> bool) x l :
  StronglySorted before l ->
  List.filter p (sort_insert compareNotes x l)
  = if p x then sort_insert compareNotes x (List.filter p l)
    else List.filter p l.
Proof.
  induction 1 as [|y l Hs IH Hy]; simpl.
  - by destruct (p x).
  - destruct (0 <? compareNotes x y) eqn:Hcmp; simpl.
    + rewrite IH. destruct (p y), (p x); simpl; try done.
      by rewrite Hcmp.
    + apply Z.ltb_ge in Hcmp.
      assert (Hall : Forall (before x) (y :: l)).
      { constructor; [done|]. eapply Forall_impl; [exact Hy|].
        intros z Hz. by eapply before_trans. }
      destruct (p x); [|done].
      symmetry. apply (sort_insert_first x (List.filter p (y :: l))).
      by apply Forall_list_filter.
Qed.

Lemma filter_Array_sort (p : Note.t -> bool) l :
  List.filter p (Array_sort compareNotes l)
  = Array_sort compareNotes (List.filter p l).
Proof.
  induction l as [|x l IH]; [done|].
  unfold Array_sort in *. simpl.
  rewrite filter_sort_insert by apply Array_sort_sorted.
  fold (Array_sort compareNotes l). unfold Array_sort. rewrite IH.
  by destruct (p x).
Qed.

Lemma searchResults_eq (notes : list Note.t) (query : string) (min : Z) :
  searchResults notes query min =
    if negb (truthy query) || (Z.of_nat (String.length query) <? min)
    then notes
    else List.filter (matches (toLowerCase query)) notes.
Proof.
  unfold searchResults. destruct (_ || _); [done|].
  induction notes as [|n notes IH]; simpl; [done|].
  rewrite IH. unfold matches.
  destruct (includes (toLowerCase (Note.title n)) (toLowerCase query));
    [done|].
  simpl. by destruct (match Note.plainTextContent n with
                      | Some p => includes (toLowerCase p) (toLowerCase query)
                      | None => false
                      end), (existsb _ (Note.tags n)).
Qed.

(** X25. The search of the hook and the search of the service agree.  In
    a service whose caches agree with the table and whose next store read
    resolves, filtering the list of [getAllNotes] with [useSearch], for a
    non-empty query of at least [minQueryLength] characters, gives exactly
    the list [searchNotes] returns for that query; for an empty or shorter
    query the hook returns the list unfiltered. *)
Theorem X25_hook_search_agrees_with_service (s : DatabaseService)
    (query : string) (minQueryLength now : Z) :
  coherent s ->
  next_call_resolves s ->
  exists notes found,
    (getAllNotes now s).1 = Ok notes /\
    (searchNotes query s).1 = Ok found /\
    (query ≠ "" -> minQueryLength <= Z.of_nat (String.length query) ->
     searchResults notes query minQueryLength = found) /\
    (query = "" \/ Z.of_nat (String.length query) < minQueryLength ->
     searchResults notes query minQueryLength = notes).
Proof.
  intros Hs Hres.
  destruct (getAllNotes_coherent s now Hs) as (notes & Hn & [->|[_ Hrej]]);
    [|unfold next_call_resolves, next_call_rejects in *; congruence].
  destruct (searchNotes_inv query s) as [[_ Hf]|[Hrej _]];
    [|unfold next_call_resolves, next_call_rejects in *; congruence].
  eexists _, _. split; [exact Hn|]. split; [exact Hf|].
  rewrite searchResults_eq. split.
  - intros Hne Hlen. apply truthy_true in Hne. rewrite Hne.
    rewrite (proj2 (Z.ltb_ge _ _) Hlen). simpl. apply filter_Array_sort.
  - intros [->|Hlt]; [done|].
    rewrite (proj2 (Z.ltb_lt _ _) Hlt). by rewrite orb_true_r.
Qed.

End Searching.

(** ** Missing notes, and creating, deleting and looking up *)

Section MissingAndRoundTrips.
Context `{CryptoJS} `{DOM}.
Import NoteService.

Ltac not_found Hw Hs :=
  unfold answers_without_writing;
  match goal with
  | |- (?m ?w).1 = _ /\ _ =>
      let r := fresh "r" in
      let w' := fresh "w" in
      let E := fresh "E" in
      destruct (m w) as [r w'] eqn:E; simpl; revert E
  end;
  unfold updateNote, togglePin, addTag, removeTag, encryptNote, decryptNote,
    createVersion, restoreToVersion, getVersion, getNoteVersions,
    deleteVersion, clearVersions, updateNoteWithVersion, getNote;
  unfold bind;
  match goal with
  | |- context [on_db (DirectDatabase.getNote ?id) ?w] =>
      let w0 := fresh "w" in
      let E0 := fresh "E" in
      let Hst := fresh "Hst" in
      destruct (get_works id w Hw) as (w0 & E0 & _ & Hst & _ & _);
      rewrite E0, Hs; simpl; intros [= <- <-]; split; [done|exact Hst]
  end.

(** X26. On an id for which [getNote] shows no note, the store working,
    every operation of the service answers its "not found" value ([null],
    [false] or the empty list) without throwing and without writing to the
    table. *)
Theorem X26_missing_note_is_not_found (id other password : string)
    (updates : Partial.t) (rnd : Entropy) (now : Z) (w : World) :
  works w ->
  shown w id = None ->
  answers_without_writing (getNote id now) None w /\
  answers_without_writing (updateNote id updates now) None w /\
  answers_without_writing (updateNoteWithVersion id updates other now)
    None w /\
  answers_without_writing (togglePin id now) None w /\
  answers_without_writing (addTag id other now) None w /\
  answers_without_writing (removeTag id other now) None w /\
  answers_without_writing (encryptNote id password rnd now) None w /\
  answers_without_writing (decryptNote id password) None w /\
  answers_without_writing (createVersion id other other other now) None w /\
  answers_without_writing (getNoteVersions id) [] w /\
  answers_without_writing (getVersion id other) None w /\
  answers_without_writing (restoreToVersion id other now) None w /\
  answers_without_writing (deleteVersion id other) false w /\
  answers_without_writing (clearVersions id) false w.
Proof.
  intros Hw Hs. split_and!; not_found Hw Hs.
Qed.

Lemma delete_works id w :
  works w ->
  exists w', on_db (DirectDatabase.deleteNote id) w = (Ok tt, w') /\
    works w' /\
    (forall j, stored w' j = if decide (id = j) then None else stored w j) /\
    (forall j, shown w' j = if decide (id = j) then None else shown w j).
Proof.
  unfold works, shown, stored, on_db, DirectDatabase.healthy,
    DirectDatabase.deleteNote, try_catch, bind, DirectDatabase.on_table,
    Table_delete, io.
  destruct w as [[[rws outs]] enc]; simpl. intros ->. simpl.
  eexists. split; [done|]. simpl. split; [done|].
  split; intros j; case_decide as Hj; subst;
    rewrite ?lookup_delete_eq, ?lookup_delete_ne by done; done.
Qed.

(** X27. Creating a note under an id that has no row and deleting it
    again, the store working: [createNote] returns and stores the note, with
    the plain text of its content, no versions and the three dates set to
    the time of the call; [deleteNote] then leaves every row of the table as
    it was before the note was created, and [getNote] shows nothing for the
    id. *)
Theorem X27_createNote_then_deleteNote (title content uuid : string)
    (now : Z) (w : World) :
  works w ->
  stored w uuid = None ->
  exists note w1 w2,
    createNote title content uuid now w = (Ok note, w1) /\
    stored w1 uuid = Some note /\
    shown w1 uuid = Some note /\
    Note.id note = uuid /\
    Note.title note = title /\
    Note.content note = content /\
    Note.plainTextContent note = Some (extractPlainText content) /\
    Note.versions note = None /\
    Note.isEncrypted note = false /\
    (Note.createdAt note = now /\ Note.updatedAt note = now /\
     Note.lastAccessedAt note = Some now) /\
    deleteNote uuid w1 = (Ok tt, w2) /\
    (forall j, stored w2 j = stored w j) /\
    shown w2 uuid = None.
Proof.
  intros Hw Hrow. unfold createNote, bind. step_save.
  destruct (delete_works uuid w0 Hw0) as (w2 & E2 & _ & Hst2 & Hsh2).
  eexists _, w0, w2. split; [done|].
  rewrite Hst, Hsh. simpl. rewrite !decide_True by done.
  split_and!; try done.
  - intros j. rewrite Hst2, Hst. simpl. case_decide; by subst.
  - rewrite Hsh2. by rewrite decide_True.
Qed.

Lemma find_app_last {A} (p : A -> bool) (l : list A) (x : A) :
  find p (l ++ [x]) =
    match find p l with
    | Some y => Some y
    | None => if p x then Some x else None
    end.
Proof.
  induction l as [|a l IH]; simpl; [done|].
  by destruct (p a).
Qed.

Lemma find_no_id (l : list NoteVersion.t) (vid : string) :
  vid ∉ NoteVersion.id <$> l ->
  find (fun v => bool_decide (NoteVersion.id v = vid)) l = None.
Proof.
  induction l as [|a l IH]; simpl; [done|].
  rewrite not_elem_of_cons. intros [Hne Hl].
  rewrite bool_decide_eq_false_2 by congruence. by apply IH.
Qed.

(** X28. A snapshot is found again.  For a note that [getNote] shows, the
    store working, and a version id that no version on record has,
    [createVersion] under that id followed by [getVersion] for it returns
    the version just created; the versions on record before are found as
    before and [getNoteVersions] lists them followed by the new one. *)
Theorem X28_createVersion_then_getVersion (noteId content title
    uuid : string) (now : Z) (w : World) (note : Note.t) :
  works w ->
  shown w noteId = Some note ->
  Note.id note = noteId ->
  uuid ∉ NoteVersion.id <$> versions_of note ->
  let version :=
    NoteVersion.mk uuid noteId content title now
      (Number_add (counter_of note) 1) in
  exists w1,
    createVersion noteId content title uuid now w = (Ok (Some version), w1) /\
    (getVersion noteId uuid w1).1 = Ok (Some version) /\
    (getNoteVersions noteId w1).1
      = Ok (versions_of note ++ [version])%list /\
    (forall versionId earlier,
       find (fun v => bool_decide (NoteVersion.id v = versionId))
         (versions_of note) = Some earlier ->
       (getVersion noteId versionId w1).1 = Ok (Some earlier)).
Proof.
  intros Hw Hs Hid Hfresh. cbv zeta. subst noteId.
  destruct (createVersion_works (Note.id note) content title uuid now w
              note Hw Hs)
    as (note' & w1 & E1 & Hw1 & Hsh1 & _ & _ & _ & Hvs & _).
  exists w1. split; [exact E1|].
  assert (Hlist : default [] (shown w1 (Note.id note) ≫= Note.versions)
            = (versions_of note ++
                 [NoteVersion.mk uuid (Note.id note) content title now
                    (Number_add (counter_of note) 1)])%list).
  { rewrite Hsh1. simpl. by rewrite Hvs. }
  destruct (get_works (Note.id note) w1 Hw1) as (w2 & E2 & _).
  unfold getVersion, getNoteVersions, bind, ret. rewrite E2. simpl.
  rewrite Hlist. split_and!.
  - rewrite find_app_last, find_no_id by done. simpl.
    by rewrite bool_decide_eq_true_2.
  - done.
  - intros versionId earlier Hfind. by rewrite find_app_last, Hfind.
Qed.

Lemma find_after_delete (l : list NoteVersion.t) (deleted vid : string) :
  find (fun v => bool_decide (NoteVersion.id v = vid))
    (filter (fun v => NoteVersion.id v ≠ deleted) l)
  = if decide (vid = deleted) then None
    else find (fun v => bool_decide (NoteVersion.id v = vid)) l.
Proof.
  induction l as [|a l IH]; [by case_decide|].
  rewrite filter_cons. simpl.
  destruct (decide (NoteVersion.id a ≠ deleted)) as [Hk|Hk]; simpl.
  - rewrite IH. case_decide as Hv; [|done].
    subst. by rewrite bool_decide_eq_false_2.
  - rewrite IH. apply dec_stable in Hk. case_decide as Hv; [done|].
    rewrite bool_decide_eq_false_2; [done|]. congruence.
Qed.

(** X29. A deleted version is gone.  For a note that [getNote] shows with
    a version list, the store working: [deleteVersion] answers [true] and
    stores the list without the versions of that id (also when there was
    none), the counter untouched; afterwards [getVersion] does not find the
    id and [restoreToVersion] for it answers [null] without writing, while
    every other version is found as before. *)
Theorem X29_deleted_version_cannot_be_restored (noteId versionId : string)
    (now : Z) (w : World) (note : Note.t) (vs : list NoteVersion.t) :
  works w ->
  shown w noteId = Some note ->
  Note.id note = noteId ->
  Note.versions note = Some vs ->
  exists note' w1,
    deleteVersion noteId versionId w = (Ok true, w1) /\
    stored w1 noteId = Some note' /\
    Note.versions note'
      = Some (filter (fun v => NoteVersion.id v ≠ versionId) vs) /\
    Note.version note' = Note.version note /\
    (getVersion noteId versionId w1).1 = Ok None /\
    answers_without_writing (restoreToVersion noteId versionId now) None w1 /\
    (forall other, other ≠ versionId ->
       (getVersion noteId other w1).1
       = Ok (find (fun v => bool_decide (NoteVersion.id v = other)) vs)).
Proof.
  intros Hw Hs Hid Hvs. subst noteId.
  destruct (deleteVersion_works (Note.id note) versionId w note vs Hw Hs Hvs)
    as (note' & w1 & E1 & Hw1 & Hsh1 & Hst1 & _ & Hv & Hvs').
  exists note', w1. split; [exact E1|]. split; [exact Hst1|].
  split; [exact Hvs'|]. split; [exact Hv|].
  destruct (get_works (Note.id note) w1 Hw1) as (w2 & E2 & _ & Hst2 & _).
  assert (Hget : forall vid,
            getVersion (Note.id note) vid w1 =
              (Ok (if decide (vid = versionId) then None
                   else find (fun v => bool_decide (NoteVersion.id v = vid))
                          vs), w2)).
  { intros vid. unfold getVersion, getNoteVersions, bind, ret.
    rewrite E2, Hsh1. simpl. rewrite Hvs'. simpl.
    by rewrite find_after_delete. }
  split_and!.
  - rewrite Hget. simpl. by rewrite decide_True.
  - assert (Hr : restoreToVersion (Note.id note) versionId now w1
                 = (Ok None, w2)).
    { unfold restoreToVersion. unfold bind at 1. rewrite Hget.
      by rewrite decide_True. }
    unfold answers_without_writing. rewrite Hr. done.
  - intros other Hne. rewrite Hget. simpl. by rewrite decide_False.
Qed.

End MissingAndRoundTrips.

(** ** The further properties on concrete runs *)

Section MoreRuns.
Import Reference Scenario.

Lemma fresh_db_coherent : coherent fresh_db.
Proof.
  split.
  - intros id n. simpl. by rewrite lookup_empty.
  - intros l. simpl. done.
Qed.

Lemma two_saved_coherent : coherent two_saved.
Proof.
  apply (coherent_after_call fresh_db (BatchSaveNotes [note_B; note_C])).
  apply fresh_db_coherent.
Qed.

(** X1 on a fresh service driven through a save, a list read, a deletion
    that the store rejects and a batch save. *)
Lemma X1_witness :
  coherent
    (foldl after_call
       (Database.mkDB (mkTable ∅ [true; true; false]) ∅ None 0)
       [SaveNote note_B; GetAllNotes 2000; DeleteNote "n2";
        BatchSaveNotes [note_C]]).
Proof.
  apply X1_caches_stay_coherent. split.
  - intros id n. simpl. by rewrite lookup_empty.
  - intros l. simpl. done.
Defined.

(** X2 on the service holding notes B and C. *)
Lemma X2_witness :
  (forall n, (Database.getNote "n3" two_saved).1 = Ok (Some n) ->
             rows (Database.db_notes two_saved) !! "n3" = Some n) /\
  (Database.getNote "n3" two_saved).1 = Ok (Some note_C).
Proof.
  destruct (X2_reads_are_never_stale two_saved "n3" 2000 two_saved_coherent)
    as [Hget _].
  split; [exact Hget|reflexivity].
Defined.

(** X3 on the same service, the store gone offline after the first read. *)
Lemma X3_witness :
  Database.getNote "n3" (Database.getNote "n3" two_saved_offline).2
  = (Ok (Some note_C), (Database.getNote "n3" two_saved_offline).2).
Proof.
  apply X3_getNote_repeats_without_store. reflexivity.
Defined.

(** X5 on the same service: the pinned note C comes before note B, though
    B was updated later. *)
Lemma X5_witness :
  display_order [note_C; note_B] /\
  (Database.getAllNotes 2000 two_saved).1 = Ok [note_C; note_B].
Proof.
  split; [|vm_compute; reflexivity].
  apply (X5_getAllNotes_is_in_display_order two_saved 2000).
  - apply two_saved_coherent.
  - vm_compute. reflexivity.
Defined.

(** X6 on the batch of notes B and C. *)
Lemma X6_witness :
  (Database.batchSaveNotes [note_B; note_C] fresh_db).1 = Ok tt /\
  (Database.getNote "n2" two_saved).1 = Ok (Some note_B).
Proof.
  destruct (X6_batchSaveNotes_all_or_nothing [note_B; note_C] fresh_db)
    as [(Hok & Hall & _)|(Herr & _)].
  - apply (bool_decide_unpack _). vm_compute. reflexivity.
  - split; [exact Hok|]. apply (Hall note_B). by left.
  - vm_compute in Herr. discriminate.
Defined.

(** X10 with draws 0, 7, 14, ... and the characters left in reverse. *)
Lemma X10_witness :
  let password := Encryption.generatePassword 16 (fun i => 7 * i)%nat
                    reverse in
  Z.of_nat (String.length password) = 16 /\
  Encryption.isValid (Encryption.validatePasswordStrength password) = true /\
  Encryption.score (Encryption.validatePasswordStrength password) = 5.
Proof.
  destruct (X10_generated_password_is_valid 16 (fun i => 7 * i)%nat reverse)
    as (Hlen & _ & _ & _ & _ & _ & Hvalid & _ & Hfull).
  - intros l. apply reverse_Permutation.
  - cbv zeta. split; [exact Hlen|]. split; [exact Hvalid|].
    by apply Hfull.
Defined.

(** X11 on the created note: the tag "home" is added once. *)
Lemma X11_witness :
  exists note' w',
    NoteService.addTag "n1" "home" 1500 created = (Ok (Some note'), w') /\
    Note.tags note' = ["home"].
Proof.
  destruct (X11_addTag_adds_once "n1" "home" 1500 created (note_of created))
    as (note' & w' & E & _ & _ & _ & _ & Htags & _).
  - reflexivity.
  - vm_compute. reflexivity.
  - reflexivity.
  - exists note', w'. split; [exact E|]. apply Htags. constructor.
Defined.

(** X12 on the note tagged "home" and "work": "home" is removed. *)
Lemma X12_witness :
  exists note' w',
    NoteService.removeTag "n1" "home" 1700 tagged = (Ok (Some note'), w') /\
    Note.tags note' = ["work"].
Proof.
  destruct (X12_removeTag_removes_every_occurrence "n1" "home" 1700 tagged
              (note_of tagged))
    as (note' & w' & E & _ & Htags & _).
  - reflexivity.
  - vm_compute. reflexivity.
  - reflexivity.
  - exists note', w'. split; [exact E|]. rewrite Htags.
    vm_compute. reflexivity.
Defined.

(** X13 on the created note, which is not pinned. *)
Lemma X13_witness :
  exists n1 w1 n2 w2,
    NoteService.togglePin "n1" 1500 created = (Ok (Some n1), w1) /\
    Note.isPinned n1 = true /\
    NoteService.togglePin "n1" 1600 w1 = (Ok (Some n2), w2) /\
    Note.isPinned n2 = false.
Proof.
  destruct (X13_togglePin_twice_restores_pin "n1" 1500 1600 created
              (note_of created))
    as (n1 & w1 & n2 & w2 & E1 & _ & Hp1 & _ & E2 & _ & Hp2 & _).
  - reflexivity.
  - vm_compute. reflexivity.
  - reflexivity.
  - exists n1, w1, n2, w2. split; [exact E1|]. split; [exact Hp1|].
    split; [exact E2|exact Hp2].
Defined.

(** X14 on the note with three snapshots. *)
Lemma X14_witness :
  exists w1 w2,
    NoteService.clearVersions "n1" three_versions = (Ok true, w1) /\
    NoteService.createVersion "n1" "<p>hello</p>" "A" "v4" 1400 w1
      = (Ok (Some (NoteVersion.mk "v4" "n1" "<p>hello</p>" "A" 1400 1)), w2).
Proof.
  destruct (X14_clearVersions_restarts_numbering "n1" "<p>hello</p>" "A"
              "v4" 1400 three_versions (note_of three_versions))
    as (cleared & w1 & w2 & E1 & _ & _ & _ & _ & _ & _ & E2 & _).
  - reflexivity.
  - vm_compute. reflexivity.
  - reflexivity.
  - exists w1, w2. split; [exact E1|exact E2].
Defined.

(** X15 on the created note and an edit of its content. *)
Lemma X15_witness :
  exists final w',
    NoteService.updateNoteWithVersion "n1"
      (content_update "<p>hello world</p>") "v1" 2000 created
      = (Ok (Some final), w') /\
    Note.versions final
      = Some [NoteVersion.mk "v1" "n1" "<p>hello</p>" "A" 2000 1].
Proof.
  destruct (X15_updateNoteWithVersion_snapshots_before_edit "n1" "v1"
              (content_update "<p>hello world</p>") 2000 created
              (note_of created))
    as (final & w' & E & _ & _ & _ & _ & Hvs & _).
  - reflexivity.
  - vm_compute. reflexivity.
  - reflexivity.
  - reflexivity.
  - exists final, w'. split; [exact E|]. rewrite Hvs.
    vm_compute. reflexivity.
Defined.

(** X16 on the created note, locked and unlocked with "Abc123!". *)
Lemma X16_witness :
  exists locked w1 copy w2,
    NoteService.encryptNote "n1" "Abc123!" entropy 3000 created
      = (Ok (Some locked), w1) /\
    Note.title locked = "A" /\
    NoteService.decryptNote "n1" "Abc123!" w1 = (Ok (Some copy), w2) /\
    Note.content copy = "<p>hello</p>".
Proof.
  destruct (X16_encryptNote_then_decryptNote "n1" "Abc123!" entropy 3000
              created (note_of created))
    as (lk & w1 & copy & w2 & E1 & _ & _ & _ & Ht & E2 & _ & Hc & _).
  - reflexivity.
  - vm_compute. reflexivity.
  - reflexivity.
  - vm_compute. discriminate.
  - vm_compute. discriminate.
  - reflexivity.
  - reflexivity.
  - reflexivity.
  - exists lk, w1, copy, w2. split; [exact E1|]. split; [exact Ht|].
    split; [exact E2|exact Hc].
Defined.

(** X18 on the locked note, unlocked once. *)
Lemma X18_witness :
  exists copy,
    (NoteService.tryDecryptWithSession "n1" unlocked_once).1
      = Ok (Some copy) /\
    Note.content copy = "<p>hello</p>".
Proof.
  eexists. split.
  - apply (X18_session_unlock_repeats_unlock "n1" "Abc123!" locked).
    + vm_compute. reflexivity.
    + discriminate.
    + reflexivity.
  - reflexivity.
Defined.

(** X19 and X20 on the hook with one edit scheduled. *)
Lemma X19_witness :
  AutoSave.timers (AutoSave.cancelSave armed) = [] /\
  AutoSave.saveCalls
    (AutoSave.flushSave persist 1000050 (AutoSave.cancelSave armed)) = [].
Proof.
  destruct (X19_cancelSave_drops_the_edit persist armed)
    as (Ht & _ & _ & _ & Hflush).
  - right. eexists _, _. split; vm_compute; reflexivity.
  - split; [exact Ht|]. apply Hflush.
Defined.

Lemma X20_witness :
  AutoSave.saveCalls (AutoSave.flushSave persist 1000050 armed)
  = [(1000050, draft "<p>hello w</p>" "hello w")].
Proof.
  destruct (X20_flushSave_saves_pending_once persist armed 1000050)
    as (_ & _ & Hs & _).
  - right. eexists _, _. split; vm_compute; reflexivity.
  - exact Hs.
Defined.

(** X21 on the same hook, left alone until its timeout is due. *)
Lemma X21_witness :
  AutoSave.saveCalls (AutoSave.run_timers persist 1000200 armed)
  = [(1000100, draft "<p>hello w</p>" "hello w")] /\
  AutoSave.lastSaveRef (AutoSave.refs
    (AutoSave.run_timers persist 1000200 armed)) = 1000100.
Proof.
  pose proof (X21_due_timeout_outcomes persist armed 1%positive 1000100
                1000200 (draft "<p>hello w</p>" "hello w")) as Hx.
  cbv zeta in Hx.
  destruct Hx as (Hs & _ & _ & _ & Hout).
  - vm_compute. reflexivity.
  - reflexivity.
  - done.
  - split; [exact Hs|]. vm_compute. reflexivity.
Defined.

(** X22 on the notes "n1" and "n2", auto-saved 500 ms apart with the
    delay of 2000 ms: only "n2" is saved. *)
Lemma X22_witness :
  let final :=
    Debounced.run_timers 1010000
      (Debounced.call 2000
         (Debounced.call 2000 (Debounced.initial two_created)
            (1000000, draft "<p>hello w</p>" "hello w"))
         (1000500, note_B)) in
  Debounced.saves final = [(1002500, note_B)] /\
  Debounced.pendingSaves final !! "n1"
    = Some (draft "<p>hello w</p>" "hello w").
Proof.
  destruct (X22_autoSaveNote_second_note_drops_first
              (Debounced.initial two_created)
              (draft "<p>hello w</p>" "hello w") note_B 2000 1000000
              1000500 1010000)
    as (Hs & Hp & _).
  - reflexivity.
  - discriminate.
  - done.
  - done.
  - cbv zeta. split; [exact Hs|exact Hp].
Defined.

(** X24 and X25 on the service holding notes B and C. *)
Lemma X24_witness :
  (Search.searchNotes "" two_saved).1 = Ok [note_C; note_B].
Proof.
  destruct (X24_empty_query_lists_everything "" two_saved 2000) as [Hs _].
  - reflexivity.
  - reflexivity.
  - rewrite Hs. vm_compute. reflexivity.
Defined.

Lemma X25_witness :
  exists notes found,
    (Database.getAllNotes 2000 two_saved).1 = Ok notes /\
    (Search.searchNotes "CAT" two_saved).1 = Ok found /\
    Search.searchResults notes "CAT" 1 = found /\
    found = [note_C].
Proof.
  destruct (X25_hook_search_agrees_with_service two_saved "CAT" 1 2000)
    as (notes & found & Hn & Hf & Hagree & _).
  - apply two_saved_coherent.
  - reflexivity.
  - exists notes, found. split; [exact Hn|]. split; [exact Hf|].
    split; [by apply Hagree|].
    vm_compute in Hf. by injection Hf as <-.
Defined.

(** X26 on the created world and an id that has no note. *)
Lemma X26_witness :
  answers_without_writing (NoteService.togglePin "n9" 2000) None created /\
  answers_without_writing (NoteService.clearVersions "n9") false created.
Proof.
  destruct (X26_missing_note_is_not_found "n9" "x" "pw" Partial.empty
              entropy 2000 created)
    as (_ & _ & _ & Hpin & _ & _ & _ & _ & _ & _ & _ & _ & _ & Hclear).
  - reflexivity.
  - vm_compute. reflexivity.
  - split; [exact Hpin|exact Hclear].
Defined.

(** X27 on the created world and a second note. *)
Lemma X27_witness :
  exists note w1 w2,
    NoteService.createNote "B" "<p>b</p>" "n2" 1500 created = (Ok note, w1) /\
    NoteService.deleteNote "n2" w1 = (Ok tt, w2) /\
    (forall j, stored w2 j = stored created j).
Proof.
  destruct (X27_createNote_then_deleteNote "B" "<p>b</p>" "n2" 1500 created)
    as (note & w1 & w2 & E1 & _ & _ & _ & _ & _ & _ & _ & _ & _ & E2 & Hst
        & _).
  - reflexivity.
  - vm_compute. reflexivity.
  - exists note, w1, w2. split; [exact E1|]. split; [exact E2|exact Hst].
Defined.

(** X28 and X29 on the note with three snapshots. *)
Lemma X28_witness :
  exists w1,
    NoteService.createVersion "n1" "<p>hello</p>" "A" "v4" 1400
      three_versions
      = (Ok (Some (NoteVersion.mk "v4" "n1" "<p>hello</p>" "A" 1400 4)), w1)
    /\ (NoteService.getVersion "n1" "v4" w1).1
       = Ok (Some (NoteVersion.mk "v4" "n1" "<p>hello</p>" "A" 1400 4)).
Proof.
  pose proof (X28_createVersion_then_getVersion "n1" "<p>hello</p>" "A"
                "v4" 1400 three_versions (note_of three_versions)) as Hx.
  cbv zeta in Hx. destruct Hx as (w1 & E1 & Hget & _).
  - reflexivity.
  - vm_compute. reflexivity.
  - reflexivity.
  - apply (bool_decide_unpack _). vm_compute. reflexivity.
  - exists w1. split; [exact E1|exact Hget].
Defined.

Lemma X29_witness :
  exists w1,
    NoteService.deleteVersion "n1" "v3" three_versions = (Ok true, w1) /\
    answers_without_writing (NoteService.restoreToVersion "n1" "v3" 5000)
      None w1.
Proof.
  destruct (X29_deleted_version_cannot_be_restored "n1" "v3" 5000
              three_versions (note_of three_versions)
              (versions_of (note_of three_versions)))
    as (note' & w1 & E1 & _ & _ & _ & _ & Hr & _).
  - reflexivity.
  - vm_compute. reflexivity.
  - reflexivity.
  - vm_compute. reflexivity.
  - exists w1. split; [exact E1|exact Hr].
Defined.

(** X30 on the note whose title is a lone surrogate. *)
Lemma X30_witness :
  (NoteService.encryptNote "n4" "Abc123!" entropy 3000 odd_title).1
    = Err URIError /\
  (Note.isEncrypted <$>
     stored (NoteService.encryptNote "n4" "Abc123!" entropy 3000
               odd_title).2 "n4") = Some false.
Proof.
  destruct (X30_encryptNote_throws_on_lone_surrogate "n4" "Abc123!" entropy
              3000 odd_title (default note_B (shown odd_title "n4")))
    as (Hr & Hst & _).
  - reflexivity.
  - vm_compute. reflexivity.
  - reflexivity.
  - split; [exact Hr|]. rewrite Hst. vm_compute. reflexivity.
Defined.

(** Locking text that holds a lone surrogate: [encryptNote] throws. *)
Example lock_lone_surrogate :
  Encryption.encryptNote "C" lone_surrogate "Abc123!" entropy tt
    = (Err URIError, tt) /\
  Encryption.encryptNote "C" "T" lone_surrogate entropy tt
    = (Err URIError, tt).
Proof. split; reflexivity. Qed.

(** Where the safe ranges end: one more than 2^53 is 2^53 again, and a
    delay of 2^31 ms is a timeout that is due at once, one of 2^32 + 5000 ms
    a timeout of five seconds. *)
Example beyond_the_safe_ranges :
  Number_add (MAX_SAFE_INTEGER + 1) 1 = MAX_SAFE_INTEGER + 1 /\
  Number_add (MAX_SAFE_INTEGER + 3) 1 = MAX_SAFE_INTEGER + 5 /\
  timeout_delay (MAX_TIMEOUT_DELAY + 1) = 0 /\
  timeout_delay (2 ^ 32 + 5000) = 5000.
Proof. split_and!; reflexivity. Qed.

End MoreRuns.
